(** * Pinecone: the directory-walk verification engine

    A shallow embedding of [checkForContent], [processDLCContent],
    [processUpdates], [getSHA1Hash] and [contains] of [fileparse.go]
    (the GUI-aware copy) and of the older command-line copy of
    [processUpdates], together with the properties of the scan that the
    design document states.

    The scanned dump is a finite tree of files and directories; the Go
    functions read it and print.  Every function of the embedding returns
    the trace of what it did (file-system operations and emitted reports,
    in program order) together with the Go return value. *)

From Stdlib Require Import String Ascii List Bool Arith Lia.
From stdpp Require Import base option gmap strings list fin_maps.

Import ListNotations.
Local Open Scope string_scope.
Local Open Scope list_scope.

(** ** Go library functions on strings

    Go strings are byte sequences and [len] counts bytes; a Rocq [string]
    is a sequence of 8-bit [ascii], so [String.length] is Go's [len].
    File names are taken to be ASCII, where [strings.ToLower] only maps
    the bytes 'A'..'Z' to 'a'..'z'. *)

Module GoStrings.

Definition lower_byte (c : ascii) : ascii :=
  let n := nat_of_ascii c in
  if ((65 <=? n)%nat && (n <=? 90)%nat) then ascii_of_nat (n + 32) else c.

(** [strings.ToLower] on ASCII text, where it maps the letters [A] to [Z]
    and leaves every other byte.  On other text the two differ: [is_ascii]
    below is the hypothesis under which a statement about the lower-case
    form of a name is a statement about [strings.ToLower]. *)
Fixpoint ToLower (s : string) : string :=
  match s with
  | EmptyString => EmptyString
  | String c s' => String (lower_byte c) (ToLower s')
  end.

(** [strings.HasPrefix s prefix] *)
Fixpoint HasPrefix (s pre : string) {struct pre} : bool :=
  match pre, s with
  | EmptyString, _ => true
  | String _ _, EmptyString => false
  | String p pre', String c s' => Ascii.eqb p c && HasPrefix s' pre'
  end.

Fixpoint drop_bytes (n : nat) (s : string) : string :=
  match n, s with
  | O, _ => s
  | S _, EmptyString => EmptyString
  | S n', String _ s' => drop_bytes n' s'
  end.

(** [strings.TrimPrefix s prefix]: [s] without the leading [prefix], or
    [s] itself when it does not start with it. *)
Definition TrimPrefix (s pre : string) : string :=
  if HasPrefix s pre then drop_bytes (String.length pre) s else s.

(** [strings.Contains s substr] *)
Fixpoint Contains (s sub : string) : bool :=
  HasPrefix s sub ||
  match s with
  | EmptyString => false
  | String _ s' => Contains s' sub
  end.

Fixpoint has_byte (c : ascii) (s : string) : bool :=
  match s with
  | EmptyString => false
  | String d s' => Ascii.eqb c d || has_byte c s'
  end.

(** The scan of [filepath.Ext] from the end of the name: the suffix that
    starts at the last dot of the last path element, if there is one. *)
Fixpoint last_dot_suffix (s : string) : option string :=
  match s with
  | EmptyString => None
  | String c s' =>
      match last_dot_suffix s' with
      | Some e => Some e
      | None =>
          if Ascii.eqb c "."%char && negb (has_byte "/"%char s') then Some s else None
      end
  end.

(** [filepath.Ext] *)
Definition Ext (path : string) : string :=
  match last_dot_suffix path with
  | Some e => e
  | None => EmptyString
  end.

(** [filepath.Join dir name] for a cleanly written [dir] ([is_clean]
    below) and a plain entry [name]: the two with one separator between
    them.  [filepath.Join] also cleans its result, so that below a root
    written otherwise, with a separator at its end say, the scan spells
    its paths differently. *)
Definition Join (dir name : string) : string := dir +:+ "/" +:+ name.

(** The text after the last separator. *)
Fixpoint after_last_sep (s : string) : string :=
  match s with
  | EmptyString => EmptyString
  | String c s' =>
      if has_byte "/"%char s then
        (if has_byte "/"%char s' then after_last_sep s' else s')
      else s
  end.

(** [FileInfo.Name] of a cleaned path ([is_clean] below): its last
    element.  For a path written with a separator at its end the two
    differ. *)
Definition Base (path : string) : string := after_last_sep path.

(** [name[17:]]: slicing a string below its length succeeds, slicing
    beyond it is a run-time panic ([None]). *)
Definition slice_from (n : nat) (s : string) : option string :=
  if (n <=? String.length s)%nat then Some (drop_bytes n s) else None.

End GoStrings.
Import GoStrings.

(** ** The catalog *)

(** Modelled from the spec: the declaration of [TitleData] that
    [fileparse.go] compiles against is not among the sources
    ([pinecone.go] declares an older shape).  The fields are the ones the
    code reads, with the types its loops force: [ContentIDs] is passed to
    [contains], so it is a slice of strings; [Archived] and
    [TitleUpdatesKnown] are ranged over twice, the inner range giving a
    string key and a string value, so each is a sequence of
    string-to-string maps. *)
Record TitleData := {
  TitleName : string;
  ContentIDs : list string;
  Archived : list (gmap string string);
  TitleUpdatesKnown : list (gmap string string)
}.

(** [TitleList.Titles] *)
Abbreviation Catalog := (gmap string TitleData).

(** [contains] *)
Fixpoint contains (slice : list string) (val : string) : bool :=
  match slice with
  | [] => false
  | item :: rest => if String.eqb item val then true else contains rest val
  end.

(** [for k, v := range m { if k == key { ...; break } }]: Go visits the
    entries of a map in an unspecified order; the keys are distinct, so
    the loop body fires for at most one entry.  The embedding walks the
    entries in the order of [map_to_list]. *)
Fixpoint range_find (entries : list (string * string)) (key : string)
  : option string :=
  match entries with
  | [] => None
  | (k, v) :: rest => if String.eqb k key then Some v else range_find rest key
  end.

Definition range_lookup (m : gmap string string) (key : string) : option string :=
  range_find (map_to_list m) key.

(** ** The scanned tree *)

(** A file holds its bytes and may fail to open or read; a directory
    lists its entries, in the order [os.ReadDir] and [filepath.Walk]
    return them (sorted by name), and may fail to be listed.  Symbolic
    links are not modelled. *)
Inductive node : Type :=
| File (readable : bool) (bytes : string)
| Dir (listable : bool) (entries : list (string * node)).

(** [DirEntry.IsDir], [FileInfo.IsDir] *)
Definition IsDir (n : node) : bool :=
  match n with
  | Dir _ _ => true
  | File _ _ => false
  end.

Fixpoint find_entry (name : string) (entries : list (string * node)) : option node :=
  match entries with
  | [] => None
  | (nm, n) :: rest => if String.eqb nm name then Some n else find_entry name rest
  end.

(** What [os.Stat (filepath.Join path name)] finds below the directory
    [parent] that lives at [path]. *)
Definition stat_child (parent : node) (name : string) : option node :=
  match parent with
  | Dir _ entries => find_entry name entries
  | File _ _ => None
  end.

(** ** Errors, reports and traces *)

Inductive error : Type :=
| SkipDir                                 (* filepath.SkipDir *)
| ErrNotFound (directory : string)        (* "%s directory not found" *)
| ErrIO (path : string).                  (* an *os.PathError for [path] *)

(** What the scan reports.  One report gathers the consecutive
    [printInfo] (or [addText]) lines of one finding and carries the values
    that are formatted into them. *)
Inductive event : Type :=
| Header (text : string)
| RootNotFound (directory : string)
| UnrecognizedDLC (subDirDLC : string)
| UnrecognizedUpdates (subDirUpdates : string)
| ContentUnknown (path : string)
| ContentArchived (archivedName : string)
| ContentUnarchived (titleName path : string)
| HashError (fileName : string) (err : error)
| UpdateKnown (titleName titleID name path sha1 : string)
| UpdateUnknown (titleName titleID path sha1 : string)
| Separator.

Inductive action : Type :=
| Print (e : event)           (* printInfo, printHeader, fmt.Println *)
| GuiAdd (e : event)          (* addText, addHeader *)
| OpStat (path : string)      (* os.Stat *)
| OpReadDir (path : string) (ok : bool)
                              (* os.ReadDir, or the listing done by Walk,
                                 and whether it succeeded *)
| OpHash (path : string)      (* getSHA1Hash *)
| OpVisit (path : string).    (* the walk function is called for [path] *)

Abbreviation trace := (list action).

(** A Go function that returns [error]: what it did, and [None] for [nil]. *)
Abbreviation run := (trace * option error)%type.

#[global] Instance error_eq_dec : EqDecision error.
Proof. solve_decision. Defined.

#[global] Instance event_eq_dec : EqDecision event.
Proof. solve_decision. Defined.

#[global] Instance action_eq_dec : EqDecision action.
Proof. solve_decision. Defined.

(** The reports that classify one content package or one update file. *)
Definition is_classification (e : event) : bool :=
  match e with
  | ContentUnknown _ | ContentArchived _ | ContentUnarchived _ _
  | HashError _ _ | UpdateKnown _ _ _ _ _ | UpdateUnknown _ _ _ _ => true
  | _ => false
  end.

(** The reports printed on the console, in order. *)
Fixpoint printed (t : trace) : list event :=
  match t with
  | [] => []
  | Print e :: t' => e :: printed t'
  | _ :: t' => printed t'
  end.

(** The reports added to the GUI pane, in order. *)
Fixpoint gui_added (t : trace) : list event :=
  match t with
  | [] => []
  | GuiAdd e :: t' => e :: gui_added t'
  | _ :: t' => gui_added t'
  end.

(** Every report, whichever sink received it, in order. *)
Fixpoint emitted (t : trace) : list event :=
  match t with
  | [] => []
  | Print e :: t' => e :: emitted t'
  | GuiAdd e :: t' => e :: emitted t'
  | _ :: t' => emitted t'
  end.

(** The paths the walk function was called for. *)
Fixpoint visited (t : trace) : list string :=
  match t with
  | [] => []
  | OpVisit p :: t' => p :: visited t'
  | _ :: t' => visited t'
  end.

(** The paths whose SHA-1 was asked for. *)
Fixpoint hashed (t : trace) : list string :=
  match t with
  | [] => []
  | OpHash p :: t' => p :: hashed t'
  | _ :: t' => hashed t'
  end.

(** The directories that were listed. *)
Fixpoint listed (t : trace) : list string :=
  match t with
  | [] => []
  | OpReadDir p _ :: t' => p :: listed t'
  | _ :: t' => listed t'
  end.

(** Sequencing of two steps of a Go function body: the second runs only
    when the first did not return an error. *)
Definition and_then (r : run) (k : run) : run :=
  match r with
  | (t, Some e) => (t, Some e)
  | (t, None) => (t ++ fst k, snd k)
  end.

Notation "r ;;; k" := (and_then r k) (at level 62, right associativity).

(** A step that only acts. *)
Definition act (t : trace) : run := (t, None).

(** [os.ReadDir path] on the node that lives at [path]. *)
Definition ReadDir (path : string) (n : node) : list (string * node) + error :=
  match n with
  | Dir true entries => inl entries
  | _ => inr (ErrIO path)
  end.

(** What [os.Stat] answers for the scan root.  The file system of this
    embedding holds files and directories and no symbolic links, so
    [os.Lstat], with which [filepath.Walk] starts, answers the same. *)
Inductive stat_result : Type :=
| StatNotExist                (* an error for which os.IsNotExist holds *)
| StatFails (err : error)     (* any other error *)
| StatFound (n : node).

(** ** [fileparse.go] *)

Module Fileparse.
Section Scan.

(** The process-wide state the scan reads: the loaded catalog and the GUI
    switch; and the digest function of [crypto/sha1], rendered by ["%x"]. *)
Variable titles : Catalog.
Variable guiEnabled : bool.
Variable sha1 : string -> string.

(** [getSHA1Hash]: opening fails on an unreadable file; reading a
    directory through [io.Copy] fails. *)
Definition getSHA1Hash (filePath : string) (f : node) : string + error :=
  match f with
  | File true bytes => inl (sha1 bytes)
  | File false _ => inr (ErrIO filePath)
  | Dir _ _ => inr (ErrIO filePath)
  end.

(** [if guiEnabled { addText(...) }; printInfo(...)] *)
Definition report (e : event) : trace :=
  (if guiEnabled then [GuiAdd e] else []) ++ [Print e].

(** The closure [logOutput] of [checkForContent]. *)
Definition logOutput (e : event) : trace :=
  if guiEnabled then [GuiAdd e] else [Print e].

(** The inner loop of [processDLCContent] that sets [hasContentMetaXbx]. *)
Fixpoint hasContentMetaXbx (subDirContents : list (string * node)) : bool :=
  match subDirContents with
  | [] => false
  | (name, f) :: rest =>
      if Contains (ToLower name) "contentmeta.xbx" && negb (IsDir f)
      then true
      else hasContentMetaXbx rest
  end.

(** The two nested loops of [processDLCContent] that set [archivedName]. *)
Fixpoint archivedNameOf (archived : list (gmap string string)) (contentID : string)
  : string :=
  match archived with
  | [] => ""
  | m :: rest =>
      let archivedName := default "" (range_lookup m contentID) in
      if String.eqb archivedName "" then archivedNameOf rest contentID
      else archivedName
  end.

(** One iteration of the loop of [processDLCContent] over [subContents]. *)
Definition dlcBody (subDirDLC : string) (titleData : TitleData)
    (directory : string) (subContent : string * node) : run :=
  let '(name, n) := subContent in
  let subContentPath := Join subDirDLC name in
  if negb (IsDir n) then act []
  else
    match ReadDir subContentPath n with
    | inr err => ([OpReadDir subContentPath false], Some err)
    | inl subDirContents =>
        act [OpReadDir subContentPath true] ;;;
        if negb (hasContentMetaXbx subDirContents) then act []
        else
          let contentID := ToLower name in
          if negb (contains (ContentIDs titleData) contentID) then
            act (report (ContentUnknown subContentPath))
          else
            let archivedName := archivedNameOf (Archived titleData) contentID in
            let subContentPath := TrimPrefix subContentPath (directory +:+ "/") in
            if negb (String.eqb archivedName "") then
              act (report (ContentArchived archivedName))
            else
              act (report (ContentUnarchived (TitleName titleData) subContentPath))
    end.

Fixpoint dlcLoop (subDirDLC : string) (titleData : TitleData)
    (directory : string) (subContents : list (string * node)) : run :=
  match subContents with
  | [] => act []
  | subContent :: rest =>
      dlcBody subDirDLC titleData directory subContent ;;;
      dlcLoop subDirDLC titleData directory rest
  end.

(** [processDLCContent]; [dlc] is the node at [subDirDLC]. *)
Definition processDLCContent (subDirDLC : string) (dlc : node)
    (titleData : TitleData) (titleID directory : string) : run :=
  match ReadDir subDirDLC dlc with
  | inr err => ([OpReadDir subDirDLC false], Some err)
  | inl subContents =>
      act [OpReadDir subDirDLC true] ;;; dlcLoop subDirDLC titleData directory subContents
  end.

(** The report of a known update, with the reassignments of [filePath]:
    the GUI branch trims the root prefix once, the console lines trim the
    result again. *)
Definition reportKnown (titleData : TitleData) (titleID directory name
    filePath fileHash : string) : trace :=
  let guiPath := TrimPrefix filePath (directory +:+ "/") in
  let filePath1 := if guiEnabled then guiPath else filePath in
  (if guiEnabled then
     [GuiAdd (Header "File Info");
      GuiAdd (UpdateKnown (TitleName titleData) titleID name guiPath fileHash);
      GuiAdd Separator]
   else []) ++
  [Print (Header "File Info");
   Print (UpdateKnown (TitleName titleData) titleID name
            (TrimPrefix filePath1 (directory +:+ "/")) fileHash);
   Print Separator].

Definition reportUnknown (titleData : TitleData) (titleID directory
    filePath fileHash : string) : trace :=
  let guiPath := TrimPrefix filePath (directory +:+ "/") in
  let filePath1 := if guiEnabled then guiPath else filePath in
  (if guiEnabled then
     [GuiAdd (Header "File Info");
      GuiAdd (UpdateUnknown (TitleName titleData) titleID guiPath fileHash)]
   else []) ++
  [Print (Header "File Info");
   Print (UpdateUnknown (TitleName titleData) titleID
            (TrimPrefix filePath1 (directory +:+ "/")) fileHash)].

(** The two nested loops of [processUpdates] over
    [titleData.TitleUpdatesKnown]; [knownUpdateFound] is the value of the
    flag when the loops start, the result carries its value when they end.
    The outer loop leaves as soon as the flag is set, whoever set it. *)
Fixpoint scanKnown (titleData : TitleData) (titleID directory filePath
    fileHash : string) (known : list (gmap string string))
    (knownUpdateFound : bool) : trace * bool :=
  match known with
  | [] => ([], knownUpdateFound)
  | knownUpdate :: rest =>
      match range_lookup knownUpdate fileHash with
      | Some name =>
          (reportKnown titleData titleID directory name filePath fileHash, true)
      | None =>
          if knownUpdateFound then ([], knownUpdateFound)
          else scanKnown titleData titleID directory filePath fileHash rest
                 knownUpdateFound
      end
  end.

(** One iteration of the loop of [processUpdates] over [files]. *)
Definition updBody (subDirUpdates : string) (titleData : TitleData)
    (titleID directory : string) (f : string * node) (knownUpdateFound : bool)
  : trace * bool :=
  let '(name, n) := f in
  if negb (String.eqb (Ext name) ".xbe") then ([], knownUpdateFound)
  else
    let filePath := Join subDirUpdates name in
    match getSHA1Hash filePath n with
    | inr err =>
        (OpHash filePath :: report (HashError name err), knownUpdateFound)
    | inl fileHash =>
        let '(t, found) :=
          scanKnown titleData titleID directory filePath fileHash
            (TitleUpdatesKnown titleData) knownUpdateFound in
        if negb found then
          (OpHash filePath :: t ++
             reportUnknown titleData titleID directory filePath fileHash, found)
        else (OpHash filePath :: t, found)
    end.

(** The loop over [files]; [knownUpdateFound] is declared before the loop
    and lives across its iterations. *)
Fixpoint updLoop (subDirUpdates : string) (titleData : TitleData)
    (titleID directory : string) (files : list (string * node))
    (knownUpdateFound : bool) : trace :=
  match files with
  | [] => []
  | f :: rest =>
      let '(t, found) :=
        updBody subDirUpdates titleData titleID directory f knownUpdateFound in
      t ++ updLoop subDirUpdates titleData titleID directory rest found
  end.

(** [processUpdates]; [upd] is the node at [subDirUpdates]. *)
Definition processUpdates (subDirUpdates : string) (upd : node)
    (titleData : TitleData) (titleID directory : string) : run :=
  match ReadDir subDirUpdates upd with
  | inr err => ([OpReadDir subDirUpdates false], Some err)
  | inl files =>
      act (OpReadDir subDirUpdates true ::
           updLoop subDirUpdates titleData titleID directory files false)
  end.

(** The function literal handed to [filepath.Walk]; [n] is the node at
    [path] and [name] is [info.Name()]. *)
Definition walkFn (directory path name : string) (n : node)
    (err : option error) : run :=
  match err with
  | Some e => ([OpVisit path], Some e)
  | None =>
      act [OpVisit path] ;;;
      if IsDir n && (String.length name =? 8)%nat then
        let titleID := ToLower name in
        let found := titles !! titleID in
        act (match found with
             | Some titleData => report (Header (TitleName titleData))
             | None => []
             end) ;;;
        (let subDirDLC := Join path "$c" in
         act [OpStat subDirDLC] ;;;
         match stat_child n "$c" with
         | Some subInfoDLC =>
             if IsDir subInfoDLC then
               match found with
               | Some titleData =>
                   processDLCContent subDirDLC subInfoDLC titleData titleID directory
               | None => act (logOutput (UnrecognizedDLC subDirDLC))
               end
             else act []
         | None => act []
         end) ;;;
        (let subDirUpdates := Join path "$u" in
         act [OpStat subDirUpdates] ;;;
         match stat_child n "$u" with
         | Some subInfoUpdates =>
             if IsDir subInfoUpdates then
               match found with
               | Some titleData =>
                   processUpdates subDirUpdates subInfoUpdates titleData titleID directory
               | None => act (logOutput (UnrecognizedUpdates subDirUpdates))
               end
             else act []
         | None => act []
         end) ;;;
        match found with
        | None => ([], Some SkipDir)
        | Some _ => act []
        end
      else act []
  end.

(** [filepath.Walk]'s recursive [walk]: a directory is listed, the walk
    function is called for it and, unless the listing failed or the
    function returned an error, each entry is walked in turn; an entry
    that is a directory and answers [SkipDir] is skipped, any other error
    ends the walk. *)
Fixpoint walk (directory path name : string) (n : node) {struct n} : run :=
  match n with
  | File _ _ => walkFn directory path name n None
  | Dir listable entries =>
      let err := if listable then None else Some (ErrIO path) in
      let '(t1, err1) := walkFn directory path name n err in
      if negb listable || bool_decide (err1 <> None) then
        (OpReadDir path listable :: t1, err1)
      else
        let r :=
          (fix walk_entries (es : list (string * node)) : run :=
             match es with
             | [] => act []
             | (nm, child) :: rest =>
                 match walk directory (Join path nm) nm child with
                 | (t, Some e) =>
                     if IsDir child && bool_decide (e = SkipDir)
                     then act t ;;; walk_entries rest
                     else (t, Some e)
                 | (t, None) => act t ;;; walk_entries rest
                 end
             end) entries in
        (OpReadDir path listable :: t1 ++ fst r, snd r)
  end.

(** The loop of [walk] over the names of a directory. *)
Fixpoint walk_entries (directory path : string) (es : list (string * node)) : run :=
  match es with
  | [] => act []
  | (nm, child) :: rest =>
      match walk directory (Join path nm) nm child with
      | (t, Some e) =>
          if IsDir child && bool_decide (e = SkipDir)
          then act t ;;; walk_entries directory path rest
          else (t, Some e)
      | (t, None) => act t ;;; walk_entries directory path rest
      end
  end.

(** [checkForContent]; [root] is what lives at [directory], and [None]
    when nothing does, which is the failure of [os.Stat] that
    [os.IsNotExist] recognises.  A failure of another kind is the case
    [StatFails] of [checkForContentAt] below. *)
Definition checkForContent (directory : string) (root : option node) : run :=
  match root with
  | None =>
      ([OpStat directory; Print (RootNotFound directory)],
       Some (ErrNotFound directory))
  | Some n =>
      let '(t, err) := walk directory directory (Base directory) n in
      (OpStat directory :: t,
       match err with
       | Some SkipDir => None
       | _ => err
       end)
  end.

(** [checkForContent] for each answer of [os.Stat directory].  When
    [os.Stat] fails and the error is not one that [os.IsNotExist]
    recognises, the first [if] is passed over without a line printed;
    [os.Lstat] in [filepath.Walk] fails alike, the walk function is called
    once, for the root and with that error, and what it returns is the
    result of [filepath.Walk]. *)
Definition checkForContentAt (directory : string) (st : stat_result) : run :=
  match st with
  | StatNotExist => checkForContent directory None
  | StatFound n => checkForContent directory (Some n)
  | StatFails e =>
      let '(t, err) :=
        walkFn directory directory (Base directory) (File false "") (Some e) in
      (OpStat directory :: t,
       match err with
       | Some SkipDir => None
       | _ => err
       end)
  end.

End Scan.
End Fileparse.

(** ** The command-line copy of [processUpdates] ([src/unnamed/part_000])

    It differs from [fileparse.go] in three places: there is no GUI pane,
    the known-update report prints [name[17:]], and the loop over the
    files is left after the first known update. *)

Module Part000.
Section Scan.

Variable sha1 : string -> string.

(** How a Go function ends: it returns its [error], or it panics. *)
Inductive outcome : Type :=
| Returned (err : option error)
| Panicked.

(** How the search for a known update ends. *)
Inductive found_or_panic : Type :=
| Flag (knownUpdateFound : bool)
| SlicePanic.

Definition getSHA1Hash (filePath : string) (f : node) : string + error :=
  match f with
  | File true bytes => inl (sha1 bytes)
  | File false _ => inr (ErrIO filePath)
  | Dir _ _ => inr (ErrIO filePath)
  end.

(** The known-update branch: [printHeader] runs, then the arguments of
    [printInfo] are evaluated, among them [name[17:]]. *)
Definition reportKnown (titleData : TitleData) (titleID directory name
    filePath fileHash : string) : trace * found_or_panic :=
  match slice_from 17 name with
  | None => ([Print (Header "File Info")], SlicePanic)
  | Some shown =>
      ([Print (Header "File Info");
        Print (UpdateKnown (TitleName titleData) titleID shown
                 (TrimPrefix filePath (directory +:+ "/")) fileHash);
        Print Separator], Flag true)
  end.

Fixpoint scanKnown (titleData : TitleData) (titleID directory filePath
    fileHash : string) (known : list (gmap string string))
    (knownUpdateFound : bool) : trace * found_or_panic :=
  match known with
  | [] => ([], Flag knownUpdateFound)
  | knownUpdate :: rest =>
      match range_lookup knownUpdate fileHash with
      | Some name =>
          reportKnown titleData titleID directory name filePath fileHash
      | None =>
          if knownUpdateFound then ([], Flag knownUpdateFound)
          else scanKnown titleData titleID directory filePath fileHash rest
                 knownUpdateFound
      end
  end.

Definition reportUnknown (titleData : TitleData) (titleID directory
    filePath fileHash : string) : trace :=
  [Print (Header "File Info");
   Print (UpdateUnknown (TitleName titleData) titleID
            (TrimPrefix filePath (directory +:+ "/")) fileHash)].

(** How one iteration of the loop over [files] ends. *)
Inductive loop_exit : Type :=
| Continue (knownUpdateFound : bool)
| Break
| BodyPanic.

Definition updBody (subDirUpdates : string) (titleData : TitleData)
    (titleID directory : string) (f : string * node) (knownUpdateFound : bool)
  : trace * loop_exit :=
  let '(name, n) := f in
  if negb (String.eqb (Ext name) ".xbe") then ([], Continue knownUpdateFound)
  else
    let filePath := Join subDirUpdates name in
    match getSHA1Hash filePath n with
    | inr err =>
        ([OpHash filePath; Print (HashError name err)], Continue knownUpdateFound)
    | inl fileHash =>
        match scanKnown titleData titleID directory filePath fileHash
                (TitleUpdatesKnown titleData) knownUpdateFound with
        | (t, SlicePanic) => (OpHash filePath :: t, BodyPanic)
        | (t, Flag true) => (OpHash filePath :: t, Break)
        | (t, Flag false) =>
            (OpHash filePath :: t ++
               reportUnknown titleData titleID directory filePath fileHash,
             Continue false)
        end
    end.

Fixpoint updLoop (subDirUpdates : string) (titleData : TitleData)
    (titleID directory : string) (files : list (string * node))
    (knownUpdateFound : bool) : trace * outcome :=
  match files with
  | [] => ([], Returned None)
  | f :: rest =>
      match updBody subDirUpdates titleData titleID directory f knownUpdateFound with
      | (t, BodyPanic) => (t, Panicked)
      | (t, Break) => (t, Returned None)
      | (t, Continue found) =>
          let '(t', o) :=
            updLoop subDirUpdates titleData titleID directory rest found in
          (t ++ t', o)
      end
  end.

(** [processUpdates] of the command-line copy. *)
Definition processUpdates (subDirUpdates : string) (upd : node)
    (titleData : TitleData) (titleID directory : string) : trace * outcome :=
  match ReadDir subDirUpdates upd with
  | inr err => ([OpReadDir subDirUpdates false], Returned (Some err))
  | inl files =>
      let '(t, o) :=
        updLoop subDirUpdates titleData titleID directory files false in
      (OpReadDir subDirUpdates true :: t, o)
  end.

End Scan.

(** *** The rest of the command-line copy: the content classifier and the
    walk.  There is one sink, the console. *)

Section Walk.

Variable titles : Catalog.
Variable sha1 : string -> string.

Fixpoint hasContentMetaXbx (subDirContents : list (string * node)) : bool :=
  match subDirContents with
  | [] => false
  | (name, f) :: rest =>
      if Contains (ToLower name) "contentmeta.xbx" && negb (IsDir f)
      then true
      else hasContentMetaXbx rest
  end.

Fixpoint archivedNameOf (archived : list (gmap string string)) (contentID : string)
  : string :=
  match archived with
  | [] => ""
  | m :: rest =>
      let archivedName := default "" (range_lookup m contentID) in
      if String.eqb archivedName "" then archivedNameOf rest contentID
      else archivedName
  end.

(** One iteration of the loop of [processDLCContent] over [subContents]. *)
Definition dlcBody (subDirDLC : string) (titleData : TitleData)
    (directory : string) (subContent : string * node) : run :=
  let '(name, n) := subContent in
  let subContentPath := Join subDirDLC name in
  if negb (IsDir n) then act []
  else
    match ReadDir subContentPath n with
    | inr err => ([OpReadDir subContentPath false], Some err)
    | inl subDirContents =>
        act [OpReadDir subContentPath true] ;;;
        if negb (hasContentMetaXbx subDirContents) then act []
        else
          let contentID := ToLower name in
          if negb (contains (ContentIDs titleData) contentID) then
            act [Print (ContentUnknown subContentPath)]
          else
            let archivedName := archivedNameOf (Archived titleData) contentID in
            let subContentPath := TrimPrefix subContentPath (directory +:+ "/") in
            if negb (String.eqb archivedName "") then
              act [Print (ContentArchived archivedName)]
            else
              act [Print (ContentUnarchived (TitleName titleData) subContentPath)]
    end.

Fixpoint dlcLoop (subDirDLC : string) (titleData : TitleData)
    (directory : string) (subContents : list (string * node)) : run :=
  match subContents with
  | [] => act []
  | subContent :: rest =>
      dlcBody subDirDLC titleData directory subContent ;;;
      dlcLoop subDirDLC titleData directory rest
  end.

(** [processDLCContent] of the command-line copy. *)
Definition processDLCContent (subDirDLC : string) (dlc : node)
    (titleData : TitleData) (titleID directory : string) : run :=
  match ReadDir subDirDLC dlc with
  | inr err => ([OpReadDir subDirDLC false], Some err)
  | inl subContents =>
      act [OpReadDir subDirDLC true] ;;;
      dlcLoop subDirDLC titleData directory subContents
  end.

(** The function returned [nil]. *)
Definition is_nil (o : outcome) : bool :=
  match o with
  | Returned None => true
  | _ => false
  end.

(** A function that returns its [error] and does not panic. *)
Definition returns (r : run) : trace * outcome := (fst r, Returned (snd r)).

(** Sequencing when a step may panic: the next step runs only after a
    return of [nil]. *)
Definition and_then_outcome (r k : trace * outcome) : trace * outcome :=
  match r with
  | (t, Returned None) => (t ++ fst k, snd k)
  | _ => r
  end.

(** The function literal handed to [filepath.Walk]. *)
Definition walkFn (directory path name : string) (n : node)
    (err : option error) : trace * outcome :=
  match err with
  | Some e => ([OpVisit path], Returned (Some e))
  | None =>
      and_then_outcome (returns (act [OpVisit path]))
      (if IsDir n && (String.length name =? 8)%nat then
         let titleID := ToLower name in
         let found := titles !! titleID in
         and_then_outcome
           (returns (act (match found with
                          | Some titleData => [Print (Header (TitleName titleData))]
                          | None => []
                          end)))
        (and_then_outcome
           (let subDirDLC := Join path "$c" in
            returns
              (act [OpStat subDirDLC] ;;;
               match stat_child n "$c" with
               | Some subInfoDLC =>
                   if IsDir subInfoDLC then
                     match found with
                     | Some titleData =>
                         processDLCContent subDirDLC subInfoDLC titleData titleID
                           directory
                     | None => act [Print (UnrecognizedDLC subDirDLC)]
                     end
                   else act []
               | None => act []
               end))
        (and_then_outcome
           (let subDirUpdates := Join path "$u" in
            and_then_outcome (returns (act [OpStat subDirUpdates]))
              match stat_child n "$u" with
              | Some subInfoUpdates =>
                  if IsDir subInfoUpdates then
                    match found with
                    | Some titleData =>
                        processUpdates sha1 subDirUpdates subInfoUpdates titleData
                          titleID directory
                    | None => returns (act [Print (UnrecognizedUpdates subDirUpdates)])
                    end
                  else returns (act [])
              | None => returns (act [])
              end)
           (match found with
            | None => ([], Returned (Some SkipDir))
            | Some _ => returns (act [])
            end)))
       else returns (act []))
  end.

(** [filepath.Walk]'s recursive [walk] around the walk function of the
    command-line copy; a panic of the walk function ends everything. *)
Fixpoint walk (directory path name : string) (n : node) {struct n}
  : trace * outcome :=
  match n with
  | File _ _ => walkFn directory path name n None
  | Dir listable entries =>
      let err := if listable then None else Some (ErrIO path) in
      let '(t1, o1) := walkFn directory path name n err in
      if negb listable || negb (is_nil o1) then
        (OpReadDir path listable :: t1, o1)
      else
        let r :=
          (fix walk_entries (es : list (string * node)) : trace * outcome :=
             match es with
             | [] => returns (act [])
             | (nm, child) :: rest =>
                 match walk directory (Join path nm) nm child with
                 | (t, Returned (Some e)) =>
                     if IsDir child && bool_decide (e = SkipDir)
                     then and_then_outcome (returns (act t)) (walk_entries rest)
                     else (t, Returned (Some e))
                 | (t, Returned None) =>
                     and_then_outcome (returns (act t)) (walk_entries rest)
                 | (t, Panicked) => (t, Panicked)
                 end
             end) entries in
        (OpReadDir path listable :: t1 ++ fst r, snd r)
  end.

(** The loop of [walk] over the names of a directory. *)
Fixpoint walk_entries (directory path : string) (es : list (string * node))
  : trace * outcome :=
  match es with
  | [] => returns (act [])
  | (nm, child) :: rest =>
      match walk directory (Join path nm) nm child with
      | (t, Returned (Some e)) =>
          if IsDir child && bool_decide (e = SkipDir)
          then and_then_outcome (returns (act t)) (walk_entries directory path rest)
          else (t, Returned (Some e))
      | (t, Returned None) =>
          and_then_outcome (returns (act t)) (walk_entries directory path rest)
      | (t, Panicked) => (t, Panicked)
      end
  end.

(** [checkForContent] of the command-line copy; [root] is [None] when
    nothing lives at [directory] ([os.IsNotExist]). *)
Definition checkForContent (directory : string) (root : option node)
  : trace * outcome :=
  match root with
  | None =>
      ([OpStat directory; Print (RootNotFound directory)],
       Returned (Some (ErrNotFound directory)))
  | Some n =>
      let '(t, o) := walk directory directory (Base directory) n in
      (OpStat directory :: t,
       match o with
       | Returned (Some SkipDir) => Returned None
       | _ => o
       end)
  end.

End Walk.
End Part000.

(** ** [pinecone.go]: the first version of the program

    [main] loads the catalog and walks [TDATA] twice, first for content,
    then for title updates; every finding is a line on standard output.
    The catalog entry of this version lists the archived content
    identifiers in a slice. *)

Module Pinecone.

(** [TitleData] of [pinecone.go] *)
Record TitleData := {
  TitleName : string;
  ContentIDs : list string;
  TitleUpdates : list string;
  Archived : list string
}.

(** The zero value that a map lookup gives for a missing key. *)
Definition zeroTitleData : TitleData :=
  {| TitleName := ""; ContentIDs := []; TitleUpdates := []; Archived := [] |}.

(** The lines [main] prints while it traverses, with the values formatted
    into them. *)
Inductive line : Type :=
| TraversingContent            (* "Traversing directory structure..." *)
| TraversingUpdates            (* "... for Title Updates..." *)
| FoundFolder (titleName : string)
| NotInJSON (titleID : string)
| ContentIsArchived (titleName path : string)
| ContentHasUnarchived (titleName path : string)
| ContentIsUnknown (titleName path : string)
| PrintedError (err : error)   (* fmt.Println(err) *)
| FoundXBE (name : string)
| FoundUnknownFile (name : string)
| HashOf (filePath sha1 : string)
| HashFailed (name : string) (err : error).

Inductive output : Type :=
| Say (l : line)
| DoStat (path : string)
| DoReadDir (path : string) (ok : bool)
| DoHash (path : string)
| DoVisit (path : string).

(** The lines of a trace, in order. *)
Fixpoint said (t : list output) : list line :=
  match t with
  | [] => []
  | Say l :: t' => l :: said t'
  | _ :: t' => said t'
  end.

(** The paths a walk function was called for. *)
Fixpoint walked (t : list output) : list string :=
  match t with
  | [] => []
  | DoVisit p :: t' => p :: walked t'
  | _ :: t' => walked t'
  end.

(** The paths whose SHA-1 was asked for. *)
Fixpoint digested (t : list output) : list string :=
  match t with
  | [] => []
  | DoHash p :: t' => p :: digested t'
  | _ :: t' => digested t'
  end.

(** The directories that were listed, in order. *)
Fixpoint listings (t : list output) : list string :=
  match t with
  | [] => []
  | DoReadDir p _ :: t' => p :: listings t'
  | _ :: t' => listings t'
  end.

(** How [main] ends. *)
Inductive ending : Type :=
| Finished
| Panic (err : error).

Section Main.

Variable titles : gmap string TitleData.
Variable sha1 : string -> string.

(** [getSHA1Hash] *)
Definition getSHA1Hash (filePath : string) (f : node) : string + error :=
  match f with
  | File true bytes => inl (sha1 bytes)
  | File false _ => inr (ErrIO filePath)
  | Dir _ _ => inr (ErrIO filePath)
  end.

(** The search of [titleData.Archived] in the [else] branch, which sets
    [isArchived]. *)
Fixpoint isArchivedIn (archived : list string) (contentID : string) : bool :=
  match archived with
  | [] => false
  | archivedContentID :: rest =>
      if String.eqb archivedContentID contentID then true
      else isArchivedIn rest contentID
  end.

(** One iteration of the loop over the entries of [$c]: what it prints
    and whether it sets [foundUnarchivedContent]. *)
Definition contentBody (titleData : TitleData) (subDir : string)
    (subContent : string * node) : list output * bool :=
  let '(name, n) := subContent in
  let subContentPath := subDir +:+ "/" +:+ name in
  if IsDir n then
    let contentID := ToLower name in
    if contains (ContentIDs titleData) contentID then
      let archivedContentID := ToLower contentID in
      if contains (Archived titleData) archivedContentID then
        ([Say (ContentIsArchived (TitleName titleData) subContentPath)], false)
      else
        if negb (isArchivedIn (Archived titleData) contentID) then
          ([Say (ContentHasUnarchived (TitleName titleData) subContentPath)], true)
        else
          ([Say (ContentIsArchived (TitleName titleData) subContentPath)], false)
    else
      ([Say (ContentIsUnknown (TitleName titleData) subContentPath)], false)
  else ([], false).

(** The loop over the entries of [$c]; [foundUnarchivedContent] and
    [subContentPath] are declared before the loop, the latter is assigned
    in every iteration.  The result carries the entry that
    [subContentPath] names when the loop ends. *)
Fixpoint contentLoop (titleData : TitleData) (subDir : string)
    (subContents : list (string * node)) (foundUnarchivedContent : bool)
    (last : option (string * node))
  : list output * bool * option (string * node) :=
  match subContents with
  | [] => ([], foundUnarchivedContent, last)
  | subContent :: rest =>
      let '(t, found) := contentBody titleData subDir subContent in
      let '(t', found', last') :=
        contentLoop titleData subDir rest (foundUnarchivedContent || found)
          (Some subContent) in
      (t ++ t', found', last')
  end.

(** The loop that names the files of the directory listed after an
    unarchived finding. *)
Fixpoint nameFiles (files : list (string * node)) : list output :=
  match files with
  | [] => []
  | (name, _) :: rest =>
      Say (if String.eqb (Ext name) ".xbe" then FoundXBE name
           else FoundUnknownFile name) :: nameFiles rest
  end.

(** The walk function of the first traversal. *)
Definition contentWalkFn (path name : string) (n : node) (err : option error)
  : list output * option error :=
  match err with
  | Some e => ([DoVisit path], Some e)
  | None =>
      (DoVisit path ::
       if IsDir n then
         if (String.length name =? 8)%nat then
           let titleID := ToLower name in
           let titleData := default zeroTitleData (titles !! titleID) in
           Say (match titles !! titleID with
                | Some _ => FoundFolder (TitleName titleData)
                | None => NotInJSON titleID
                end) ::
           let subDir := Join path "$c" in
           DoStat subDir ::
           match stat_child n "$c" with
           | Some subInfo =>
               if IsDir subInfo then
                 match ReadDir subDir subInfo with
                 | inr _ => [DoReadDir subDir false]
                 | inl subContents =>
                     DoReadDir subDir true ::
                     let '(t, found, last) :=
                       contentLoop titleData subDir subContents false None in
                     t ++
                     if found then
                       match last with
                       | Some (name, sub) =>
                           let subContentPath := subDir +:+ "/" +:+ name in
                           match ReadDir subContentPath sub with
                           | inr e =>
                               [DoReadDir subContentPath false; Say (PrintedError e)]
                           | inl files =>
                               DoReadDir subContentPath true :: nameFiles files
                           end
                       | None => []
                       end
                     else []
                 end
               else []
           | None => []
           end
         else []
       else [],
       None)
  end.

(** The loop of the second traversal over the entries of [$u]. *)
Fixpoint hashLoop (subDir : string) (files : list (string * node)) : list output :=
  match files with
  | [] => []
  | (name, f) :: rest =>
      (if String.eqb (Ext name) ".xbe" then
         let filePath := Join subDir name in
         DoHash filePath ::
         match getSHA1Hash filePath f with
         | inr err => [Say (HashFailed name err)]
         | inl fileHash => [Say (HashOf filePath fileHash)]
         end
       else []) ++ hashLoop subDir rest
  end.

(** The walk function of the second traversal. *)
Definition updateWalkFn (path name : string) (n : node) (err : option error)
  : list output * option error :=
  match err with
  | Some e => ([DoVisit path], Some e)
  | None =>
      (DoVisit path ::
       if IsDir n then
         if HasPrefix name "4" && (String.length name =? 8)%nat then
           let subDir := Join path "$u" in
           DoStat subDir ::
           match stat_child n "$u" with
           | Some subInfo =>
               if IsDir subInfo then
                 match ReadDir subDir subInfo with
                 | inr e => [DoReadDir subDir false; Say (PrintedError e)]
                 | inl files => DoReadDir subDir true :: hashLoop subDir files
                 end
               else []
           | None => []
           end
         else []
       else [],
       None)
  end.

(** [filepath.Walk]'s recursive [walk] around a walk function [fn]. *)
Fixpoint walk (fn : string -> string -> node -> option error ->
                    list output * option error)
    (path name : string) (n : node) {struct n} : list output * option error :=
  match n with
  | File _ _ => fn path name n None
  | Dir listable entries =>
      let err := if listable then None else Some (ErrIO path) in
      let '(t1, err1) := fn path name n err in
      if negb listable || bool_decide (err1 <> None) then
        (DoReadDir path listable :: t1, err1)
      else
        let r :=
          (fix walk_entries (es : list (string * node))
             : list output * option error :=
             match es with
             | [] => ([], None)
             | (nm, child) :: rest =>
                 match walk fn (Join path nm) nm child with
                 | (t, Some e) =>
                     if IsDir child && bool_decide (e = SkipDir)
                     then (t ++ fst (walk_entries rest), snd (walk_entries rest))
                     else (t, Some e)
                 | (t, None) => (t ++ fst (walk_entries rest), snd (walk_entries rest))
                 end
             end) entries in
        (DoReadDir path listable :: t1 ++ fst r, snd r)
  end.

(** The loop of [walk] over the names of a directory. *)
Fixpoint walk_entries (fn : string -> string -> node -> option error ->
                            list output * option error)
    (path : string) (es : list (string * node)) : list output * option error :=
  match es with
  | [] => ([], None)
  | (nm, child) :: rest =>
      match walk fn (Join path nm) nm child with
      | (t, Some e) =>
          if IsDir child && bool_decide (e = SkipDir)
          then (t ++ fst (walk_entries fn path rest), snd (walk_entries fn path rest))
          else (t, Some e)
      | (t, None) =>
          (t ++ fst (walk_entries fn path rest), snd (walk_entries fn path rest))
      end
  end.

(** [filepath.Walk root fn]; [tdata] is what lives at [root], if
    anything: when [os.Lstat] fails the walk function is called once, with
    the error. *)
Definition Walk (fn : string -> string -> node -> option error ->
                     list output * option error)
    (root : string) (tdata : option node) : list output * option error :=
  let '(t, err) :=
    match tdata with
    | None => fn root (Base root) (File false "") (Some (ErrIO root))
    | Some n => walk fn root (Base root) n
    end in
  (t, match err with
      | Some SkipDir => None
      | _ => err
      end).

(** [main] from the moment the catalog is loaded: the two traversals of
    [TDATA]; the error of the first is overwritten by the error of the
    second, which makes [main] panic. *)
Definition mainTraversals (tdata : option node) : list output * ending :=
  let '(t1, _) := Walk contentWalkFn "TDATA" tdata in
  let '(t2, err) := Walk updateWalkFn "TDATA" tdata in
  (Say TraversingContent :: t1 ++ Say TraversingUpdates :: t2,
   match err with
   | Some e => Panic e
   | None => Finished
   end).

End Main.

(** *** [removeCommentsFromJSON]

    The two regular expressions are embedded as the scanners they denote.
    [(?m)^[ \t]*//.*\n?] matches, at the start of a line, blanks and tabs,
    two slashes, the rest of the line and its newline; a blank or tab is
    never a slash, so a line either matches from its first byte to its
    last or not at all.  [/\*[\s\S]*?\*/] matches from a [/*] to the first
    [*/] after it.  [ReplaceAllString] replaces the successive matches,
    found from left to right without overlap. *)

Inductive lineState : Type :=
| LineStart (blanks : string)   (* at the start of a line, blanks read *)
| InLine                        (* inside a line that is kept *)
| InComment.                    (* inside a line that matched *)

Definition is_blank (c : ascii) : bool :=
  Ascii.eqb c " " || Ascii.eqb c "009".

Definition is_newline (c : ascii) : bool := Ascii.eqb c "010".

(** [re.ReplaceAllString(jsonStr, filler)] for the first expression. *)
Fixpoint replaceLineComments (filler : string) (st : lineState) (s : string)
  : string :=
  match st, s with
  | LineStart blanks, EmptyString => blanks
  | LineStart blanks, String c s' =>
      if is_blank c then replaceLineComments filler (LineStart (blanks +:+ String c "")) s'
      else if Ascii.eqb c "/" then
        match s' with
        | String c2 s'' =>
            if Ascii.eqb c2 "/"
            then filler +:+ replaceLineComments filler InComment s''
            else blanks +:+ String c (replaceLineComments filler InLine s')
        | EmptyString => blanks +:+ String c EmptyString
        end
      else if is_newline c
      then blanks +:+ String c (replaceLineComments filler (LineStart "") s')
      else blanks +:+ String c (replaceLineComments filler InLine s')
  | InLine, EmptyString => EmptyString
  | InLine, String c s' =>
      String c (replaceLineComments filler
                  (if is_newline c then LineStart "" else InLine) s')
  | InComment, EmptyString => EmptyString
  | InComment, String c s' =>
      replaceLineComments filler
        (if is_newline c then LineStart "" else InComment) s'
  end.

(** [re.ReplaceAllString(jsonStr, filler)] for the second expression;
    [inBlock] tells that a [/*] with a [*/] after it was read. *)
Fixpoint replaceBlockComments (filler : string) (inBlock : bool) (s : string)
  : string :=
  match s with
  | EmptyString => EmptyString
  | String c s' =>
      if inBlock then
        match s' with
        | String c2 s'' =>
            if Ascii.eqb c "*" && Ascii.eqb c2 "/"
            then replaceBlockComments filler false s''
            else replaceBlockComments filler true s'
        | EmptyString => EmptyString
        end
      else
        match s' with
        | String c2 s'' =>
            if Ascii.eqb c "/" && Ascii.eqb c2 "*" && Contains s'' "*/"
            then filler +:+ replaceBlockComments filler true s''
            else String c (replaceBlockComments filler false s')
        | EmptyString => String c EmptyString
        end
  end.

(** [removeCommentsFromJSON] *)
Definition removeCommentsFromJSON (jsonStr : string) : string :=
  let jsonStr := replaceLineComments "oopsie doodle" (LineStart "") jsonStr in
  replaceBlockComments "wtf is this" false jsonStr.

End Pinecone.

(** ** Vocabulary of the statements *)

(** [entries] holds a directory called [name]: [os.Stat] succeeds on it
    and [IsDir] answers true. *)
Definition has_subdir (entries : list (string * node)) (name : string) : bool :=
  match find_entry name entries with
  | Some sub => IsDir sub
  | None => false
  end.

(** [p] lies strictly beneath the directory [q]. *)
Definition beneath (q p : string) : Prop := HasPrefix p (q +:+ "/") = true.

(** A tree as a file system holds it: the names of the entries of a
    directory are distinct and contain no separator. *)
Fixpoint well_formed (n : node) : Prop :=
  match n with
  | File _ _ => True
  | Dir _ entries =>
      NoDup (map fst entries) /\
      (fix all (es : list (string * node)) : Prop :=
         match es with
         | [] => True
         | (nm, child) :: rest =>
             has_byte "/"%char nm = false /\ well_formed child /\ all rest
         end) entries
  end.

(** [lives_at path name n q qn d]: in the tree [n], whose root is called
    [name] and found at [path], the node [d] is called [qn] and found at
    [q]. *)
Inductive lives_at : string -> string -> node -> string -> string -> node -> Prop :=
| lives_here path name n : lives_at path name n path name n
| lives_below path name listable entries nm child q qn d :
    In (nm, child) entries ->
    lives_at (Join path nm) nm child q qn d ->
    lives_at path name (Dir listable entries) q qn d.

(** The paths that the scan looked into: those the walk function was
    called for, those that were listed and those that were hashed.  The
    probes [os.Stat] for [$c] and [$u] are not among them. *)
Fixpoint touched (t : trace) : list string :=
  match t with
  | [] => []
  | OpVisit p :: t' => p :: touched t'
  | OpReadDir p _ :: t' => p :: touched t'
  | OpHash p :: t' => p :: touched t'
  | _ :: t' => touched t'
  end.

(** The directories whose listing failed, in order. *)
Fixpoint failed_listings (t : trace) : list string :=
  match t with
  | [] => []
  | OpReadDir p false :: t' => p :: failed_listings t'
  | _ :: t' => failed_listings t'
  end.

(** The failed listing of [p] is the first failed listing of [t] and the
    last thing done in [t], but for the call of the walk function that
    hands the failure over. *)
Definition ends_with_failed_listing (p : string) (t : trace) : Prop :=
  exists t1 t2,
    t = t1 ++ OpReadDir p false :: t2 /\
    failed_listings t1 = [] /\
    (t2 = [] \/ t2 = [OpVisit p]).

(** A run that obeys the propagation policy: it returns an I/O error
    exactly when a listing failed, and then stops there. *)
Definition stops_at_failed_listing (r : run) : Prop :=
  match snd r with
  | None | Some SkipDir => failed_listings (fst r) = []
  | Some (ErrIO p) => ends_with_failed_listing p (fst r)
  | Some (ErrNotFound _) => False
  end.

(** The display name recorded for the digest [h]: the value under [h] in
    the first map of the sequence that has the key [h]. *)
Fixpoint first_known (known : list (gmap string string)) (h : string)
  : option string :=
  match known with
  | [] => None
  | m :: rest =>
      match m !! h with
      | Some name => Some name
      | None => first_known rest h
      end
  end.

(** An entry of [$u] that [processUpdates] takes for an update file. *)
Definition is_xbe (f : string * node) : bool := String.eqb (Ext (fst f)) ".xbe".

(** The report of an unknown update. *)
Definition is_update_unknown (e : event) : bool :=
  match e with
  | UpdateUnknown _ _ _ _ => true
  | _ => false
  end.

(** The display name under which the catalog knows the update file [f]:
    [f] is a readable file with extension [.xbe] and its digest is a key
    of [TitleUpdatesKnown]. *)
Definition known_update (sha1 : string -> string) (titleData : TitleData)
    (f : string * node) : option string :=
  match f with
  | (name, File true bytes) =>
      if String.eqb (Ext name) ".xbe"
      then first_known (TitleUpdatesKnown titleData) (sha1 bytes)
      else None
  | _ => None
  end.

(** A content package: a directory of [$c] that can be listed and holds
    a [contentmeta.xbx] file. *)
Definition qualifies (subContent : string * node) : bool :=
  match snd subContent with
  | Dir true contents => Fileparse.hasContentMetaXbx contents
  | _ => false
  end.

(** An entry of [$c] is a file or a directory that can be listed. *)
Definition listable_entry (subContent : string * node) : bool :=
  match snd subContent with
  | Dir false _ => false
  | _ => true
  end.

(** The map [m] of [Archived] gives no archive name for [contentID]: it
    lacks the key or records the empty name. *)
Definition no_archive_name (contentID : string) (m : gmap string string) : Prop :=
  m !! contentID = None \/ m !! contentID = Some "".

(** A report without the path it carries. *)
Definition forget_path (e : event) : event :=
  match e with
  | ContentUnknown _ => ContentUnknown ""
  | ContentUnarchived titleName _ => ContentUnarchived titleName ""
  | _ => e
  end.

(** Every directory of the tree can be listed. *)
Fixpoint fully_listable (n : node) : bool :=
  match n with
  | File _ _ => true
  | Dir listable entries =>
      listable &&
      (fix all (es : list (string * node)) : bool :=
         match es with
         | [] => true
         | (_, child) :: rest => fully_listable child && all rest
         end) entries
  end.

(** A directory with an 8-byte name that the catalog does not know. *)
Definition unrecognized (titles : Catalog) (name : string) (n : node) : bool :=
  IsDir n && (String.length name =? 8)%nat &&
  match titles !! ToLower name with
  | None => true
  | Some _ => false
  end.

(** [open_at titles path name n q]: in the tree [n], whose root is called
    [name] and found at [path], a node is found at [q] and none of the
    directories on the way from the root down to its parent is an
    unrecognized title directory. *)
Inductive open_at (titles : Catalog) : string -> string -> node -> string -> Prop :=
| open_here path name n : open_at titles path name n path
| open_below path name listable entries nm child q :
    unrecognized titles name (Dir listable entries) = false ->
    In (nm, child) entries ->
    open_at titles (Join path nm) nm child q ->
    open_at titles path name (Dir listable entries) q.

(** No directory of the tree, whose root is called [name], has a name of
    8 bytes. *)
Fixpoint no_title_shape (name : string) (n : node) : bool :=
  match n with
  | File _ _ => true
  | Dir _ entries =>
      negb (String.length name =? 8)%nat &&
      (fix all (es : list (string * node)) : bool :=
         match es with
         | [] => true
         | (nm, child) :: rest => no_title_shape nm child && all rest
         end) entries
  end.


(** The entry cannot be hashed: it is a file that cannot be read, or a
    directory. *)
Definition unhashable (n : node) : bool :=
  match n with
  | File true _ => false
  | _ => true
  end.

(** The trace holds only what [filepath.Walk] itself does: listings and
    calls of the walk function. *)
Definition only_walks (t : trace) : bool :=
  forallb (fun a => match a with
                    | OpVisit _ | OpReadDir _ _ => true
                    | _ => false
                    end) t.

(** [p] is the path of an entry with a name ending in [.xbe] of the [$u]
    directory of [d], a directory at [q] whose 8-byte name [qn] the catalog
    knows. *)
Definition update_file_of (titles : Catalog) (q qn : string) (d : node)
    (p : string) : Prop :=
  exists titleData files nm n,
    String.length qn = 8 /\
    titles !! ToLower qn = Some titleData /\
    stat_child d "$u" = Some (Dir true files) /\
    In (nm, n) files /\ is_xbe (nm, n) = true /\
    p = Join (Join q "$u") nm.

(** [p] is the path of an entry with a name ending in [.xbe] of the [$u]
    directory of a directory of the tree [n] (called [name], found at
    [path]) whose name has 8 bytes and starts with [4]. *)
Definition title_update_file (path name : string) (n : node) (p : string) : Prop :=
  exists q qn d files nm f,
    lives_at path name n q qn d /\
    HasPrefix qn "4" = true /\ String.length qn = 8 /\
    stat_child d "$u" = Some (Dir true files) /\
    In (nm, f) files /\ Ext nm = ".xbe" /\
    p = Join (Join q "$u") nm.

(** How a walk of [pinecone.go] ends on the tree [n]: without an error
    when every directory can be listed, and with an error other than
    [filepath.SkipDir] when one cannot. *)
Definition ends_by_listing (r : list Pinecone.output * option error) (n : node)
  : Prop :=
  match snd r with
  | None => fully_listable n = true
  | Some e => fully_listable n = false /\ e <> SkipDir
  end.

(** Every byte of [s] satisfies [p]. *)
Fixpoint all_bytes (p : ascii -> bool) (s : string) : bool :=
  match s with
  | EmptyString => true
  | String c s' => p c && all_bytes p s'
  end.

(** Every byte of [s] is below 128: [s] is ASCII text, on which
    [strings.ToLower] changes the letters [A] to [Z] and nothing else, as
    [ToLower] does. *)
Definition is_ascii (s : string) : bool :=
  all_bytes (fun c => (nat_of_ascii c <? 128)%nat) s.

(** The elements of a path: the texts between its separators. *)
Fixpoint elements_from (element s : string) : list string :=
  match s with
  | EmptyString => [element]
  | String c s' =>
      if Ascii.eqb c "/" then element :: elements_from "" s'
      else elements_from (element +:+ String c "") s'
  end.

Definition elements (path : string) : list string := elements_from "" path.

(** An element that [filepath.Clean] keeps as it is. *)
Definition plain_element (element : string) : bool :=
  negb (String.eqb element "") && negb (String.eqb element ".") &&
  negb (String.eqb element "..").

(** A path below the current directory as [filepath.Clean] leaves it:
    plain elements with one separator between them. *)
Definition clean_relative (path : string) : bool :=
  forallb plain_element (elements path).

(** A path of plain elements, with or without a leading separator: what
    [filepath.Clean] leaves unchanged, the current directory, the
    file-system root and paths through [..] apart.  [filepath.Join] of such
    a path and an entry name is the two with a separator between them, as
    [Join] has it, and [FileInfo.Name] of what lives there is the last
    element, as [Base] has it. *)
Definition is_clean (path : string) : bool :=
  clean_relative (if HasPrefix path "/" then drop_bytes 1 path else path).

(** A name as a directory listing gives it. *)
Definition entry_name (name : string) : bool :=
  plain_element name && negb (has_byte "/"%char name).

(** Every name in the tree [n], whose root is called [name], is ASCII
    text. *)
Fixpoint ascii_names (name : string) (n : node) : bool :=
  is_ascii name &&
  match n with
  | File _ _ => true
  | Dir _ entries =>
      (fix all (es : list (string * node)) : bool :=
         match es with
         | [] => true
         | (nm, child) :: rest => ascii_names nm child && all rest
         end) entries
  end.

(** An error, a report and a step of the scan without the paths they
    carry. *)
Definition pathless_error (err : error) : error :=
  match err with
  | SkipDir => SkipDir
  | ErrNotFound _ => ErrNotFound ""
  | ErrIO _ => ErrIO ""
  end.

Definition pathless (e : event) : event :=
  match e with
  | Header text => Header text
  | RootNotFound _ => RootNotFound ""
  | UnrecognizedDLC _ => UnrecognizedDLC ""
  | UnrecognizedUpdates _ => UnrecognizedUpdates ""
  | ContentUnknown _ => ContentUnknown ""
  | ContentArchived archivedName => ContentArchived archivedName
  | ContentUnarchived titleName _ => ContentUnarchived titleName ""
  | HashError fileName err => HashError fileName (pathless_error err)
  | UpdateKnown titleName titleID name _ sha1 =>
      UpdateKnown titleName titleID name "" sha1
  | UpdateUnknown titleName titleID _ sha1 => UpdateUnknown titleName titleID "" sha1
  | Separator => Separator
  end.

Definition pathless_action (a : action) : action :=
  match a with
  | Print e => Print (pathless e)
  | GuiAdd e => GuiAdd (pathless e)
  | OpStat _ => OpStat ""
  | OpReadDir _ ok => OpReadDir "" ok
  | OpHash _ => OpHash ""
  | OpVisit _ => OpVisit ""
  end.

(** What a function did and returned, paths apart: the steps in order,
    each report with its sink, its kind and everything it says but the
    path, and the kind of the error. *)
Definition outcome_of (r : run) : run :=
  (map pathless_action (fst r), option_map pathless_error (snd r)).

(** ** A small catalog and dump, used to run the scan *)

Module Demo.

(** The digests of the file contents that occur below: the SHA-1 of the
    empty file, of ["abc"] and of ["a"]. *)
Definition sha1 (bytes : string) : string :=
  if String.eqb bytes "" then "da39a3ee5e6b4b0d3255bfef95601890afd80709"
  else if String.eqb bytes "abc" then "a9993e364706816aba3e25717850c26c9cd0d89d"
  else if String.eqb bytes "a" then "86f7e437faa5a7fce15d1ddcb9eaeaea377667b8"
  else "0000000000000000000000000000000000000000".

(** The catalog of the end-to-end scenarios of the design document, with
    two known updates recorded in two maps. *)
Definition gameA : TitleData :=
  {| TitleName := "Game A";
     ContentIDs := ["dlc0001"; "dlc0002"];
     Archived := [ {[ "dlc0002" := "ArchiveSet7" ]} ];
     TitleUpdatesKnown :=
       [ {[ "a9993e364706816aba3e25717850c26c9cd0d89d" := "Update 1.0" ]};
         {[ "86f7e437faa5a7fce15d1ddcb9eaeaea377667b8" := "Update 1.1" ]} ] |}.

Definition catalog : Catalog := {[ "4d530064" := gameA ]}.

(** A content package: a directory that holds a [contentmeta.xbx] file. *)
Definition package : node := Dir true [ ("ContentMeta.xbx", File true "") ].

Definition dlcDir : node :=
  Dir true [ ("dlc0001", package); ("dlc0002", package);
             ("nometa", Dir true [ ("readme.txt", File true "") ]);
             ("weird9999", package) ].

Definition titleDir : node := Dir true [ ("$c", dlcDir) ].

(** The same title with display names in the form the command-line copy
    expects, a 17-byte prefix before the name proper. *)
Definition gameA_prefixed : TitleData :=
  {| TitleName := "Game A";
     ContentIDs := ["dlc0001"; "dlc0002"];
     Archived := [ {[ "dlc0002" := "ArchiveSet7" ]} ];
     TitleUpdatesKnown :=
       [ {[ "a9993e364706816aba3e25717850c26c9cd0d89d" := "Title Update 1.0 Update 1.0" ]};
         {[ "86f7e437faa5a7fce15d1ddcb9eaeaea377667b8" := "Title Update 1.1 Update 1.1" ]} ] |}.

(** [$u] with a known update followed by a file that no map records. *)
Definition knownThenUnknown : node :=
  Dir true [ ("a.xbe", File true "abc"); ("b.xbe", File true "") ].

(** [$u] with two known updates, recorded in the first and in the second
    map of [TitleUpdatesKnown]. *)
Definition twoKnown : node :=
  Dir true [ ("a.xbe", File true "abc"); ("c.xbe", File true "a") ].

(** [$u] with a file that cannot be read between two that can. *)
Definition unreadableBetween : node :=
  Dir true [ ("0.xbe", File true ""); ("1.xbe", File false ""); ("2.xbe", File true "abc") ].

(** Scenario 3 of the design document: a content package that the catalog
    does not list. *)
Definition dumpWeird : node :=
  Dir true [ ("4d530064", Dir true [ ("$c", Dir true [ ("weird9999", package) ]) ]) ].

(** Scenario 5: a directory that the catalog does not know, with an
    update in it and a deeper title-shaped directory. *)
Definition dumpUnrecognized : node :=
  Dir true [ ("4d530064", titleDir);
             ("zzzzzzzz",
              Dir true [ ("$u", Dir true [ ("patch.xbe", File true "abc") ]);
                         ("saves", Dir true [ ("4d530064", titleDir) ]) ]) ].

(** A dump below a directory that is called like the scan root. *)
Definition dumpNested : node :=
  Dir true [ ("dump", Dir true [ ("4d530064", Dir true [ ("$u", knownThenUnknown) ]) ]) ].

(** What the unrecognized directory of [dumpUnrecognized] holds. *)
Definition zzEntries : list (string * node) :=
  [ ("$u", Dir true [ ("patch.xbe", File true "abc") ]);
    ("saves", Dir true [ ("4d530064", titleDir) ]) ].

(** A dump in which the [$c] directory of a known title cannot be listed. *)
Definition dumpUnlistable : node :=
  Dir true [ ("4d530064", Dir true [ ("$c", Dir false []); ("$u", knownThenUnknown) ]);
             ("zzzzzzzz", Dir true zzEntries) ].

(** A dump without any title-shaped directory. *)
Definition dumpPlain : node :=
  Dir true [ ("saves", Dir true [ ("a.xbe", File true "abc") ]);
             ("readme.txt", File true "") ].

(** [$u] without a known update: an unknown file and one that cannot be
    read. *)
Definition unmatched : list (string * node) :=
  [ ("0.xbe", File true ""); ("1.xbe", File false "") ].

(** A catalog in the form of [pinecone.go] and a [TDATA] for it: a known
    title with archived, unarchived and unknown content and two entries
    in [$u], and a directory that the catalog does not know. *)
Definition pineGameA : Pinecone.TitleData :=
  {| Pinecone.TitleName := "Game A";
     Pinecone.ContentIDs := ["aaaa000000000001"; "bbbb000000000002"];
     Pinecone.TitleUpdates := [];
     Pinecone.Archived := ["aaaa000000000001"] |}.

Definition pineCatalog : gmap string Pinecone.TitleData :=
  {[ "4d530064" := pineGameA ]}.

Definition pineContent : list (string * node) :=
  [ ("AAAA000000000001", Dir true []);
    ("BBBB000000000002", Dir true [ ("default.xbe", File true "abc") ]) ].

Definition pineTitleDir : node :=
  Dir true [ ("$c", Dir true (pineContent ++
                              [ ("ZZZZ000000000003", Dir true [ ("save.bin", File true "") ]) ]));
             ("$u", Dir true [ ("default.xbe", File true "abc");
                               ("notes.txt", File true "") ]) ].

Definition pineUnknownContent : list (string * node) :=
  [ ("CCCC000000000001", Dir true []); ("readme.txt", File true "") ].

Definition pineUnknownDir : node :=
  Dir true [ ("$c", Dir true pineUnknownContent) ].

Definition pineTDATA : node :=
  Dir true [ ("4D530064", pineTitleDir); ("FFFFFFFF", pineUnknownDir) ].

End Demo.

(** * Properties *)

(** ** Library facts *)

Lemma range_find_Some entries key v :
  range_find entries key = Some v -> In (key, v) entries.
Proof.
  induction entries as [|[k w] rest IH]; simpl; [discriminate|].
  destruct (String.eqb_spec k key) as [->|Hne].
  - intros [= ->]. now left.
  - intros H. right. auto.
Qed.

Lemma range_find_None entries key :
  range_find entries key = None -> forall v, ~ In (key, v) entries.
Proof.
  induction entries as [|[k w] rest IH]; simpl; [tauto|].
  destruct (String.eqb_spec k key) as [->|Hne]; [discriminate|].
  intros H v [[= Hk _]|Hin]; [congruence|]. exact (IH H v Hin).
Qed.

Lemma range_lookup_spec (m : gmap string string) key :
  range_lookup m key = m !! key.
Proof.
  unfold range_lookup.
  destruct (range_find (map_to_list m) key) as [v|] eqn:E.
  - apply range_find_Some in E. symmetry.
    apply elem_of_map_to_list. now apply list_elem_of_In.
  - symmetry. destruct (m !! key) as [v|] eqn:L; [|reflexivity].
    exfalso. apply (range_find_None _ _ E v).
    apply list_elem_of_In. now apply elem_of_map_to_list.
Qed.

Lemma contains_In slice val : contains slice val = true <-> In val slice.
Proof.
  induction slice as [|item rest IH]; simpl.
  - split; [discriminate|tauto].
  - destruct (String.eqb_spec item val) as [->|Hne].
    + split; auto.
    + rewrite IH. split; [auto|]. intros [?|?]; [congruence|assumption].
Qed.
Lemma emitted_app t1 t2 : emitted (t1 ++ t2) = emitted t1 ++ emitted t2.
Proof.
  induction t1 as [|a t1 IH]; simpl; [reflexivity|].
  destruct a; simpl; now rewrite ?IH.
Qed.

Lemma and_then_fst_emitted (r k : run) e :
  In e (emitted (fst (r ;;; k))) ->
  In e (emitted (fst r)) \/ In e (emitted (fst k)).
Proof.
  destruct r as [t [err|]]; simpl; [auto|].
  rewrite emitted_app, in_app_iff. auto.
Qed.

Lemma lower_byte_idem c : lower_byte (lower_byte c) = lower_byte c.
Proof. destruct c as [[] [] [] [] [] [] [] []]; reflexivity. Qed.

Lemma ToLower_idem s : ToLower (ToLower s) = ToLower s.
Proof. induction s; simpl; [reflexivity|]. now rewrite lower_byte_idem, IHs. Qed.

Lemma ToLower_length s : String.length (ToLower s) = String.length s.
Proof. induction s; simpl; congruence. Qed.

Section FileparseFacts.
Variable titles : Catalog.
Variable guiEnabled : bool.
Variable sha1 : string -> string.

Lemma emitted_report e : emitted (Fileparse.report guiEnabled e) = if guiEnabled then [e; e] else [e].
Proof. unfold Fileparse.report. now destruct guiEnabled. Qed.

Lemma hasContentMetaXbx_spec contents :
  Fileparse.hasContentMetaXbx contents = true <->
  exists fname f, In (fname, f) contents /\ IsDir f = false /\
                  Contains (ToLower fname) "contentmeta.xbx" = true.
Proof.
  induction contents as [|[nm f] rest IH]; simpl.
  - split; [discriminate|]. intros (? & ? & [] & _).
  - destruct (Contains (ToLower nm) "contentmeta.xbx" && negb (IsDir f)) eqn:E.
    + split; [|reflexivity]. intros _. apply andb_true_iff in E as [E1 E2].
      exists nm, f. rewrite negb_true_iff in E2. auto.
    + rewrite IH. split.
      * intros (fn & g & Hin & H1 & H2). exists fn, g. auto.
      * intros (fn & g & [[= -> ->]|Hin] & H1 & H2).
        -- rewrite H2, H1 in E. discriminate.
        -- exists fn, g. auto.
Qed.

End FileparseFacts.

(** ** The content classifier *)

Section ContentClassifier.
Variable guiEnabled : bool.

Lemma dlcBody_emitted_inv subDirDLC titleData directory name n e :
  In e (emitted (fst (Fileparse.dlcBody guiEnabled subDirDLC titleData directory (name, n)))) ->
  exists contents, n = Dir true contents /\
                   Fileparse.hasContentMetaXbx contents = true.
Proof.
  unfold Fileparse.dlcBody. destruct n as [r b|[] contents]; simpl; try tauto.
  destruct (Fileparse.hasContentMetaXbx contents) eqn:E; simpl; [|tauto].
  intros _. exists contents. auto.
Qed.

Lemma dlcLoop_emitted_inv subDirDLC titleData directory subContents e :
  In e (emitted (fst (Fileparse.dlcLoop guiEnabled subDirDLC titleData directory subContents))) ->
  exists name contents,
    In (name, Dir true contents) subContents /\
    Fileparse.hasContentMetaXbx contents = true /\
    In e (emitted (fst (Fileparse.dlcBody guiEnabled subDirDLC titleData directory
                          (name, Dir true contents)))).
Proof.
  induction subContents as [|[name n] rest IH]; simpl; [tauto|].
  intros H. apply and_then_fst_emitted in H as [H|H].
  - destruct (dlcBody_emitted_inv _ _ _ _ _ _ H) as (contents & -> & Hq).
    exists name, contents. auto.
  - destruct (IH H) as (nm & contents & Hin & Hq & He).
    exists nm, contents. auto.
Qed.

(** C5: a subdirectory of [$c] in which no non-directory entry has a name
    containing "contentmeta.xbx" (compared in lower case) produces no
    report in either sink and, when it can be listed, lets the loop go on;
    and every report of [processDLCContent] is the report of a listable
    subdirectory that does hold such an entry. *)
Theorem content_package_needs_contentmeta :
  forall subDirDLC titleData titleID directory,
    (forall name listable contents,
        (forall fname f, In (fname, f) contents -> IsDir f = false ->
                         Contains (ToLower fname) "contentmeta.xbx" = false) ->
        emitted (fst (Fileparse.dlcBody guiEnabled subDirDLC titleData directory
                        (name, Dir listable contents))) = [] /\
        (listable = true ->
         snd (Fileparse.dlcBody guiEnabled subDirDLC titleData directory
                (name, Dir listable contents)) = None)) /\
    (forall listable subContents e,
        In e (emitted (fst (Fileparse.processDLCContent guiEnabled subDirDLC
                              (Dir listable subContents) titleData titleID directory))) ->
        exists name contents fname f,
          In (name, Dir true contents) subContents /\
          In (fname, f) contents /\ IsDir f = false /\
          Contains (ToLower fname) "contentmeta.xbx" = true /\
          In e (emitted (fst (Fileparse.dlcBody guiEnabled subDirDLC titleData directory
                                (name, Dir true contents))))).
Proof.
  intros subDirDLC titleData titleID directory. split.
  - intros name listable contents Hnone.
    assert (Hq : Fileparse.hasContentMetaXbx contents = false).
    { destruct (Fileparse.hasContentMetaXbx contents) eqn:E; [|reflexivity].
      apply hasContentMetaXbx_spec in E as (fn & f & Hin & Hf & Hc).
      rewrite (Hnone fn f Hin Hf) in Hc. discriminate. }
    unfold Fileparse.dlcBody. destruct listable; simpl.
    + rewrite Hq. simpl. auto.
    + split; [reflexivity|discriminate].
  - intros listable subContents e.
    unfold Fileparse.processDLCContent. destruct listable; simpl; [|tauto].
    intros H. apply dlcLoop_emitted_inv in H as (name & contents & Hin & Hq & He).
    apply hasContentMetaXbx_spec in Hq as (fn & f & Hf & Hd & Hc).
    exists name, contents, fn, f. auto.
Qed.

(** A listable subdirectory is reported as unknown content exactly when
    it is a content package whose lower-case name is no element of
    [ContentIDs]; the report carries the path as joined, root included. *)
Lemma content_unknown_iff subDirDLC titleData directory name contents :
  In (ContentUnknown (Join subDirDLC name))
     (emitted (fst (Fileparse.dlcBody guiEnabled subDirDLC titleData directory
                      (name, Dir true contents)))) <->
  Fileparse.hasContentMetaXbx contents = true /\
  ~ In (ToLower name) (ContentIDs titleData).
Proof.
  unfold Fileparse.dlcBody. simpl.
  destruct (Fileparse.hasContentMetaXbx contents); simpl.
  2:{ split; [tauto|]. intros [? _]. discriminate. }
  destruct (contains (ContentIDs titleData) (ToLower name)) eqn:E; simpl.
  - apply contains_In in E.
    split; [|tauto]. intros H. exfalso.
    destruct (negb _); simpl in H; rewrite emitted_report in H;
      destruct guiEnabled; simpl in H; intuition discriminate.
  - split.
    + intros _. split; [reflexivity|]. intros H. apply contains_In in H. congruence.
    + intros _. rewrite emitted_report. destruct guiEnabled; simpl; auto.
Qed.

End ContentClassifier.

(** C7: [contains] answers [true] exactly when some element of the slice
    equals the value, so a value that is only a part of a known identifier,
    or only has one as a part, does not count as known; and the content
    classifier reports a content package with an ASCII name, found in a
    cleanly written [$c] directory, as unknown exactly when its lower-case
    name equals no element of [ContentIDs]. *)
Theorem content_id_membership_is_exact :
  (forall slice val,
      contains slice val = true <-> exists item, In item slice /\ item = val) /\
  (forall slice val,
      (forall item, In item slice ->
                    item <> val /\ (Contains item val = true \/ Contains val item = true)) ->
      contains slice val = false) /\
  (forall guiEnabled subDirDLC titleData directory name contents,
      is_clean subDirDLC = true ->
      entry_name name = true ->
      is_ascii name = true ->
      (In (ContentUnknown (Join subDirDLC name))
          (emitted (fst (Fileparse.dlcBody guiEnabled subDirDLC titleData directory
                           (name, Dir true contents)))) <->
       Fileparse.hasContentMetaXbx contents = true /\
       forall item, In item (ContentIDs titleData) -> item <> ToLower name)).
Proof.
  split; [|split].
  - intros slice val. rewrite contains_In. split.
    + intros H. exists val. auto.
    + intros (item & H & ->). exact H.
  - intros slice val H. destruct (contains slice val) eqn:E; [|reflexivity].
    apply contains_In in E. destruct (H val E) as [Hne _]. congruence.
  - intros guiEnabled subDirDLC titleData directory name contents _ _ _.
    rewrite content_unknown_iff. split.
    + intros [Hq Hn]. split; [exact Hq|]. intros item Hin ->. auto.
    + intros [Hq Hn]. split; [exact Hq|]. intros Hin. exact (Hn _ Hin eq_refl).
Qed.

Example contains_rejects_substring :
  contains ["dlc0001"; "dlc0002"] "dlc000" = false /\
  contains ["dlc0001"; "dlc0002"] "dlc00012" = false /\
  contains ["dlc0001"; "dlc0002"] "dlc0002" = true.
Proof. repeat split. Qed.

Lemma content_package_needs_contentmeta_witness :
  (emitted (fst (Fileparse.dlcBody false "dump/4d530064/$c" Demo.gameA "dump"
                   ("nometa", Dir true [ ("readme.txt", File true "") ]))) = [] /\
   snd (Fileparse.dlcBody false "dump/4d530064/$c" Demo.gameA "dump"
          ("nometa", Dir true [ ("readme.txt", File true "") ])) = None) /\
  (exists name contents fname f,
      In (name, Dir true contents) [ ("nometa", Dir true [ ("readme.txt", File true "") ]);
                                     ("weird9999", Demo.package) ] /\
      In (fname, f) contents /\ IsDir f = false /\
      Contains (ToLower fname) "contentmeta.xbx" = true /\
      In (ContentUnknown "dump/4d530064/$c/weird9999")
         (emitted (fst (Fileparse.dlcBody false "dump/4d530064/$c" Demo.gameA "dump"
                          (name, Dir true contents))))).
Proof.
  destruct (content_package_needs_contentmeta false "dump/4d530064/$c"
              Demo.gameA "4d530064" "dump") as [Hskip Honly].
  split.
  - destruct (Hskip "nometa" true [ ("readme.txt", File true "") ]) as [H1 H2].
    + intros fname f [[= <- <-]|[]] _. reflexivity.
    + split; [exact H1|]. apply H2. reflexivity.
  - apply (Honly true). vm_compute. left. reflexivity.
Defined.

Lemma content_id_membership_is_exact_witness :
  contains ["dlc0001"; "dlc0002"] "dlc000" = false /\
  In (ContentUnknown "dump/4d530064/$c/WEIRD9999")
     (emitted (fst (Fileparse.dlcBody false "dump/4d530064/$c" Demo.gameA "dump"
                      ("WEIRD9999", Demo.package)))).
Proof.
  destruct content_id_membership_is_exact as (_ & Hpart & Hunknown).
  split.
  - apply Hpart.
    intros item [<-|[<-|[]]]; (split; [discriminate|left; reflexivity]).
  - apply (Hunknown false "dump/4d530064/$c" Demo.gameA "dump" "WEIRD9999"
             [ ("ContentMeta.xbx", File true "") ]); try reflexivity.
    split; [reflexivity|]. intros item [<-|[<-|[]]]; discriminate.
Defined.

(** ** Prefixes of paths *)

Lemma app_nil_string (t : string) : "" +:+ t = t.
Proof. reflexivity. Qed.

Lemma app_cons_string c (s t : string) : String c s +:+ t = String c (s +:+ t).
Proof. reflexivity. Qed.

Ltac push_app := rewrite ?app_cons_string, ?app_nil_string in *.

Lemma HasPrefix_app s pre : HasPrefix s pre = true <-> exists rest, s = pre +:+ rest.
Proof.
  revert s. induction pre as [|p pre IH]; intros s; simpl.
  - split; [intros _; exists s; reflexivity|reflexivity].
  - destruct s as [|c s]; simpl.
    + split; [discriminate|]. intros [rest H]. push_app. discriminate.
    + rewrite andb_true_iff, IH. split.
      * intros [Hc [rest ->]]. apply Ascii.eqb_eq in Hc as ->. now exists rest.
      * intros [rest H]. push_app. injection H as -> ->.
        split; [apply Ascii.eqb_refl|now exists rest].
Qed.

Lemma string_app_assoc (a b c : string) : (a +:+ b) +:+ c = a +:+ b +:+ c.
Proof. induction a; push_app; congruence. Qed.

Lemma string_app_inv_head (a x y : string) : a +:+ x = a +:+ y -> x = y.
Proof. induction a; push_app; [auto|]. intros [= H]. auto. Qed.

Lemma string_app_length (a b : string) :
  String.length (a +:+ b) = String.length a + String.length b.
Proof. induction a; push_app; simpl; congruence. Qed.

Lemma beneath_neq q p : beneath q p -> p <> q.
Proof.
  unfold beneath. rewrite HasPrefix_app. intros [rest ->] H.
  apply (f_equal String.length) in H.
  rewrite !string_app_length in H. simpl in H. lia.
Qed.

Lemma beneath_trans a b c : beneath a b -> beneath b c -> beneath a c.
Proof.
  unfold beneath. rewrite !HasPrefix_app. intros [r1 ->] [r2 ->].
  exists (r1 +:+ "/" +:+ r2). now rewrite !string_app_assoc.
Qed.

Lemma beneath_Join path nm : beneath path (Join path nm).
Proof.
  unfold beneath, Join. rewrite HasPrefix_app. exists nm.
  now rewrite string_app_assoc.
Qed.

(** Two plain names that start the same text up to a separator, or up to
    its end, are the same name. *)
Lemma plain_name_split (nm nm' r r' : string) :
  has_byte "/"%char nm = false -> has_byte "/"%char nm' = false ->
  nm +:+ "/" +:+ r = nm' +:+ r' ->
  r' = "" \/ HasPrefix r' "/" = true ->
  nm = nm'.
Proof.
  revert nm'. induction nm as [|c nm IH]; intros nm' Hn Hn' Heq Hr'.
  - destruct nm' as [|c' nm']; [reflexivity|].
    push_app. injection Heq as <- _. cbn [has_byte] in Hn'. discriminate.
  - cbn [has_byte] in Hn. apply orb_false_iff in Hn as [Hc Hn].
    destruct nm' as [|c' nm'].
    + push_app. destruct Hr' as [->|Hr']; [discriminate|].
      destruct r' as [|d r']; [discriminate|]. cbn [HasPrefix] in Hr'.
      injection Heq as <- _. rewrite Hc in Hr'. discriminate.
    + cbn [has_byte] in Hn'. apply orb_false_iff in Hn' as [_ Hn'].
      push_app. injection Heq as <- Heq. f_equal. eauto.
Qed.

Lemma siblings_disjoint path nm nm' p :
  has_byte "/"%char nm = false -> has_byte "/"%char nm' = false ->
  beneath (Join path nm) p ->
  p = Join path nm' \/ beneath (Join path nm') p ->
  nm = nm'.
Proof.
  unfold beneath, Join. intros Hn Hn' H1 H2.
  apply HasPrefix_app in H1 as [r H1].
  assert (exists r', p = (path +:+ "/" +:+ nm') +:+ r' /\
                     (r' = "" \/ HasPrefix r' "/" = true)) as (r' & Heq & Hr').
  { destruct H2 as [H2|H2].
    - exists "". split; [|now left]. rewrite H2. clear.
      generalize (path +:+ "/" +:+ nm'). intros s. induction s; push_app; congruence.
    - apply HasPrefix_app in H2 as [r' H2]. exists ("/" +:+ r').
      split; [|now right]. rewrite H2. now rewrite !string_app_assoc. }
  rewrite H1 in Heq. rewrite !string_app_assoc in Heq.
  apply string_app_inv_head in Heq. push_app. injection Heq as Heq.
  exact (plain_name_split nm nm' r r' Hn Hn' Heq Hr').
Qed.

(** ** Induction over the tree *)

Lemma node_tree_ind (P : node -> Prop) :
  (forall readable bytes, P (File readable bytes)) ->
  (forall listable entries,
      Forall (fun e => P (snd e)) entries -> P (Dir listable entries)) ->
  forall n, P n.
Proof.
  intros Hfile Hdir. fix IH 1. intros [r b|l entries].
  - apply Hfile.
  - apply Hdir. induction entries as [|[nm child] rest IHrest].
    + constructor.
    + constructor; [apply IH|exact IHrest].
Qed.

(** ** Traces *)

Lemma touched_app t1 t2 : touched (t1 ++ t2) = touched t1 ++ touched t2.
Proof.
  induction t1 as [|a t1 IH]; simpl; [reflexivity|].
  destruct a; simpl; now rewrite ?IH.
Qed.

Lemma visited_touched t p : In p (visited t) -> In p (touched t).
Proof.
  induction t as [|a t IH]; simpl; [tauto|].
  destruct a; simpl; tauto.
Qed.

Lemma listed_touched t p : In p (listed t) -> In p (touched t).
Proof.
  induction t as [|a t IH]; simpl; [tauto|].
  destruct a; simpl; tauto.
Qed.

Lemma hashed_touched t p : In p (hashed t) -> In p (touched t).
Proof.
  induction t as [|a t IH]; simpl; [tauto|].
  destruct a; simpl; tauto.
Qed.

Lemma and_then_touched (r k : run) p :
  In p (touched (fst (r ;;; k))) ->
  In p (touched (fst r)) \/ In p (touched (fst k)).
Proof.
  destruct r as [t [e|]]; simpl; [auto|].
  rewrite touched_app, in_app_iff. auto.
Qed.

Lemma find_entry_In name entries n : find_entry name entries = Some n -> In (name, n) entries.
Proof.
  induction entries as [|[nm c] rest IH]; simpl; [discriminate|].
  destruct (String.eqb_spec nm name) as [->|Hne].
  - intros [= ->]. now left.
  - intros H. right. auto.
Qed.

Lemma and_then_act t (k : run) : act t ;;; k = (t ++ fst k, snd k).
Proof. reflexivity. Qed.

(** ** The walk *)

Section Walk.
Variable titles : Catalog.
Variable guiEnabled : bool.
Variable sha1 : string -> string.

Lemma report_touched e : touched (Fileparse.report guiEnabled e) = [].
Proof. unfold Fileparse.report. now destruct guiEnabled. Qed.

Lemma logOutput_touched e : touched (Fileparse.logOutput guiEnabled e) = [].
Proof. unfold Fileparse.logOutput. now destruct guiEnabled. Qed.

Lemma dlcBody_touched subDirDLC titleData directory name n p :
  In p (touched (fst (Fileparse.dlcBody guiEnabled subDirDLC titleData directory
                        (name, n)))) ->
  p = Join subDirDLC name.
Proof.
  destruct n as [r b|[] contents]; cbn [Fileparse.dlcBody IsDir negb ReadDir].
  - intros [].
  - rewrite and_then_act. cbn [fst app touched].
    repeat match goal with |- context [if ?b then _ else _] => destruct b end;
      cbn [fst act touched]; rewrite ?report_touched; intros [<-|[]]; reflexivity.
  - intros [<-|[]]. reflexivity.
Qed.

Lemma dlcLoop_touched subDirDLC titleData directory subContents p :
  In p (touched (fst (Fileparse.dlcLoop guiEnabled subDirDLC titleData directory
                        subContents))) ->
  exists name n, In (name, n) subContents /\ p = Join subDirDLC name.
Proof.
  induction subContents as [|[name n] rest IH]; cbn [Fileparse.dlcLoop]; [intros []|].
  intros H. apply and_then_touched in H as [H|H].
  - apply dlcBody_touched in H. exists name, n. split; [now left|exact H].
  - destruct (IH H) as (nm & c & Hin & Hp). exists nm, c. split; [now right|exact Hp].
Qed.

Lemma processDLCContent_touched subDirDLC listable subContents titleData titleID directory p :
  In p (touched (fst (Fileparse.processDLCContent guiEnabled subDirDLC
                        (Dir listable subContents) titleData titleID directory))) ->
  p = subDirDLC \/
  exists name n, In (name, n) subContents /\ p = Join subDirDLC name.
Proof.
  unfold Fileparse.processDLCContent. destruct listable; cbn [ReadDir].
  - rewrite and_then_act. cbn [fst app touched]. intros [<-|H]; [now left|].
    right. exact (dlcLoop_touched _ _ _ _ _ H).
  - intros [<-|[]]. now left.
Qed.

Lemma reportKnown_touched titleData titleID directory name filePath fileHash :
  touched (Fileparse.reportKnown guiEnabled titleData titleID directory name
             filePath fileHash) = [].
Proof. unfold Fileparse.reportKnown. now destruct guiEnabled. Qed.

Lemma reportUnknown_touched titleData titleID directory filePath fileHash :
  touched (Fileparse.reportUnknown guiEnabled titleData titleID directory
             filePath fileHash) = [].
Proof. unfold Fileparse.reportUnknown. now destruct guiEnabled. Qed.

Lemma scanKnown_touched titleData titleID directory filePath fileHash known found :
  touched (fst (Fileparse.scanKnown guiEnabled titleData titleID directory
                  filePath fileHash known found)) = [].
Proof.
  induction known as [|m rest IH]; simpl; [reflexivity|].
  destruct (range_lookup m fileHash); simpl; [apply reportKnown_touched|].
  destruct found; [reflexivity|exact IH].
Qed.

Lemma updBody_touched subDirUpdates titleData titleID directory name n found p :
  In p (touched (fst (Fileparse.updBody guiEnabled sha1 subDirUpdates titleData
                        titleID directory (name, n) found))) ->
  p = Join subDirUpdates name.
Proof.
  unfold Fileparse.updBody.
  destruct (negb _); [intros []|].
  destruct (Fileparse.getSHA1Hash sha1 _ n) as [h|err].
  - pose proof (scanKnown_touched titleData titleID directory
                  (Join subDirUpdates name) h (TitleUpdatesKnown titleData) found) as H.
    destruct (Fileparse.scanKnown _ _ _ _ _ _ _ _) as [t fnd]. cbn [fst] in H.
    destruct fnd; cbn [negb fst touched];
      rewrite ?touched_app, ?H, ?reportUnknown_touched; intros [<-|[]]; reflexivity.
  - cbn [fst touched]. rewrite report_touched. intros [<-|[]]. reflexivity.
Qed.

Lemma updLoop_touched subDirUpdates titleData titleID directory files found p :
  In p (touched (Fileparse.updLoop guiEnabled sha1 subDirUpdates titleData titleID
                   directory files found)) ->
  exists name n, In (name, n) files /\ p = Join subDirUpdates name.
Proof.
  revert found. induction files as [|[name n] rest IH]; intros found;
    cbn [Fileparse.updLoop]; [intros []|].
  pose proof (updBody_touched subDirUpdates titleData titleID directory name n found p) as Hb.
  destruct (Fileparse.updBody _ _ _ _ _ _ _ _) as [t fnd]. cbn [fst] in Hb.
  rewrite touched_app, in_app_iff. intros [H|H].
  - exists name, n. split; [now left|exact (Hb H)].
  - destruct (IH _ H) as (nm & c & Hin & Hp). exists nm, c. split; [now right|exact Hp].
Qed.

Lemma processUpdates_touched subDirUpdates listable files titleData titleID directory p :
  In p (touched (fst (Fileparse.processUpdates guiEnabled sha1 subDirUpdates
                        (Dir listable files) titleData titleID directory))) ->
  p = subDirUpdates \/
  exists name n, In (name, n) files /\ p = Join subDirUpdates name.
Proof.
  unfold Fileparse.processUpdates. destruct listable; cbn [ReadDir].
  - cbn [act fst touched]. intros [<-|H]; [now left|].
    right. exact (updLoop_touched _ _ _ _ _ _ _ H).
  - intros [<-|[]]. now left.
Qed.

(** The walk function looks into its directory and, for a title
    directory, into [$c] and [$u] and their entries. *)
Lemma walkFn_touched directory path name n err p :
  In p (touched (fst (Fileparse.walkFn titles guiEnabled sha1 directory path name n err))) ->
  p = path \/
  exists a listable entries,
    (a = "$c" \/ a = "$u") /\
    stat_child n a = Some (Dir listable entries) /\
    (p = Join path a \/
     exists x c, In (x, c) entries /\ p = Join (Join path a) x).
Proof.
  unfold Fileparse.walkFn. destruct err as [e|]; [intros [<-|[]]; now left|].
  rewrite and_then_act. cbn [fst app touched]. intros [<-|H]; [now left|]. right.
  destruct (IsDir n && _); [|destruct H].
  apply and_then_touched in H as [H|H].
  { cbn [act fst] in H. destruct (titles !! ToLower name);
      [rewrite report_touched in H|]; destruct H. }
  apply and_then_touched in H as [H|H].
  { rewrite and_then_act in H. cbn [fst app touched] in H.
    destruct (stat_child n "$c") as [[r b|l es]|] eqn:E; cbn [IsDir] in H;
      try destruct H.
    exists "$c", l, es. split; [now left|]. split; [exact E|].
    destruct (titles !! ToLower name).
    - apply processDLCContent_touched in H as [->|H]; [now left|now right].
    - cbn [act fst] in H. rewrite logOutput_touched in H. destruct H. }
  apply and_then_touched in H as [H|H].
  { rewrite and_then_act in H. cbn [fst app touched] in H.
    destruct (stat_child n "$u") as [[r b|l es]|] eqn:E; cbn [IsDir] in H;
      try destruct H.
    exists "$u", l, es. split; [now right|]. split; [exact E|].
    destruct (titles !! ToLower name).
    - apply processUpdates_touched in H as [->|H]; [now left|now right].
    - cbn [act fst] in H. rewrite logOutput_touched in H. destruct H. }
  destruct (titles !! ToLower name); destruct H.
Qed.

(** The equation of [walk] at a directory. *)
Lemma walk_Dir directory path name listable entries :
  Fileparse.walk titles guiEnabled sha1 directory path name (Dir listable entries) =
  let '(t1, err1) :=
    Fileparse.walkFn titles guiEnabled sha1 directory path name (Dir listable entries)
      (if listable then None else Some (ErrIO path)) in
  if negb listable || bool_decide (err1 <> None) then
    (OpReadDir path listable :: t1, err1)
  else
    let r := Fileparse.walk_entries titles guiEnabled sha1 directory path entries in
    (OpReadDir path listable :: t1 ++ fst r, snd r).
Proof.
  cbn [Fileparse.walk].
  destruct (Fileparse.walkFn _ _ _ _ _ _ _ _) as [t1 err1].
  destruct (negb listable || bool_decide (err1 <> None)); [reflexivity|].
  cbv zeta. 
  match goal with
  | |- (_ :: _ ++ fst (?f entries), snd (?f entries)) = _ =>
      assert (forall es, f es = Fileparse.walk_entries titles guiEnabled sha1 directory path es) as ->
  end; [|reflexivity].
  induction es as [|[nm child] rest IH]; [reflexivity|].
  cbn [Fileparse.walk_entries]. rewrite <- IH. reflexivity.
Qed.

End Walk.

(** ** Unrecognized title directories *)

Section Unrecognized.
Variable titles : Catalog.
Variable guiEnabled : bool.
Variable sha1 : string -> string.

(** What the walk does at a listable directory with an 8-byte name that
    the catalog does not know. *)
Lemma walk_unrecognized directory path name entries :
  String.length name = 8 ->
  titles !! ToLower name = None ->
  Fileparse.walk titles guiEnabled sha1 directory path name (Dir true entries) =
  (OpReadDir path true :: OpVisit path ::
     OpStat (Join path "$c") ::
     (if has_subdir entries "$c"
      then Fileparse.logOutput guiEnabled (UnrecognizedDLC (Join path "$c")) else []) ++
     OpStat (Join path "$u") ::
     (if has_subdir entries "$u"
      then Fileparse.logOutput guiEnabled (UnrecognizedUpdates (Join path "$u")) else []),
   Some SkipDir).
Proof.
  intros Hlen Hnone. rewrite walk_Dir. unfold Fileparse.walkFn, has_subdir.
  rewrite Hlen, Hnone. cbn [IsDir stat_child Nat.eqb andb].
  unfold Fileparse.logOutput.
  destruct (find_entry "$c" entries) as [[r b|l es]|];
    destruct (find_entry "$u" entries) as [[r' b'|l' es']|];
    destruct guiEnabled; reflexivity.
Qed.

(** C4: at a listable directory whose 8-byte name the catalog does not
    know, the walk reports one "unrecognized" finding for [$c] if that is
    an existing directory and one for [$u] if that is, and nothing else;
    it hashes no file, lists nothing but the directory itself, calls the
    walk function for no path beneath it, and answers [SkipDir]. *)
Theorem unrecognized_title_is_flagged_not_classified :
  forall directory path name entries,
    String.length name = 8 ->
    titles !! ToLower name = None ->
    let r := Fileparse.walk titles guiEnabled sha1 directory path name
               (Dir true entries) in
    emitted (fst r) =
      (if has_subdir entries "$c" then [UnrecognizedDLC (Join path "$c")] else []) ++
      (if has_subdir entries "$u" then [UnrecognizedUpdates (Join path "$u")] else []) /\
    hashed (fst r) = [] /\
    listed (fst r) = [path] /\
    visited (fst r) = [path] /\
    snd r = Some SkipDir.
Proof.
  intros directory path name entries Hlen Hnone r. subst r.
  rewrite (walk_unrecognized directory path name entries Hlen Hnone).
  unfold Fileparse.logOutput.
  destruct (has_subdir entries "$c"), (has_subdir entries "$u"), guiEnabled;
    repeat split.
Qed.

End Unrecognized.

(** ** What the walk can reach *)

Lemma well_formed_entry listable entries nm child :
  well_formed (Dir listable entries) -> In (nm, child) entries ->
  has_byte "/"%char nm = false /\ well_formed child.
Proof.
  intros [_ Hall]. induction entries as [|[nm' c'] rest IH]; [intros []|].
  destruct Hall as (Hnm & Hc & Hrest).
  intros [[= -> ->]|Hin]; [auto|]. apply IH; assumption.
Qed.

Lemma distinct_names_same_entry (entries : list (string * node)) nm a b :
  NoDup (map fst entries) -> In (nm, a) entries -> In (nm, b) entries -> a = b.
Proof.
  induction entries as [|[nm' c] rest IH]; simpl; [tauto|].
  intros Hnd. apply NoDup_cons in Hnd as [Hnotin Hnd].
  rewrite list_elem_of_In in Hnotin.
  intros [[= -> ->]|Ha] [[= <-]|Hb]; auto.
  - exfalso. apply Hnotin. apply (in_map fst) in Hb. exact Hb.
  - exfalso. apply Hnotin. apply (in_map fst) in Ha. exact Ha.
Qed.

Lemma lives_at_within path name n q qn d :
  lives_at path name n q qn d -> q = path \/ beneath path q.
Proof.
  induction 1 as [|path name l entries nm child q qn d Hin Hl IH]; [now left|].
  right. destruct IH as [->|IH].
  - apply beneath_Join.
  - eapply beneath_trans; [apply beneath_Join|exact IH].
Qed.

Lemma beneath_within a b p : a = b \/ beneath b a -> beneath a p -> beneath b p.
Proof. intros [->|H] Hp; [exact Hp|]. eapply beneath_trans; eauto. Qed.

Section Reach.
Variable titles : Catalog.
Variable guiEnabled : bool.
Variable sha1 : string -> string.

Lemma walk_entries_touched_inv directory path entries p :
  In p (touched (fst (Fileparse.walk_entries titles guiEnabled sha1 directory path entries))) ->
  exists nm child,
    In (nm, child) entries /\
    In p (touched (fst (Fileparse.walk titles guiEnabled sha1 directory
                          (Join path nm) nm child))).
Proof.
  induction entries as [|[nm child] rest IH]; [intros []|].
  cbn [Fileparse.walk_entries].
  destruct (Fileparse.walk _ _ _ _ _ nm child) as [t [e|]] eqn:E.
  - destruct (IsDir child && bool_decide (e = SkipDir)).
    + rewrite and_then_act. cbn [fst]. rewrite touched_app, in_app_iff.
      intros [H|H].
      * exists nm, child. rewrite E. split; [now left|exact H].
      * destruct (IH H) as (nm' & c' & Hin & Hp). exists nm', c'. split; [now right|exact Hp].
    + cbn [fst]. intros H. exists nm, child. rewrite E. split; [now left|exact H].
  - rewrite and_then_act. cbn [fst]. rewrite touched_app, in_app_iff.
    intros [H|H].
    + exists nm, child. rewrite E. split; [now left|exact H].
    + destruct (IH H) as (nm' & c' & Hin & Hp). exists nm', c'. split; [now right|exact Hp].
Qed.

Lemma walk_touched_cases directory path name listable entries p :
  In p (touched (fst (Fileparse.walk titles guiEnabled sha1 directory path name
                        (Dir listable entries)))) ->
  p = path \/
  In p (touched (fst (Fileparse.walkFn titles guiEnabled sha1 directory path name
                        (Dir listable entries)
                        (if listable then None else Some (ErrIO path))))) \/
  In p (touched (fst (Fileparse.walk_entries titles guiEnabled sha1 directory path entries))).
Proof.
  rewrite walk_Dir.
  destruct (Fileparse.walkFn _ _ _ _ _ _ _ _) as [t1 err1]. cbn [fst].
  destruct (negb listable || bool_decide (err1 <> None)); cbn [fst touched].
  - intros [<-|H]; auto.
  - rewrite touched_app. intros [<-|H]; [now left|].
    apply in_app_iff in H as [H|H]; auto.
Qed.

Lemma walkFn_touched_within directory path name n err p :
  In p (touched (fst (Fileparse.walkFn titles guiEnabled sha1 directory path name n err))) ->
  p = path \/ beneath path p.
Proof.
  intros H. apply walkFn_touched in H as [->|(a & l & es & _ & _ & [->|(x & c & _ & ->)])].
  - now left.
  - right. apply beneath_Join.
  - right. eapply beneath_trans; apply beneath_Join.
Qed.

(** The paths the scan looks into from a node are the path of the node
    and paths beneath it. *)
Lemma walk_touched_within directory n :
  forall path name p,
    In p (touched (fst (Fileparse.walk titles guiEnabled sha1 directory path name n))) ->
    p = path \/ beneath path p.
Proof.
  induction n as [r b|listable entries IH] using node_tree_ind; intros path name p.
  - cbn [Fileparse.walk]. apply walkFn_touched_within.
  - intros H. apply walk_touched_cases in H as [H|[H|H]]; [now left| |].
    + exact (walkFn_touched_within _ _ _ _ _ _ H).
    + right. apply walk_entries_touched_inv in H as (nm & child & Hin & Hp).
      rewrite Forall_forall in IH.
      specialize (IH (nm, child) (proj2 (list_elem_of_In _ _) Hin) _ _ _ Hp).
      destruct IH as [->|IH]; [apply beneath_Join|].
      eapply beneath_trans; [apply beneath_Join|exact IH].
Qed.

(** At a directory with an 8-byte name that the catalog does not know the
    scan looks into the directory itself only, whether or not it can be
    listed. *)
Lemma walk_unrecognized_touched directory path name listable entries p :
  String.length name = 8 ->
  titles !! ToLower name = None ->
  In p (touched (fst (Fileparse.walk titles guiEnabled sha1 directory path name
                        (Dir listable entries)))) ->
  p = path.
Proof.
  intros Hlen Hnone. destruct listable.
  - rewrite walk_unrecognized by assumption. cbn [fst touched].
    unfold Fileparse.logOutput. rewrite touched_app.
    destruct (has_subdir entries "$c"), (has_subdir entries "$u"), guiEnabled;
      cbn [app touched]; intros [<-|[<-|[]]]; reflexivity.
  - rewrite walk_Dir. cbn. intros [<-|[<-|[]]]; reflexivity.
Qed.

Lemma unrecognized_subtree_untouched directory path name n q qn d p :
  lives_at path name n q qn d ->
  well_formed n ->
  IsDir d = true -> String.length qn = 8 -> titles !! ToLower qn = None ->
  beneath q p ->
  ~ In p (touched (fst (Fileparse.walk titles guiEnabled sha1 directory path name n))).
Proof.
  intros Hl. induction Hl as [path name n|path name l entries nm child q qn d Hin Hl IH];
    intros Hwf Hd Hlen Hnone Hp.
  - destruct n as [r b|l entries]; [discriminate|].
    intros H. apply walk_unrecognized_touched in H; [|assumption..].
    exact (beneath_neq _ _ Hp H).
  - assert (Hq : beneath (Join path nm) p)
      by (eapply beneath_within; [apply (lives_at_within _ _ _ _ _ _ Hl)|exact Hp]).
    destruct (well_formed_entry _ _ _ _ Hwf Hin) as [Hnm Hwfc].
    pose proof Hwf as [Hnd _].
    intros H. apply walk_touched_cases in H as [->|[H|H]].
    + apply (beneath_neq path path); [|reflexivity].
      eapply beneath_trans; [apply beneath_Join|exact Hq].
    + apply walkFn_touched in H
        as [->|(a & l' & es' & Ha & Hstat & H)].
      { apply (beneath_neq path path); [|reflexivity].
        eapply beneath_trans; [apply beneath_Join|exact Hq]. }
      cbn [stat_child] in Hstat. apply find_entry_In in Hstat.
      assert (Haslash : has_byte "/"%char a = false)
        by (destruct Ha as [->| ->]; reflexivity).
      assert (nm = a) as ->.
      { eapply siblings_disjoint; [exact Hnm|exact Haslash|exact Hq|].
        destruct H as [->|(x & c & _ & ->)]; [now left|right; apply beneath_Join]. }
      destruct H as [->|(x & c & Hx & ->)]; [exact (beneath_neq _ _ Hq eq_refl)|].
      assert (child = Dir l' es') as -> by (eapply distinct_names_same_entry; eauto).
      inversion Hl as [| ? ? ? ? x' c' ? ? ? Hx' Hl']; subst.
      * destruct Ha as [->| ->]; discriminate.
      * destruct (well_formed_entry _ _ _ _ Hwfc Hx) as [Hxs _].
        destruct (well_formed_entry _ _ _ _ Hwfc Hx') as [Hxs' _].
        assert (Hq' : beneath (Join (Join path a) x') (Join (Join path a) x))
          by (eapply beneath_within; [apply (lives_at_within _ _ _ _ _ _ Hl')|exact Hp]).
        assert (x' = x) as ->
            by (eapply siblings_disjoint; [exact Hxs'|exact Hxs|exact Hq'|now left]).
        exact (beneath_neq _ _ Hq' eq_refl).
    + apply walk_entries_touched_inv in H as (nm' & child' & Hin' & Hv).
      destruct (well_formed_entry _ _ _ _ Hwf Hin') as [Hnm' _].
      pose proof (walk_touched_within _ _ _ _ _ Hv) as Hw.
      assert (nm = nm') as <- by (eapply siblings_disjoint; eauto).
      assert (child' = child) as -> by (eapply distinct_names_same_entry; eauto).
      exact (IH Hwfc Hd Hlen Hnone Hp Hv).
Qed.

End Reach.

(** ** Propagation of errors *)

Lemma failed_listings_app t1 t2 :
  failed_listings (t1 ++ t2) = failed_listings t1 ++ failed_listings t2.
Proof.
  induction t1 as [|a t1 IH]; simpl; [reflexivity|].
  destruct a as [e|e|p|p [|]|p|p]; simpl; now rewrite ?IH.
Qed.

Lemma stops_prepend t0 t err :
  failed_listings t0 = [] ->
  stops_at_failed_listing (t, err) -> stops_at_failed_listing (t0 ++ t, err).
Proof.
  unfold stops_at_failed_listing, ends_with_failed_listing. cbn [fst snd].
  intros H0. destruct err as [[|d|p]|];
    try (rewrite failed_listings_app, H0; now auto); [tauto|].
  intros (t1 & t2 & -> & H1 & H2). exists (t0 ++ t1), t2.
  rewrite failed_listings_app, H0, H1, <- app_assoc. auto.
Qed.

Lemma stops_and_then (r k : run) :
  stops_at_failed_listing r -> stops_at_failed_listing k ->
  stops_at_failed_listing (r ;;; k).
Proof.
  destruct r as [t [e|]], k as [t' e']; cbn [and_then fst snd]; [auto|].
  intros Hr Hk. apply stops_prepend; assumption.
Qed.

Lemma stops_act t : failed_listings t = [] -> stops_at_failed_listing (act t).
Proof. auto. Qed.

Lemma stops_failed_listing p t2 :
  t2 = [] \/ t2 = [OpVisit p] ->
  stops_at_failed_listing (OpReadDir p false :: t2, Some (ErrIO p)).
Proof. intros H. exists [], t2. auto. Qed.

Section Propagation.
Variable titles : Catalog.
Variable guiEnabled : bool.
Variable sha1 : string -> string.

Lemma report_failed e : failed_listings (Fileparse.report guiEnabled e) = [].
Proof. unfold Fileparse.report. now destruct guiEnabled. Qed.

Lemma logOutput_failed e : failed_listings (Fileparse.logOutput guiEnabled e) = [].
Proof. unfold Fileparse.logOutput. now destruct guiEnabled. Qed.

Lemma dlcBody_stops subDirDLC titleData directory subContent :
  stops_at_failed_listing
    (Fileparse.dlcBody guiEnabled subDirDLC titleData directory subContent).
Proof.
  destruct subContent as [name [r b|[] contents]]; cbn [Fileparse.dlcBody IsDir negb ReadDir].
  - reflexivity.
  - apply stops_and_then; [reflexivity|].
    repeat match goal with |- context [if ?b then _ else _] => destruct b end;
      apply stops_act; rewrite ?report_failed; reflexivity.
  - apply stops_failed_listing. now left.
Qed.

Lemma dlcLoop_stops subDirDLC titleData directory subContents :
  stops_at_failed_listing
    (Fileparse.dlcLoop guiEnabled subDirDLC titleData directory subContents).
Proof.
  induction subContents as [|subContent rest IH]; cbn [Fileparse.dlcLoop].
  - reflexivity.
  - apply stops_and_then; [apply dlcBody_stops|exact IH].
Qed.

Lemma processDLCContent_stops subDirDLC dlc titleData titleID directory :
  stops_at_failed_listing
    (Fileparse.processDLCContent guiEnabled subDirDLC dlc titleData titleID directory).
Proof.
  unfold Fileparse.processDLCContent.
  destruct dlc as [r b|[] subContents]; cbn [ReadDir];
    try (apply stops_failed_listing; now left).
  apply stops_and_then; [reflexivity|apply dlcLoop_stops].
Qed.

Lemma reportKnown_failed titleData titleID directory name filePath fileHash :
  failed_listings (Fileparse.reportKnown guiEnabled titleData titleID directory
                     name filePath fileHash) = [].
Proof. unfold Fileparse.reportKnown. now destruct guiEnabled. Qed.

Lemma reportUnknown_failed titleData titleID directory filePath fileHash :
  failed_listings (Fileparse.reportUnknown guiEnabled titleData titleID directory
                     filePath fileHash) = [].
Proof. unfold Fileparse.reportUnknown. now destruct guiEnabled. Qed.

Lemma scanKnown_failed titleData titleID directory filePath fileHash known found :
  failed_listings (fst (Fileparse.scanKnown guiEnabled titleData titleID directory
                          filePath fileHash known found)) = [].
Proof.
  induction known as [|m rest IH]; simpl; [reflexivity|].
  destruct (range_lookup m fileHash); simpl; [apply reportKnown_failed|].
  destruct found; [reflexivity|exact IH].
Qed.

Lemma updBody_failed subDirUpdates titleData titleID directory f found :
  failed_listings (fst (Fileparse.updBody guiEnabled sha1 subDirUpdates titleData
                          titleID directory f found)) = [].
Proof.
  destruct f as [name n]. unfold Fileparse.updBody.
  destruct (negb _); [reflexivity|].
  destruct (Fileparse.getSHA1Hash sha1 _ n) as [h|err]; simpl.
  - pose proof (scanKnown_failed titleData titleID directory
                  (Join subDirUpdates name) h (TitleUpdatesKnown titleData) found) as H.
    destruct (Fileparse.scanKnown _ _ _ _ _ _ _ _) as [t fnd]. simpl in H.
    destruct fnd; simpl;
      rewrite ?failed_listings_app, ?H, ?reportUnknown_failed; reflexivity.
  - apply report_failed.
Qed.

Lemma updLoop_failed subDirUpdates titleData titleID directory files found :
  failed_listings (Fileparse.updLoop guiEnabled sha1 subDirUpdates titleData titleID
                     directory files found) = [].
Proof.
  revert found. induction files as [|f rest IH]; intros found; simpl; [reflexivity|].
  pose proof (updBody_failed subDirUpdates titleData titleID directory f found) as H.
  destruct (Fileparse.updBody _ _ _ _ _ _ _ _) as [t fnd]. simpl in H.
  now rewrite failed_listings_app, H, IH.
Qed.

Lemma processUpdates_stops subDirUpdates upd titleData titleID directory :
  stops_at_failed_listing
    (Fileparse.processUpdates guiEnabled sha1 subDirUpdates upd titleData titleID
       directory).
Proof.
  unfold Fileparse.processUpdates.
  destruct upd as [r b|[] files]; cbn [ReadDir];
    try (apply stops_failed_listing; now left).
  apply stops_act. cbn [failed_listings]. apply updLoop_failed.
Qed.

Lemma walkFn_stops directory path name n :
  stops_at_failed_listing
    (Fileparse.walkFn titles guiEnabled sha1 directory path name n None).
Proof.
  unfold Fileparse.walkFn.
  apply stops_and_then; [reflexivity|].
  destruct (IsDir n && _); [|reflexivity].
  destruct (titles !! ToLower name) as [titleData|];
    repeat apply stops_and_then; try reflexivity;
    try (apply stops_act; apply report_failed).
  - destruct (stat_child n "$c") as [sub|]; [|reflexivity].
    destruct (IsDir sub); [apply processDLCContent_stops|reflexivity].
  - destruct (stat_child n "$u") as [sub|]; [|reflexivity].
    destruct (IsDir sub); [apply processUpdates_stops|reflexivity].
  - destruct (stat_child n "$c") as [sub|]; [|reflexivity].
    destruct (IsDir sub); [apply stops_act, logOutput_failed|reflexivity].
  - destruct (stat_child n "$u") as [sub|]; [|reflexivity].
    destruct (IsDir sub); [apply stops_act, logOutput_failed|reflexivity].
Qed.

Lemma walk_entries_stops directory path entries :
  Forall (fun e => forall path name,
              stops_at_failed_listing
                (Fileparse.walk titles guiEnabled sha1 directory path name (snd e)))
         entries ->
  stops_at_failed_listing
    (Fileparse.walk_entries titles guiEnabled sha1 directory path entries).
Proof.
  induction 1 as [|[nm child] rest Hc Hrest IH]; [reflexivity|].
  cbn [Fileparse.walk_entries]. cbn [snd] in Hc.
  specialize (Hc (Join path nm) nm).
  destruct (Fileparse.walk _ _ _ _ _ nm child) as [t [e|]].
  - destruct (IsDir child && bool_decide (e = SkipDir)) eqn:E; [|exact Hc].
    apply andb_true_iff in E as [_ E]. apply bool_decide_eq_true in E as ->.
    apply stops_and_then; [exact Hc|exact IH].
  - apply stops_and_then; [exact Hc|exact IH].
Qed.

Lemma walk_stops directory n :
  forall path name,
    stops_at_failed_listing
      (Fileparse.walk titles guiEnabled sha1 directory path name n).
Proof.
  induction n as [r b|listable entries IH] using node_tree_ind; intros path name.
  - cbn [Fileparse.walk]. apply walkFn_stops.
  - rewrite walk_Dir. destruct listable.
    + pose proof (walkFn_stops directory path name (Dir true entries)) as Hfn.
      destruct (Fileparse.walkFn _ _ _ _ _ _ _ _) as [t1 err1].
      destruct (negb true || bool_decide (err1 <> None)) eqn:E.
      * apply (stops_prepend [OpReadDir path true]); [reflexivity|exact Hfn].
      * cbn [negb orb] in E. apply bool_decide_eq_false in E.
        destruct err1 as [e|]; [exfalso; apply E; discriminate|].
        apply (stops_prepend [OpReadDir path true]); [reflexivity|].
        pose proof (walk_entries_stops directory path entries IH) as Hes.
        destruct (Fileparse.walk_entries _ _ _ _ _ _) as [t2 err2].
        apply stops_prepend; [exact Hfn|exact Hes].
    + apply stops_failed_listing. now right.
Qed.

End Propagation.

Lemma ends_with_failed_listing_only p t :
  ends_with_failed_listing p t -> failed_listings t = [p].
Proof.
  intros (t1 & t2 & -> & H1 & H2).
  rewrite failed_listings_app, H1. cbn [failed_listings app].
  destruct H2 as [->| ->]; reflexivity.
Qed.

Section Pruning.
Variable titles : Catalog.
Variable guiEnabled : bool.
Variable sha1 : string -> string.

(** C10: for a directory with an 8-byte name that the catalog does not
    know, the walk function answers [filepath.SkipDir] whatever the
    directory holds, and reports nothing at all when the directory holds
    neither a [$c] nor a [$u] directory; and in a scan of a well-formed
    tree, wherever in the tree such a directory lives, no path strictly
    beneath it is visited by the walk function, listed or hashed. *)
Theorem unrecognized_title_is_pruned_unconditionally :
  forall directory,
    (forall path name listable entries,
        String.length name = 8 ->
        titles !! ToLower name = None ->
        let r := Fileparse.walkFn titles guiEnabled sha1 directory path name
                   (Dir listable entries) None in
        snd r = Some SkipDir /\
        (has_subdir entries "$c" = false -> has_subdir entries "$u" = false ->
         emitted (fst r) = [])) /\
    (forall root q qn d p,
        well_formed root ->
        lives_at directory (Base directory) root q qn d ->
        IsDir d = true ->
        String.length qn = 8 ->
        titles !! ToLower qn = None ->
        beneath q p ->
        let t := fst (Fileparse.checkForContent titles guiEnabled sha1 directory
                        (Some root)) in
        ~ In p (visited t) /\ ~ In p (listed t) /\ ~ In p (hashed t)).
Proof.
  intros directory. split.
  - intros path name listable entries Hlen Hnone r. subst r.
    unfold Fileparse.walkFn, has_subdir, Fileparse.logOutput.
    rewrite Hlen, Hnone. cbn [IsDir stat_child Nat.eqb andb].
    destruct (find_entry "$c" entries) as [[r b|l es]|];
      destruct (find_entry "$u" entries) as [[r' b'|l' es']|];
      destruct guiEnabled; split; try reflexivity; discriminate.
  - intros root q qn d p Hwf Hl Hd Hlen Hnone Hp t. subst t.
    unfold Fileparse.checkForContent.
    pose proof (unrecognized_subtree_untouched titles guiEnabled sha1 directory
                  _ _ _ _ _ _ _ Hl Hwf Hd Hlen Hnone Hp) as H.
    destruct (Fileparse.walk _ _ _ _ _ _ _) as [t err]. cbn [fst] in *.
    repeat split; intros Hin; apply H.
    + now apply visited_touched.
    + now apply listed_touched.
    + now apply hashed_touched.
Qed.

End Pruning.

(** ** The command-line copy of the update classifier *)

Section CommandLineCopy.
Variable sha1 : string -> string.

Lemma part000_scanKnown_first titleData titleID directory filePath fileHash known :
  Part000.scanKnown titleData titleID directory filePath fileHash known false =
  match first_known known fileHash with
  | Some name => Part000.reportKnown titleData titleID directory name filePath fileHash
  | None => ([], Part000.Flag false)
  end.
Proof.
  induction known as [|m rest IH]; cbn [Part000.scanKnown first_known]; [reflexivity|].
  rewrite range_lookup_spec. destruct (m !! fileHash); [reflexivity|exact IH].
Qed.

Lemma slice_from_short n s : String.length s < n -> slice_from n s = None.
Proof.
  intros H. unfold slice_from.
  destruct (Nat.leb_spec n (String.length s)); [lia|reflexivity].
Qed.

Lemma slice_from_long n s : n <= String.length s -> slice_from n s = Some (drop_bytes n s).
Proof.
  intros H. unfold slice_from.
  destruct (Nat.leb_spec n (String.length s)); [reflexivity|lia].
Qed.

(** A file that is no known update lets the loop go on, flag unset. *)
Lemma part000_updBody_other subDirUpdates titleData titleID directory f :
  known_update sha1 titleData f = None ->
  snd (Part000.updBody sha1 subDirUpdates titleData titleID directory f false)
  = Part000.Continue false.
Proof.
  destruct f as [name n]. cbn [known_update Part000.updBody].
  destruct (String.eqb (Ext name) ".xbe"); cbn [negb];
    [|destruct n as [[] ?|? ?]; reflexivity].
  destruct n as [[] bytes|l es]; cbn [Part000.getSHA1Hash]; try reflexivity.
  intros Hnone. rewrite part000_scanKnown_first, Hnone. reflexivity.
Qed.

(** A known update ends the loop: by a panic when its display name is
    shorter than 17 bytes, by [break] after the report otherwise. *)
Lemma part000_updBody_known subDirUpdates titleData titleID directory name n nm :
  known_update sha1 titleData (name, n) = Some nm ->
  exists bytes,
    n = File true bytes /\
    Part000.updBody sha1 subDirUpdates titleData titleID directory (name, n) false =
    if (String.length nm <? 17)%nat then
      ([OpHash (Join subDirUpdates name); Print (Header "File Info")],
       Part000.BodyPanic)
    else
      ([OpHash (Join subDirUpdates name); Print (Header "File Info");
        Print (UpdateKnown (TitleName titleData) titleID (drop_bytes 17 nm)
                 (TrimPrefix (Join subDirUpdates name) (directory +:+ "/"))
                 (sha1 bytes));
        Print Separator], Part000.Break).
Proof.
  cbn [known_update Part000.updBody].
  destruct n as [[] bytes|l es]; try discriminate.
  destruct (String.eqb (Ext name) ".xbe"); [|discriminate]. cbn [negb].
  intros Hfirst. exists bytes. split; [reflexivity|].
  cbn [Part000.getSHA1Hash]. rewrite part000_scanKnown_first, Hfirst.
  unfold Part000.reportKnown.
  destruct (Nat.ltb_spec (String.length nm) 17) as [Hlt|Hge].
  - rewrite slice_from_short by exact Hlt. reflexivity.
  - rewrite slice_from_long by exact Hge. reflexivity.
Qed.

(** C9: in the command-line copy the report of a known update prints
    [name[17:]].  At the first file of [$u] that is a known update,
    [processUpdates] panics when the display name recorded for the digest
    is shorter than 17 bytes; otherwise it reports the update under the
    name without its first 17 bytes and returns [nil].  So
    [processUpdates] returns, and does not panic, when the display name of
    every known update in [$u] has at least 17 bytes. *)
Theorem known_update_name_slice_can_panic :
  forall subDirUpdates titleData titleID directory,
    (forall before name n rest nm,
        Forall (fun f => known_update sha1 titleData f = None) before ->
        known_update sha1 titleData (name, n) = Some nm ->
        let r := Part000.processUpdates sha1 subDirUpdates
                   (Dir true (before ++ (name, n) :: rest))
                   titleData titleID directory in
        (String.length nm < 17 -> snd r = Part000.Panicked) /\
        (17 <= String.length nm ->
         snd r = Part000.Returned None /\
         exists path sha,
           In (UpdateKnown (TitleName titleData) titleID (drop_bytes 17 nm) path sha)
              (emitted (fst r)))) /\
    (forall files,
        (forall f nm, In f files -> known_update sha1 titleData f = Some nm ->
                      17 <= String.length nm) ->
        snd (Part000.processUpdates sha1 subDirUpdates (Dir true files)
               titleData titleID directory) = Part000.Returned None).
Proof.
  intros subDirUpdates titleData titleID directory. split.
  - intros before name n rest nm Hbefore Hknown r. subst r.
    unfold Part000.processUpdates. cbn [ReadDir].
    destruct (part000_updBody_known subDirUpdates titleData titleID directory
                name n nm Hknown) as (bytes & -> & Hbody).
    induction Hbefore as [|g before Hg Hbefore IH].
    + cbn [app Part000.updLoop]. rewrite Hbody.
      destruct (Nat.ltb_spec (String.length nm) 17) as [Hlt|Hge].
      * split; [reflexivity|lia].
      * split; [lia|]. intros _. split; [reflexivity|].
        eexists _, _. cbn [fst emitted]. right. left. reflexivity.
    + cbn [app Part000.updLoop].
      pose proof (part000_updBody_other subDirUpdates titleData titleID directory
                    g Hg) as Hother.
      destruct (Part000.updBody _ _ _ _ _ g false) as [t ex].
      cbn [snd] in Hother. subst ex.
      destruct (Part000.updLoop _ _ _ _ _ _ _) as [t' o].
      cbn [fst snd] in *. destruct IH as [IH1 IH2]. split; [exact IH1|].
      intros Hge. destruct (IH2 Hge) as (Ho & path & sha & Hin).
      split; [exact Ho|]. exists path, sha.
      change (OpReadDir subDirUpdates true :: t ++ t')
        with ([OpReadDir subDirUpdates true] ++ t ++ t').
      rewrite !emitted_app, !in_app_iff. right. right. exact Hin.
  - intros files Hpre. unfold Part000.processUpdates. cbn [ReadDir].
    enough (snd (Part000.updLoop sha1 subDirUpdates titleData titleID directory
                   files false) = Part000.Returned None) as H
        by (destruct (Part000.updLoop _ _ _ _ _ _ _) as [t o]; exact H).
    induction files as [|[name n] rest IH]; [reflexivity|].
    cbn [Part000.updLoop].
    destruct (known_update sha1 titleData (name, n)) as [nm|] eqn:Hk.
    + destruct (part000_updBody_known subDirUpdates titleData titleID directory
                  name n nm Hk) as (bytes & -> & Hbody).
      rewrite Hbody.
      destruct (Nat.ltb_spec (String.length nm) 17) as [Hlt|Hge]; [|reflexivity].
      specialize (Hpre _ nm (or_introl eq_refl) Hk). lia.
    + pose proof (part000_updBody_other subDirUpdates titleData titleID directory
                    _ Hk) as Hother.
      destruct (Part000.updBody _ _ _ _ _ _ false) as [t ex].
      cbn [snd] in Hother. subst ex.
      specialize (IH (fun f nm Hin => Hpre f nm (or_intror Hin))).
      destruct (Part000.updLoop _ _ _ _ _ _ _) as [t' o]. exact IH.
Qed.

End CommandLineCopy.

(** ** The update classifier of [fileparse.go] *)

Section UpdateClassifier.
Variable guiEnabled : bool.
Variable sha1 : string -> string.

Lemma scanKnown_keeps_flag titleData titleID directory filePath fileHash known :
  snd (Fileparse.scanKnown guiEnabled titleData titleID directory filePath fileHash
         known true) = true.
Proof.
  destruct known as [|m rest]; cbn [Fileparse.scanKnown]; [reflexivity|].
  destruct (range_lookup m fileHash); reflexivity.
Qed.

Lemma scanKnown_no_unknown titleData titleID directory filePath fileHash known found :
  forallb (fun e => negb (is_update_unknown e))
    (emitted (fst (Fileparse.scanKnown guiEnabled titleData titleID directory
                     filePath fileHash known found))) = true.
Proof.
  induction known as [|m rest IH]; cbn [Fileparse.scanKnown]; [reflexivity|].
  destruct (range_lookup m fileHash).
  - unfold Fileparse.reportKnown. destruct guiEnabled; reflexivity.
  - destruct found; [reflexivity|exact IH].
Qed.

Lemma updBody_stale_flag subDirUpdates titleData titleID directory f :
  let r := Fileparse.updBody guiEnabled sha1 subDirUpdates titleData titleID
             directory f true in
  snd r = true /\
  forallb (fun e => negb (is_update_unknown e)) (emitted (fst r)) = true.
Proof.
  destruct f as [name n]. cbn [Fileparse.updBody].
  destruct (negb _); [now split|].
  destruct (Fileparse.getSHA1Hash sha1 _ n) as [h|err].
  - pose proof (scanKnown_keeps_flag titleData titleID directory
                  (Join subDirUpdates name) h (TitleUpdatesKnown titleData)) as Hf.
    pose proof (scanKnown_no_unknown titleData titleID directory
                  (Join subDirUpdates name) h (TitleUpdatesKnown titleData) true) as Hn.
    destruct (Fileparse.scanKnown _ _ _ _ _ _ _ _) as [t fnd].
    cbn [fst snd] in *. subst fnd. cbn [negb fst snd emitted]. auto.
  - cbn [fst snd emitted]. rewrite emitted_report. split; [reflexivity|].
    destruct guiEnabled; reflexivity.
Qed.

(** Once [knownUpdateFound] is set, no later file of the directory is
    reported as an unknown update. *)
Lemma stale_flag_hides_unknown_updates subDirUpdates titleData titleID directory files :
  forallb (fun e => negb (is_update_unknown e))
    (emitted (Fileparse.updLoop guiEnabled sha1 subDirUpdates titleData titleID
                directory files true)) = true.
Proof.
  induction files as [|f rest IH]; cbn [Fileparse.updLoop]; [reflexivity|].
  destruct (updBody_stale_flag subDirUpdates titleData titleID directory f) as [Hf Hn].
  destruct (Fileparse.updBody _ _ _ _ _ _ _ _) as [t fnd].
  cbn [fst snd] in *. subst fnd.
  rewrite emitted_app, forallb_app, Hn, IH. reflexivity.
Qed.

Lemma scanKnown_first titleData titleID directory filePath fileHash known :
  Fileparse.scanKnown guiEnabled titleData titleID directory filePath fileHash
    known false =
  match first_known known fileHash with
  | Some name =>
      (Fileparse.reportKnown guiEnabled titleData titleID directory name filePath
         fileHash, true)
  | None => ([], false)
  end.
Proof.
  induction known as [|m rest IH]; cbn [Fileparse.scanKnown first_known]; [reflexivity|].
  rewrite range_lookup_spec. destruct (m !! fileHash); [reflexivity|exact IH].
Qed.

Lemma TrimPrefix_app (pre rest : string) : TrimPrefix (pre +:+ rest) pre = rest.
Proof.
  unfold TrimPrefix.
  rewrite (proj2 (HasPrefix_app (pre +:+ rest) pre)) by (now exists rest).
  induction pre as [|c pre IH]; [reflexivity|].
  push_app. cbn [String.length drop_bytes]. exact IH.
Qed.

(** While no update was found in the directory, a readable [.xbe] file whose digest the catalog records gets
    the known-update report, with the recorded name as it is, the digest,
    and, on the console without the GUI, the path below the scan root. *)
Lemma known_update_report_before_any_match directory rel titleData titleID name bytes nm :
  Ext name = ".xbe" ->
  first_known (TitleUpdatesKnown titleData) (sha1 bytes) = Some nm ->
  Fileparse.updBody guiEnabled sha1 (Join directory rel) titleData titleID directory
    (name, File true bytes) false =
  (OpHash (Join (Join directory rel) name) ::
     Fileparse.reportKnown guiEnabled titleData titleID directory nm
       (Join (Join directory rel) name) (sha1 bytes), true) /\
  (guiEnabled = false ->
   printed (Fileparse.reportKnown guiEnabled titleData titleID directory nm
              (Join (Join directory rel) name) (sha1 bytes)) =
   [Header "File Info";
    UpdateKnown (TitleName titleData) titleID nm (Join rel name) (sha1 bytes);
    Separator]).
Proof.
  intros Hext Hfirst. split.
  - cbn [Fileparse.updBody Fileparse.getSHA1Hash]. rewrite Hext.
    cbn [String.eqb Ascii.eqb Bool.eqb negb]. rewrite scanKnown_first, Hfirst.
    reflexivity.
  - intros ->. unfold Fileparse.reportKnown. cbn [printed app].
    unfold Join. rewrite !string_app_assoc.
    change ("/" +:+ rel +:+ "/" +:+ name) with ("/" +:+ (rel +:+ "/" +:+ name)).
    rewrite <- (string_app_assoc directory "/"), TrimPrefix_app. reflexivity.
Qed.

End UpdateClassifier.

(** Splits the membership of a report in a short list of reports and
    drops the reports of another kind. *)
Ltac pick_report H :=
  repeat (destruct H as [H|H]; [try discriminate H|]); try contradiction.

Section Sound.
Variable guiEnabled : bool.
Variable sha1 : string -> string.

Lemma reportKnown_emitted_inv titleData titleID directory name filePath fileHash
    titleName' titleID' name' path' hash' :
  In (UpdateKnown titleName' titleID' name' path' hash')
     (emitted (Fileparse.reportKnown guiEnabled titleData titleID directory name
                 filePath fileHash)) ->
  titleName' = TitleName titleData /\ titleID' = titleID /\ name' = name /\
  hash' = fileHash /\
  (path' = TrimPrefix filePath (directory +:+ "/") \/
   path' = TrimPrefix (TrimPrefix filePath (directory +:+ "/")) (directory +:+ "/")).
Proof.
  unfold Fileparse.reportKnown. destruct guiEnabled; cbn [app emitted In];
    intros H; pick_report H; injection H as <- <- <- <- <-; auto 6.
Qed.

Lemma scanKnown_emitted_inv titleData titleID directory filePath fileHash known found
    titleName' titleID' name' path' hash' :
  In (UpdateKnown titleName' titleID' name' path' hash')
     (emitted (fst (Fileparse.scanKnown guiEnabled titleData titleID directory
                      filePath fileHash known found))) ->
  titleName' = TitleName titleData /\ titleID' = titleID /\ hash' = fileHash /\
  (exists m, In m known /\ m !! fileHash = Some name') /\
  (path' = TrimPrefix filePath (directory +:+ "/") \/
   path' = TrimPrefix (TrimPrefix filePath (directory +:+ "/")) (directory +:+ "/")).
Proof.
  induction known as [|m rest IH]; cbn [Fileparse.scanKnown]; [intros []|].
  destruct (range_lookup m fileHash) as [nm|] eqn:E.
  - cbn [fst]. intros H. apply reportKnown_emitted_inv in H as (-> & -> & -> & -> & Hp).
    rewrite range_lookup_spec in E. repeat split; auto.
    exists m. split; [now left|exact E].
  - destruct found; [intros []|].
    intros H. destruct (IH H) as (-> & -> & -> & (m' & Hin & Hm) & Hp).
    repeat split; auto. exists m'. split; [now right|exact Hm].
Qed.

(** Every known-update report belongs to a readable [.xbe] file of the
    directory and carries the digest of that file, a display name that a
    map of [TitleUpdatesKnown] records for the digest, as recorded, and
    the path of the file with the root prefix trimmed, once or twice. *)
Lemma known_update_reports_sound subDirUpdates titleData titleID directory files found
    titleName' titleID' name' path' hash' :
  In (UpdateKnown titleName' titleID' name' path' hash')
     (emitted (Fileparse.updLoop guiEnabled sha1 subDirUpdates titleData titleID
                 directory files found)) ->
  titleName' = TitleName titleData /\ titleID' = titleID /\
  exists name bytes m,
    In (name, File true bytes) files /\ Ext name = ".xbe" /\
    hash' = sha1 bytes /\
    In m (TitleUpdatesKnown titleData) /\ m !! hash' = Some name' /\
    (path' = TrimPrefix (Join subDirUpdates name) (directory +:+ "/") \/
     path' = TrimPrefix (TrimPrefix (Join subDirUpdates name) (directory +:+ "/"))
               (directory +:+ "/")).
Proof.
  revert found. induction files as [|[name n] rest IH]; intros found;
    cbn [Fileparse.updLoop]; [intros []|].
  assert (Hbody :
    In (UpdateKnown titleName' titleID' name' path' hash')
       (emitted (fst (Fileparse.updBody guiEnabled sha1 subDirUpdates titleData
                        titleID directory (name, n) found))) ->
    titleName' = TitleName titleData /\ titleID' = titleID /\
    exists bytes m,
      n = File true bytes /\ Ext name = ".xbe" /\ hash' = sha1 bytes /\
      In m (TitleUpdatesKnown titleData) /\ m !! hash' = Some name' /\
      (path' = TrimPrefix (Join subDirUpdates name) (directory +:+ "/") \/
       path' = TrimPrefix (TrimPrefix (Join subDirUpdates name) (directory +:+ "/"))
                 (directory +:+ "/"))).
  { cbn [Fileparse.updBody].
    destruct (String.eqb_spec (Ext name) ".xbe") as [Hext|Hext]; cbn [negb];
      [|intros []].
    destruct n as [[] bytes|l es]; cbn [Fileparse.getSHA1Hash].
    - pose proof (scanKnown_emitted_inv titleData titleID directory
                    (Join subDirUpdates name) (sha1 bytes)
                    (TitleUpdatesKnown titleData) found
                    titleName' titleID' name' path' hash') as Hs.
      destruct (Fileparse.scanKnown _ _ _ _ _ _ _ _) as [t fnd]. cbn [fst] in Hs.
      intros H.
      assert (Ht : In (UpdateKnown titleName' titleID' name' path' hash') (emitted t)).
      { destruct fnd; cbn [negb fst emitted] in H; [exact H|].
        rewrite emitted_app, in_app_iff in H. destruct H as [H|H]; [exact H|].
        exfalso. unfold Fileparse.reportUnknown in H.
        destruct guiEnabled; cbn [app emitted In] in H; pick_report H. }
      destruct (Hs Ht) as (-> & -> & -> & (m & Hin & Hm) & Hp).
      repeat split; auto. exists bytes, m. auto 8.
    - cbn [fst emitted]. rewrite emitted_report.
      destruct guiEnabled; cbn [In]; intros H; pick_report H.
    - cbn [fst emitted]. rewrite emitted_report.
      destruct guiEnabled; cbn [In]; intros H; pick_report H. }
  destruct (Fileparse.updBody _ _ _ _ _ _ _ _) as [t fnd]. cbn [fst] in Hbody.
  rewrite emitted_app, in_app_iff. intros [H|H].
  - destruct (Hbody H) as (-> & -> & bytes & m & -> & Hext & Hh & Hin & Hm & Hp).
    repeat split; auto. exists name, bytes, m. split; [now left|auto 6].
  - destruct (IH _ H) as (-> & -> & nm & bytes & m & Hin & Hrest).
    repeat split; auto. exists nm, bytes, m. split; [now right|exact Hrest].
Qed.

End Sound.

Section UntilFirstMatch.
Variable guiEnabled : bool.
Variable sha1 : string -> string.

Lemma printed_report e : printed (Fileparse.report guiEnabled e) = [e].
Proof. unfold Fileparse.report. now destruct guiEnabled. Qed.

Lemma printed_app t1 t2 : printed (t1 ++ t2) = printed t1 ++ printed t2.
Proof.
  induction t1 as [|a t1 IH]; simpl; [reflexivity|].
  destruct a; simpl; now rewrite ?IH.
Qed.

(** In a directory without a known update every [.xbe] entry gets exactly
    one classification on the console, an unknown update or a hash error,
    and the flag stays unset. *)
Lemma unmatched_files_are_each_classified subDirUpdates titleData titleID directory files :
  Forall (fun f => known_update sha1 titleData f = None) files ->
  length (List.filter is_classification
            (printed (Fileparse.updLoop guiEnabled sha1 subDirUpdates titleData
                        titleID directory files false))) =
  length (List.filter is_xbe files).
Proof.
  induction 1 as [|[name n] rest Hf Hrest IH]; [reflexivity|].
  cbn [Fileparse.updLoop Fileparse.updBody List.filter]. unfold is_xbe at 1.
  cbn [known_update fst] in *.
  destruct (String.eqb (Ext name) ".xbe"); cbn [negb app]; [|exact IH].
  destruct n as [[] bytes|l es]; cbn [Fileparse.getSHA1Hash].
  - rewrite scanKnown_first, Hf. cbn [negb app printed].
    unfold Fileparse.reportUnknown. rewrite !printed_app.
    destruct guiEnabled; cbn [printed app List.filter is_classification length];
      now rewrite IH.
  - cbn [app printed]. rewrite printed_app, printed_report.
    cbn [app List.filter is_classification length]. now rewrite IH.
  - cbn [app printed]. rewrite printed_app, printed_report.
    cbn [app List.filter is_classification length]. now rewrite IH.
Qed.

End UntilFirstMatch.

(** C1 (refuted by the code): a [$u] directory holds [a.xbe], whose digest
    the catalog records, and then [b.xbe], whose digest it does not.  Both
    files are hashed, but [fileparse.go] reports the first only: the flag
    [knownUpdateFound] stays set and hides the unknown update.  The
    command-line copy leaves the loop after [a.xbe] and does not even hash
    [b.xbe]. *)
Theorem file_after_known_update_gets_no_report :
  (let r := Fileparse.processUpdates false Demo.sha1 "dump/4d530064/$u"
              Demo.knownThenUnknown Demo.gameA "4d530064" "dump" in
   hashed (fst r) = ["dump/4d530064/$u/a.xbe"; "dump/4d530064/$u/b.xbe"] /\
   emitted (fst r) =
     [Header "File Info";
      UpdateKnown "Game A" "4d530064" "Update 1.0" "4d530064/$u/a.xbe"
        "a9993e364706816aba3e25717850c26c9cd0d89d";
      Separator] /\
   length (List.filter is_classification (emitted (fst r))) = 1 /\
   snd r = None) /\
  (let r := Part000.processUpdates Demo.sha1 "dump/4d530064/$u"
              Demo.knownThenUnknown Demo.gameA_prefixed "4d530064" "dump" in
   hashed (fst r) = ["dump/4d530064/$u/a.xbe"] /\
   emitted (fst r) =
     [Header "File Info";
      UpdateKnown "Game A" "4d530064" "Update 1.0" "4d530064/$u/a.xbe"
        "a9993e364706816aba3e25717850c26c9cd0d89d";
      Separator] /\
   snd r = Part000.Returned None).
Proof. vm_compute. repeat split. Qed.

(** C2 (refuted by the code): a [$u] directory holds [a.xbe] and [c.xbe];
    the digest of each is a key of [TitleUpdatesKnown], of the first map
    and of the second.  [fileparse.go] hashes both and reports [a.xbe]
    only: with [knownUpdateFound] still set, the search for [c.xbe] stops
    after the first map, and no known-update report carries the digest of
    [c.xbe]. *)
Theorem known_update_in_later_map_gets_no_report :
  let r := Fileparse.processUpdates false Demo.sha1 "dump/4d530064/$u"
             Demo.twoKnown Demo.gameA "4d530064" "dump" in
  first_known (TitleUpdatesKnown Demo.gameA) (Demo.sha1 "a") = Some "Update 1.1" /\
  hashed (fst r) = ["dump/4d530064/$u/a.xbe"; "dump/4d530064/$u/c.xbe"] /\
  emitted (fst r) =
    [Header "File Info";
     UpdateKnown "Game A" "4d530064" "Update 1.0" "4d530064/$u/a.xbe"
       "a9993e364706816aba3e25717850c26c9cd0d89d";
     Separator] /\
  snd r = None.
Proof. vm_compute. repeat split. Qed.

(** A file that cannot be hashed is reported and the files after it are
    classified as if it were not there. *)
Example hash_error_is_local :
  emitted (fst (Fileparse.processUpdates false Demo.sha1 "dump/4d530064/$u"
                  Demo.unreadableBetween Demo.gameA "4d530064" "dump")) =
  [Header "File Info";
   UpdateUnknown "Game A" "4d530064" "4d530064/$u/0.xbe"
     "da39a3ee5e6b4b0d3255bfef95601890afd80709";
   HashError "1.xbe" (ErrIO "dump/4d530064/$u/1.xbe");
   Header "File Info";
   UpdateKnown "Game A" "4d530064" "Update 1.0" "4d530064/$u/2.xbe"
     "a9993e364706816aba3e25717850c26c9cd0d89d";
   Separator].
Proof. reflexivity. Qed.

(** With the GUI switched on, the console line of a known update loses the
    root prefix twice: below [dump/dump] it names a path that does not
    exist below the scan root. *)
Example console_path_trimmed_twice :
  let t := fst (Fileparse.checkForContent Demo.catalog true Demo.sha1 "dump"
                  (Some Demo.dumpNested)) in
  In (UpdateKnown "Game A" "4d530064" "Update 1.0" "dump/4d530064/$u/a.xbe"
        "a9993e364706816aba3e25717850c26c9cd0d89d") (gui_added t) /\
  In (UpdateKnown "Game A" "4d530064" "Update 1.0" "4d530064/$u/a.xbe"
        "a9993e364706816aba3e25717850c26c9cd0d89d") (printed t).
Proof. vm_compute. split; [right; right; left|right; right; left]; reflexivity. Qed.

(** C3 (refuted by the code): scenario 3 of the design document.  The
    report of the unknown content package carries the path with the scan
    root in front: the root prefix is trimmed only after the unknown
    branch has printed and left the iteration.  The unarchived package of
    the same directory is reported with the trimmed path. *)
Theorem content_unknown_keeps_root_prefix :
  emitted (fst (Fileparse.checkForContent Demo.catalog false Demo.sha1 "dump"
                  (Some Demo.dumpWeird))) =
    [Header "Game A"; ContentUnknown "dump/4d530064/$c/weird9999"] /\
  HasPrefix "dump/4d530064/$c/weird9999" "dump/" = true /\
  emitted (fst (Fileparse.processDLCContent false "dump/4d530064/$c" Demo.dlcDir
                  Demo.gameA "4d530064" "dump")) =
    [ContentUnarchived "Game A" "4d530064/$c/dlc0001";
     ContentArchived "ArchiveSet7";
     ContentUnknown "dump/4d530064/$c/weird9999"].
Proof. vm_compute. repeat split. Qed.

(** ** The statements at the demonstration dump *)

Lemma unrecognized_title_is_flagged_not_classified_witness :
  let r := Fileparse.walk Demo.catalog false Demo.sha1 "dump" "dump/zzzzzzzz"
             "zzzzzzzz" (Dir true Demo.zzEntries) in
  emitted (fst r) = [UnrecognizedUpdates "dump/zzzzzzzz/$u"] /\
  hashed (fst r) = [] /\
  visited (fst r) = ["dump/zzzzzzzz"] /\
  snd r = Some SkipDir.
Proof.
  destruct (unrecognized_title_is_flagged_not_classified Demo.catalog false
              Demo.sha1 "dump" "dump/zzzzzzzz" "zzzzzzzz" Demo.zzEntries
              eq_refl eq_refl) as (He & Hh & _ & Hv & Hr).
  repeat split; assumption.
Defined.

Lemma known_update_name_slice_can_panic_witness :
  snd (Part000.processUpdates Demo.sha1 "dump/4d530064/$u" Demo.knownThenUnknown
         Demo.gameA "4d530064" "dump")
  = Part000.Panicked /\
  snd (Part000.processUpdates Demo.sha1 "dump/4d530064/$u" Demo.twoKnown
         Demo.gameA_prefixed "4d530064" "dump")
  = Part000.Returned None.
Proof.
  destruct (known_update_name_slice_can_panic Demo.sha1 "dump/4d530064/$u"
              Demo.gameA "4d530064" "dump") as [Hpanic _].
  destruct (known_update_name_slice_can_panic Demo.sha1 "dump/4d530064/$u"
              Demo.gameA_prefixed "4d530064" "dump") as [_ Hsafe].
  split.
  - destruct (Hpanic [] "a.xbe" (File true "abc") [ ("b.xbe", File true "") ]
                "Update 1.0") as [H _]; [constructor|reflexivity|].
    apply H. vm_compute. lia.
  - apply Hsafe.
    intros f nm [<-|[<-|[]]] Hk; vm_compute in Hk; inversion Hk; vm_compute; lia.
Defined.

Lemma unrecognized_title_is_pruned_unconditionally_witness :
  let t := fst (Fileparse.checkForContent Demo.catalog false Demo.sha1 "dump"
                  (Some Demo.dumpUnrecognized)) in
  ~ In "dump/zzzzzzzz/$u/patch.xbe" (visited t) /\
  ~ In "dump/zzzzzzzz/$u/patch.xbe" (listed t) /\
  ~ In "dump/zzzzzzzz/$u/patch.xbe" (hashed t).
Proof.
  destruct (unrecognized_title_is_pruned_unconditionally Demo.catalog false
              Demo.sha1 "dump") as [_ Hglobal].
  apply (Hglobal Demo.dumpUnrecognized "dump/zzzzzzzz" "zzzzzzzz"
           (Dir true Demo.zzEntries)).
  - cbn. repeat split;
      solve [ reflexivity
            | apply (bool_decide_unpack _); vm_compute; exact I ].
  - eapply lives_below; [right; left; reflexivity|apply lives_here].
  - reflexivity.
  - reflexivity.
  - reflexivity.
  - reflexivity.
Defined.

(** * Further properties of the code *)

(** ** The content classifier: archive names and paths *)

Lemma archivedNameOf_none archived contentID :
  Forall (no_archive_name contentID) archived ->
  Fileparse.archivedNameOf archived contentID = "".
Proof.
  induction 1 as [|m rest Hm Hrest IH]; cbn [Fileparse.archivedNameOf]; [reflexivity|].
  rewrite range_lookup_spec. destruct Hm as [-> | ->]; exact IH.
Qed.


Section ContentReports.
Variable guiEnabled : bool.


(** X2: when the scan root is written cleanly (plain elements, single
    separators, none at the end), a content package with an ASCII name
    whose lower-case form is an element of [ContentIDs] and for which no
    map of [Archived] records a non-empty name (an archive entry with the
    empty name does not count) is reported as unarchived, under the title
    name and the path of the package below the scan root. *)
Theorem unarchived_content_reports_relative_path :
  forall directory rel titleData name contents,
    is_clean directory = true ->
    clean_relative rel = true ->
    entry_name name = true ->
    is_ascii name = true ->
    Fileparse.hasContentMetaXbx contents = true ->
    In (ToLower name) (ContentIDs titleData) ->
    Forall (no_archive_name (ToLower name)) (Archived titleData) ->
    Fileparse.dlcBody guiEnabled (Join directory rel) titleData directory
      (name, Dir true contents) =
    (OpReadDir (Join (Join directory rel) name) true ::
       Fileparse.report guiEnabled
         (ContentUnarchived (TitleName titleData) (Join rel name)), None).
Proof.
  intros directory rel titleData name contents _ _ _ _ Hq Hin Hnone.
  cbn [Fileparse.dlcBody IsDir negb ReadDir]. rewrite Hq.
  rewrite (proj2 (contains_In _ _) Hin), (archivedNameOf_none _ _ Hnone).
  cbn [String.eqb negb].
  replace (TrimPrefix (Join (Join directory rel) name) (directory +:+ "/"))
    with (Join rel name); [reflexivity|].
  unfold Join. rewrite !string_app_assoc.
  change ("/" +:+ rel +:+ "/" +:+ name) with ("/" +:+ (rel +:+ "/" +:+ name)).
  now rewrite <- (string_app_assoc directory "/"), TrimPrefix_app.
Qed.

Lemma dlcBody_listable subDirDLC titleData directory subContent :
  listable_entry subContent = true ->
  snd (Fileparse.dlcBody guiEnabled subDirDLC titleData directory subContent) = None /\
  length (printed (fst (Fileparse.dlcBody guiEnabled subDirDLC titleData directory
                          subContent))) =
  if qualifies subContent then 1 else 0.
Proof.
  destruct subContent as [name [r b|[] contents]]; unfold listable_entry, qualifies;
    cbn [snd fst Fileparse.dlcBody IsDir negb ReadDir]; try discriminate; intros _.
  - split; reflexivity.
  - destruct (Fileparse.hasContentMetaXbx contents); [|split; reflexivity].
    cbn [negb].
    repeat match goal with |- context [if ?b then _ else _] => destruct b end;
      cbn [and_then act fst snd app printed]; rewrite printed_report; split; reflexivity.
Qed.

(** X3: when every subdirectory of [$c] can be listed, [processDLCContent]
    returns [nil] and prints exactly one report for each content package
    of [$c]; files in [$c] and subdirectories without a [contentmeta.xbx]
    file add nothing. *)
Theorem one_report_per_content_package :
  forall subDirDLC subContents titleData titleID directory,
    forallb listable_entry subContents = true ->
    let r := Fileparse.processDLCContent guiEnabled subDirDLC (Dir true subContents)
               titleData titleID directory in
    snd r = None /\
    length (printed (fst r)) = length (List.filter qualifies subContents).
Proof.
  intros subDirDLC subContents titleData titleID directory Hall r. subst r.
  unfold Fileparse.processDLCContent. cbn [ReadDir]. rewrite and_then_act.
  cbn [fst snd app printed].
  induction subContents as [|subContent rest IH]; [split; reflexivity|].
  cbn [forallb] in Hall. apply andb_true_iff in Hall as [Hs Hrest].
  specialize (IH Hrest). destruct IH as [IH1 IH2].
  destruct (dlcBody_listable subDirDLC titleData directory subContent Hs) as [Hb1 Hb2].
  cbn [Fileparse.dlcLoop List.filter].
  destruct (Fileparse.dlcBody _ _ _ _ subContent) as [t e]. cbn [fst snd] in *.
  subst e. cbn [and_then fst snd]. rewrite printed_app, length_app, Hb2, IH2.
  split; [exact IH1|]. destruct (qualifies subContent); reflexivity.
Qed.

(** X4: the first subdirectory of [$c] that cannot be listed ends
    [processDLCContent]: it returns the error of that listing, right after
    what it did for the entries before, and does not look at the entries
    after it. *)
Theorem unlistable_content_directory_aborts :
  forall subDirDLC before name entries rest titleData titleID directory,
    forallb listable_entry before = true ->
    Fileparse.processDLCContent guiEnabled subDirDLC
      (Dir true (before ++ (name, Dir false entries) :: rest))
      titleData titleID directory =
    (fst (Fileparse.processDLCContent guiEnabled subDirDLC (Dir true before)
            titleData titleID directory) ++
       [OpReadDir (Join subDirDLC name) false],
     Some (ErrIO (Join subDirDLC name))).
Proof.
  intros subDirDLC before name entries rest titleData titleID directory Hall.
  unfold Fileparse.processDLCContent. cbn [ReadDir]. rewrite !and_then_act.
  cbn [fst snd].
  enough (Fileparse.dlcLoop guiEnabled subDirDLC titleData directory
            (before ++ (name, Dir false entries) :: rest) =
          (fst (Fileparse.dlcLoop guiEnabled subDirDLC titleData directory before)
             ++ [OpReadDir (Join subDirDLC name) false],
           Some (ErrIO (Join subDirDLC name)))) as -> by reflexivity.
  induction before as [|subContent before' IH]; [reflexivity|].
  cbn [forallb] in Hall. apply andb_true_iff in Hall as [Hs Hrest].
  destruct (dlcBody_listable subDirDLC titleData directory subContent Hs) as [Hb _].
  cbn [app Fileparse.dlcLoop]. rewrite (IH Hrest).
  destruct (Fileparse.dlcBody _ _ _ _ subContent) as [t e]. cbn [snd] in Hb.
  subst e. cbn [and_then fst snd]. now rewrite app_assoc.
Qed.

(** X5: the content classifier reads the name of a package only through
    its lower-case form, but for the path it prints: two names with the
    same lower-case form get the same reports, paths left aside. *)
Theorem content_id_ignores_case :
  forall subDirDLC titleData directory name1 name2 n,
    ToLower name1 = ToLower name2 ->
    map forget_path
      (emitted (fst (Fileparse.dlcBody guiEnabled subDirDLC titleData directory
                       (name1, n)))) =
    map forget_path
      (emitted (fst (Fileparse.dlcBody guiEnabled subDirDLC titleData directory
                       (name2, n)))).
Proof.
  intros subDirDLC titleData directory name1 name2 n Hlow.
  destruct n as [r b|[] contents]; cbn [Fileparse.dlcBody IsDir negb ReadDir];
    try reflexivity.
  rewrite Hlow.
  repeat match goal with |- context [if ?b then _ else _] => destruct b end;
    cbn [and_then act fst snd app emitted]; rewrite ?emitted_report;
    destruct guiEnabled; reflexivity.
Qed.

End ContentReports.

(** ** The update classifier: candidates, hashing and reports *)

Lemma hashed_app t1 t2 : hashed (t1 ++ t2) = hashed t1 ++ hashed t2.
Proof.
  induction t1 as [|a t1 IH]; simpl; [reflexivity|].
  destruct a; simpl; now rewrite ?IH.
Qed.

Lemma last_dot_suffix_is_suffix s e :
  last_dot_suffix s = Some e -> exists stem, s = stem +:+ e.
Proof.
  revert e. induction s as [|c s IH]; intros e; cbn [last_dot_suffix]; [discriminate|].
  destruct (last_dot_suffix s) as [e'|].
  - intros [= <-]. destruct (IH e' eq_refl) as [stem ->].
    exists (String c stem). reflexivity.
  - destruct (Ascii.eqb c "." && negb (has_byte "/" s)); [|discriminate].
    intros [= <-]. exists "". reflexivity.
Qed.

Lemma last_dot_suffix_xbe stem : last_dot_suffix (stem +:+ ".xbe") = Some ".xbe".
Proof.
  induction stem as [|c stem IH]; [reflexivity|].
  push_app. cbn [last_dot_suffix]. now rewrite IH.
Qed.

(** X6: an entry of [$u] is taken for an update file exactly when its name
    ends with the four bytes [.xbe], in lower case; nothing else about the
    entry is looked at, so a directory of that name is taken too. *)
Theorem update_candidate_iff_xbe_suffix :
  forall name n,
    is_xbe (name, n) = true <-> exists stem, name = stem +:+ ".xbe".
Proof.
  intros name n. unfold is_xbe, Ext. cbn [fst]. split.
  - destruct (last_dot_suffix name) as [e|] eqn:E; [|discriminate].
    intros H. apply String.eqb_eq in H as ->.
    exact (last_dot_suffix_is_suffix _ _ E).
  - intros [stem ->]. now rewrite last_dot_suffix_xbe.
Qed.

Section UpdateReports.
Variable guiEnabled : bool.
Variable sha1 : string -> string.

Lemma report_hashed e : hashed (Fileparse.report guiEnabled e) = [].
Proof. unfold Fileparse.report. now destruct guiEnabled. Qed.

Lemma reportKnown_hashed titleData titleID directory name filePath fileHash :
  hashed (Fileparse.reportKnown guiEnabled titleData titleID directory name
            filePath fileHash) = [].
Proof. unfold Fileparse.reportKnown. now destruct guiEnabled. Qed.

Lemma reportUnknown_hashed titleData titleID directory filePath fileHash :
  hashed (Fileparse.reportUnknown guiEnabled titleData titleID directory
            filePath fileHash) = [].
Proof. unfold Fileparse.reportUnknown. now destruct guiEnabled. Qed.

Lemma scanKnown_hashed titleData titleID directory filePath fileHash known found :
  hashed (fst (Fileparse.scanKnown guiEnabled titleData titleID directory
                 filePath fileHash known found)) = [].
Proof.
  induction known as [|m rest IH]; simpl; [reflexivity|].
  destruct (range_lookup m fileHash); simpl; [apply reportKnown_hashed|].
  destruct found; [reflexivity|exact IH].
Qed.

Lemma updBody_hashed subDirUpdates titleData titleID directory f found :
  hashed (fst (Fileparse.updBody guiEnabled sha1 subDirUpdates titleData titleID
                 directory f found)) =
  if is_xbe f then [Join subDirUpdates (fst f)] else [].
Proof.
  destruct f as [name n]. unfold is_xbe. cbn [fst Fileparse.updBody].
  destruct (String.eqb (Ext name) ".xbe"); cbn [negb]; [|reflexivity].
  destruct (Fileparse.getSHA1Hash sha1 _ n) as [h|err].
  - pose proof (scanKnown_hashed titleData titleID directory
                  (Join subDirUpdates name) h (TitleUpdatesKnown titleData) found) as H.
    destruct (Fileparse.scanKnown _ _ _ _ _ _ _ _) as [t fnd]. cbn [fst] in H.
    destruct fnd; cbn [negb fst hashed];
      rewrite ?hashed_app, ?H, ?reportUnknown_hashed; reflexivity.
  - cbn [fst hashed]. now rewrite report_hashed.
Qed.

Lemma updLoop_hashed subDirUpdates titleData titleID directory files found :
  hashed (Fileparse.updLoop guiEnabled sha1 subDirUpdates titleData titleID
            directory files found) =
  map (fun f => Join subDirUpdates (fst f)) (List.filter is_xbe files).
Proof.
  revert found. induction files as [|f rest IH]; intros found; [reflexivity|].
  cbn [Fileparse.updLoop List.filter].
  pose proof (updBody_hashed subDirUpdates titleData titleID directory f found) as H.
  destruct (Fileparse.updBody _ _ _ _ _ _ _ _) as [t fnd]. cbn [fst] in H.
  rewrite hashed_app, H, IH. destruct (is_xbe f); reflexivity.
Qed.

(** X7: [processUpdates] asks for the SHA-1 of every entry of [$u] whose
    name ends in [.xbe] and of no other entry, in the order of the
    listing, whatever the earlier files were classified as. *)
Theorem every_xbe_entry_is_hashed :
  forall subDirUpdates files titleData titleID directory,
    hashed (fst (Fileparse.processUpdates guiEnabled sha1 subDirUpdates
                   (Dir true files) titleData titleID directory)) =
    map (fun f => Join subDirUpdates (fst f)) (List.filter is_xbe files).
Proof.
  intros subDirUpdates files titleData titleID directory.
  unfold Fileparse.processUpdates. cbn [ReadDir act fst hashed].
  apply updLoop_hashed.
Qed.

Lemma updBody_hash_errors subDirUpdates titleData titleID directory name n found fileName err :
  In (HashError fileName err)
     (printed (fst (Fileparse.updBody guiEnabled sha1 subDirUpdates titleData
                      titleID directory (name, n) found))) <->
  fileName = name /\ is_xbe (name, n) = true /\ unhashable n = true /\
  err = ErrIO (Join subDirUpdates name).
Proof.
  unfold is_xbe. cbn [fst Fileparse.updBody].
  destruct (String.eqb (Ext name) ".xbe"); cbn [negb].
  2:{ split; [intros []|intros (_ & H & _); discriminate]. }
  destruct n as [[] bytes|l es]; cbn [Fileparse.getSHA1Hash unhashable].
  - split; [|intros (_ & _ & H & _); discriminate].
    intros H. exfalso. revert H.
    assert (Hs : forall known fnd,
               ~ In (HashError fileName err)
                   (printed (fst (Fileparse.scanKnown guiEnabled titleData titleID
                      directory (Join subDirUpdates name) (sha1 bytes) known fnd)))).
    { induction known as [|m rest IH]; intros fnd; cbn [Fileparse.scanKnown];
        [intros []|].
      destruct (range_lookup m (sha1 bytes)).
      - unfold Fileparse.reportKnown. destruct guiEnabled;
          cbn [fst app printed In]; intros H; pick_report H.
      - destruct fnd; [intros []|apply IH]. }
    specialize (Hs (TitleUpdatesKnown titleData) found).
    destruct (Fileparse.scanKnown _ _ _ _ _ _ _ _) as [t fnd]. cbn [fst] in Hs.
    destruct fnd; cbn [negb fst printed]; [exact Hs|].
    rewrite printed_app, in_app_iff. intros [H|H]; [exact (Hs H)|].
    unfold Fileparse.reportUnknown in H. destruct guiEnabled;
      cbn [app printed In] in H; pick_report H.
  - cbn [fst printed]. rewrite printed_report. cbn [In]. split.
    + intros [[= <- <-]|[]]. auto.
    + intros (-> & _ & _ & ->). now left.
  - cbn [fst printed]. rewrite printed_report. cbn [In]. split.
    + intros [[= <- <-]|[]]. auto.
    + intros (-> & _ & _ & ->). now left.
Qed.

(** X8: [processUpdates] prints a hash error for an entry of [$u] exactly
    when the name of the entry ends in [.xbe] and the entry is a file that
    cannot be read or a directory; the report carries the name of the
    entry.  Unlike the report of an unknown update, it is printed whatever
    was found before in the directory. *)
Theorem hash_errors_are_always_reported :
  forall subDirUpdates files titleData titleID directory fileName err,
    In (HashError fileName err)
       (printed (fst (Fileparse.processUpdates guiEnabled sha1 subDirUpdates
                        (Dir true files) titleData titleID directory))) <->
    exists n, In (fileName, n) files /\ is_xbe (fileName, n) = true /\
              unhashable n = true /\ err = ErrIO (Join subDirUpdates fileName).
Proof.
  intros subDirUpdates files titleData titleID directory fileName err.
  unfold Fileparse.processUpdates. cbn [ReadDir act fst printed].
  generalize false as found.
  induction files as [|[name n] rest IH]; intros found; cbn [Fileparse.updLoop].
  - split; [intros []|intros (n & [] & _)].
  - pose proof (updBody_hash_errors subDirUpdates titleData titleID directory
                  name n found fileName err) as Hb.
    destruct (Fileparse.updBody _ _ _ _ _ _ _ _) as [t fnd]. cbn [fst] in Hb.
    rewrite printed_app, in_app_iff, Hb, IH. split.
    + intros [(-> & Hx & Hu & ->)|(n' & Hin & H)].
      * exists n. split; [now left|auto].
      * exists n'. split; [now right|exact H].
    + intros (n' & [[= -> ->]|Hin] & Hx & Hu & He).
      * left. auto.
      * right. exists n'. auto.
Qed.

Lemma updBody_at_most_one subDirUpdates titleData titleID directory f found :
  length (List.filter is_classification
            (printed (fst (Fileparse.updBody guiEnabled sha1 subDirUpdates titleData
                             titleID directory f found)))) <=
  if is_xbe f then 1 else 0.
Proof.
  destruct f as [name n]. unfold is_xbe. cbn [fst Fileparse.updBody].
  destruct (String.eqb (Ext name) ".xbe"); cbn [negb]; [|reflexivity].
  destruct n as [[] bytes|l es]; cbn [Fileparse.getSHA1Hash];
    try (cbn [fst printed]; rewrite printed_report; reflexivity).
  assert (Hs : forall known fnd,
             let r := Fileparse.scanKnown guiEnabled titleData titleID directory
                        (Join subDirUpdates name) (sha1 bytes) known fnd in
             length (List.filter is_classification (printed (fst r))) <=
             (if snd r then 1 else 0)).
  { induction known as [|m rest IH]; intros fnd; cbn [Fileparse.scanKnown].
    - cbn. lia.
    - destruct (range_lookup m (sha1 bytes)).
      + unfold Fileparse.reportKnown. destruct guiEnabled; cbn; lia.
      + destruct fnd; [cbn; lia|apply IH]. }
  specialize (Hs (TitleUpdatesKnown titleData) found). cbn zeta in Hs.
  destruct (Fileparse.scanKnown _ _ _ _ _ _ _ _) as [t fnd]. cbn [fst snd] in Hs.
  destruct fnd; cbn [negb fst printed]; [exact Hs|].
  rewrite printed_app, List.filter_app, length_app.
  unfold Fileparse.reportUnknown. destruct guiEnabled;
    cbn [app printed List.filter is_classification length]; lia.
Qed.

(** X9: [processUpdates] never classifies an entry twice and never
    classifies an entry whose name does not end in [.xbe]: the console
    gets at most as many classifications (known update, unknown update,
    hash error) as [$u] has [.xbe] entries. *)
Theorem at_most_one_classification_per_xbe_entry :
  forall subDirUpdates files titleData titleID directory,
    length (List.filter is_classification
              (printed (fst (Fileparse.processUpdates guiEnabled sha1 subDirUpdates
                               (Dir true files) titleData titleID directory)))) <=
    length (List.filter is_xbe files).
Proof.
  intros subDirUpdates files titleData titleID directory.
  unfold Fileparse.processUpdates. cbn [ReadDir act fst printed].
  generalize false as found.
  induction files as [|f rest IH]; intros found; [reflexivity|].
  cbn [Fileparse.updLoop List.filter].
  pose proof (updBody_at_most_one subDirUpdates titleData titleID directory f found) as H.
  destruct (Fileparse.updBody _ _ _ _ _ _ _ _) as [t fnd]. cbn [fst] in H.
  rewrite printed_app, List.filter_app, length_app. specialize (IH fnd).
  destruct (is_xbe f); cbn [length]; lia.
Qed.

End UpdateReports.

(** ** The update classifier: the first known update of a directory *)

Section FirstKnownUpdate.
Variable guiEnabled : bool.
Variable sha1 : string -> string.

Lemma updBody_unmatched_flag subDirUpdates titleData titleID directory f :
  known_update sha1 titleData f = None ->
  snd (Fileparse.updBody guiEnabled sha1 subDirUpdates titleData titleID directory
         f false) = false.
Proof.
  destruct f as [name n]. cbn [known_update Fileparse.updBody].
  destruct (String.eqb (Ext name) ".xbe"); cbn [negb]; [|reflexivity].
  destruct n as [[] bytes|l es]; cbn [Fileparse.getSHA1Hash]; try reflexivity.
  intros Hnone. rewrite scanKnown_first, Hnone. reflexivity.
Qed.

Lemma updLoop_unmatched_prefix subDirUpdates titleData titleID directory before files :
  Forall (fun f => known_update sha1 titleData f = None) before ->
  Fileparse.updLoop guiEnabled sha1 subDirUpdates titleData titleID directory
    (before ++ files) false =
  Fileparse.updLoop guiEnabled sha1 subDirUpdates titleData titleID directory
    before false ++
  Fileparse.updLoop guiEnabled sha1 subDirUpdates titleData titleID directory
    files false.
Proof.
  induction 1 as [|f before Hf Hbefore IH]; [reflexivity|].
  cbn [app Fileparse.updLoop].
  pose proof (updBody_unmatched_flag subDirUpdates titleData titleID directory f Hf) as Hflag.
  destruct (Fileparse.updBody _ _ _ _ _ _ _ _) as [t fnd]. cbn [snd] in Hflag.
  subst fnd. now rewrite IH, app_assoc.
Qed.

Lemma updBody_known subDirUpdates titleData titleID directory name n nm :
  known_update sha1 titleData (name, n) = Some nm ->
  exists bytes,
    n = File true bytes /\
    Fileparse.updBody guiEnabled sha1 subDirUpdates titleData titleID directory
      (name, n) false =
    (OpHash (Join subDirUpdates name) ::
       Fileparse.reportKnown guiEnabled titleData titleID directory nm
         (Join subDirUpdates name) (sha1 bytes), true).
Proof.
  cbn [known_update Fileparse.updBody].
  destruct n as [[] bytes|l es]; try discriminate.
  destruct (String.eqb (Ext name) ".xbe"); [|discriminate]. cbn [negb].
  intros Hfirst. exists bytes. split; [reflexivity|].
  cbn [Fileparse.getSHA1Hash]. rewrite scanKnown_first, Hfirst. reflexivity.
Qed.

(** X10: the first known update of a directory is reported under the
    display name that the first map of [TitleUpdatesKnown] with its digest
    records, unmodified, with the digest; the entries before it are
    classified as if the directory ended there; and after it no entry of
    the directory is reported as an unknown update any more. *)
Theorem first_known_update_is_reported_and_hides_unknown :
  forall subDirUpdates before name n rest titleData titleID directory nm,
    Forall (fun f => known_update sha1 titleData f = None) before ->
    known_update sha1 titleData (name, n) = Some nm ->
    exists bytes t_rest,
      n = File true bytes /\
      fst (Fileparse.processUpdates guiEnabled sha1 subDirUpdates
             (Dir true (before ++ (name, n) :: rest)) titleData titleID directory) =
      fst (Fileparse.processUpdates guiEnabled sha1 subDirUpdates
             (Dir true before) titleData titleID directory) ++
      OpHash (Join subDirUpdates name) ::
      Fileparse.reportKnown guiEnabled titleData titleID directory nm
        (Join subDirUpdates name) (sha1 bytes) ++ t_rest /\
      forallb (fun e => negb (is_update_unknown e)) (emitted t_rest) = true.
Proof.
  intros subDirUpdates before name n rest titleData titleID directory nm Hbefore Hknown.
  destruct (updBody_known subDirUpdates titleData titleID directory name n nm Hknown)
    as (bytes & -> & Hbody).
  exists bytes,
    (Fileparse.updLoop guiEnabled sha1 subDirUpdates titleData titleID directory
       rest true).
  split; [reflexivity|]. split.
  - unfold Fileparse.processUpdates. cbn [ReadDir act fst].
    rewrite updLoop_unmatched_prefix by exact Hbefore.
    cbn [Fileparse.updLoop]. rewrite Hbody. reflexivity.
  - apply stale_flag_hides_unknown_updates.
Qed.

(** X11: every known-update report of [processUpdates] is backed by the
    directory and the catalog: it belongs to a readable entry of [$u]
    whose name ends in [.xbe], carries the digest of that entry and a
    display name that a map of [TitleUpdatesKnown] records for the digest,
    and its path is the path of the entry with the root prefix trimmed,
    once or twice. *)
Theorem known_update_reports_are_backed :
  forall subDirUpdates listable files titleData titleID directory
         titleName' titleID' name' path' hash',
    In (UpdateKnown titleName' titleID' name' path' hash')
       (emitted (fst (Fileparse.processUpdates guiEnabled sha1 subDirUpdates
                        (Dir listable files) titleData titleID directory))) ->
    titleName' = TitleName titleData /\ titleID' = titleID /\
    exists name bytes m,
      In (name, File true bytes) files /\ is_xbe (name, File true bytes) = true /\
      hash' = sha1 bytes /\
      In m (TitleUpdatesKnown titleData) /\ m !! hash' = Some name' /\
      (path' = TrimPrefix (Join subDirUpdates name) (directory +:+ "/") \/
       path' = TrimPrefix (TrimPrefix (Join subDirUpdates name) (directory +:+ "/"))
                 (directory +:+ "/")).
Proof.
  intros subDirUpdates listable files titleData titleID directory
    titleName' titleID' name' path' hash'.
  unfold Fileparse.processUpdates. destruct listable; cbn [ReadDir act fst emitted];
    [|intros []].
  intros H. apply known_update_reports_sound in H
    as (-> & -> & name & bytes & m & Hin & Hext & Hrest).
  repeat split. exists name, bytes, m. split; [exact Hin|]. split; [|exact Hrest].
  unfold is_xbe. cbn [fst]. now rewrite Hext.
Qed.

Lemma updLoop_unmatched_no_known subDirUpdates titleData titleID directory files :
  Forall (fun f => known_update sha1 titleData f = None) files ->
  forall titleName' titleID' name' path' hash',
    ~ In (UpdateKnown titleName' titleID' name' path' hash')
        (emitted (Fileparse.updLoop guiEnabled sha1 subDirUpdates titleData titleID
                    directory files false)).
Proof.
  intros Hnone titleName' titleID' name' path' hash' H.
  apply known_update_reports_sound in H
    as (_ & _ & name & bytes & m & Hin & Hext & -> & Hm & Hlook & _).
  rewrite Forall_forall in Hnone.
  specialize (Hnone _ (proj2 (list_elem_of_In _ _) Hin)).
  cbn [known_update] in Hnone. rewrite Hext in Hnone. cbn [String.eqb] in Hnone.
  assert (Hfk : forall known, In m known -> first_known known (sha1 bytes) <> None).
  { induction known as [|m' rest IH]; [intros []|]. cbn [first_known].
    intros [->|Hin']; [rewrite Hlook; discriminate|].
    destruct (m' !! sha1 bytes); [discriminate|auto]. }
  apply (Hfk _ Hm). revert Hnone. clear.
  change (String.eqb ".xbe" ".xbe") with true. auto.
Qed.

(** X12: in a directory without a known update every entry whose name ends
    in [.xbe] gets exactly one classification on the console, an unknown
    update or a hash error, and no known update is reported. *)
Theorem directory_without_known_update_is_fully_classified :
  forall subDirUpdates files titleData titleID directory,
    Forall (fun f => known_update sha1 titleData f = None) files ->
    let t := fst (Fileparse.processUpdates guiEnabled sha1 subDirUpdates
                    (Dir true files) titleData titleID directory) in
    length (List.filter is_classification (printed t)) =
    length (List.filter is_xbe files) /\
    forall titleName' titleID' name' path' hash',
      ~ In (UpdateKnown titleName' titleID' name' path' hash') (emitted t).
Proof.
  intros subDirUpdates files titleData titleID directory Hnone t. subst t.
  unfold Fileparse.processUpdates. cbn [ReadDir act fst printed emitted]. split.
  - now apply unmatched_files_are_each_classified.
  - now apply updLoop_unmatched_no_known.
Qed.

End FirstKnownUpdate.

(** ** The two sinks *)

Lemma gui_added_app t1 t2 : gui_added (t1 ++ t2) = gui_added t1 ++ gui_added t2.
Proof.
  induction t1 as [|a t1 IH]; simpl; [reflexivity|].
  destruct a; simpl; now rewrite ?IH.
Qed.

Lemma TrimPrefix_no_prefix s pre : HasPrefix s pre = false -> TrimPrefix s pre = s.
Proof. intros H. unfold TrimPrefix. now rewrite H. Qed.

Section Sinks.
Variable sha1 : string -> string.

Lemma dlcBody_sinks subDirDLC titleData directory subContent :
  let t := fst (Fileparse.dlcBody true subDirDLC titleData directory subContent) in
  gui_added t = printed t.
Proof.
  destruct subContent as [name [r b|[] contents]];
    cbn [Fileparse.dlcBody IsDir negb ReadDir]; try reflexivity.
  repeat match goal with |- context [if ?b then _ else _] => destruct b end;
    reflexivity.
Qed.

(** X13: with the GUI switched on, the content classifier sends every
    report to both sinks: the GUI pane and the console receive the same
    reports in the same order, up to the point where [processDLCContent]
    returns. *)
Theorem content_reports_reach_both_sinks :
  forall subDirDLC dlc titleData titleID directory,
    let t := fst (Fileparse.processDLCContent true subDirDLC dlc titleData titleID
                    directory) in
    gui_added t = printed t.
Proof.
  intros subDirDLC dlc titleData titleID directory t. subst t.
  unfold Fileparse.processDLCContent.
  destruct dlc as [r b|[] subContents]; cbn [ReadDir]; try reflexivity.
  rewrite and_then_act. cbn [fst app gui_added printed].
  induction subContents as [|subContent rest IH]; [reflexivity|].
  cbn [Fileparse.dlcLoop].
  pose proof (dlcBody_sinks subDirDLC titleData directory subContent) as Hb.
  cbn zeta in Hb.
  destruct (Fileparse.dlcBody _ _ _ _ subContent) as [t [e|]]; cbn [and_then fst] in *.
  - exact Hb.
  - now rewrite gui_added_app, printed_app, Hb, IH.
Qed.

(** X14: with the GUI switched on, the update classifier sends the same
    reports to the GUI pane and to the console, provided that no path of
    an entry of [$u], once the root prefix is trimmed, starts with the root
    prefix again (the console line is trimmed a second time). *)
Theorem update_reports_reach_both_sinks :
  forall subDirUpdates files titleData titleID directory,
    (forall f, In f files ->
               HasPrefix (TrimPrefix (Join subDirUpdates (fst f)) (directory +:+ "/"))
                 (directory +:+ "/") = false) ->
    let t := fst (Fileparse.processUpdates true sha1 subDirUpdates (Dir true files)
                    titleData titleID directory) in
    gui_added t = printed t.
Proof.
  intros subDirUpdates files titleData titleID directory Hpaths t. subst t.
  unfold Fileparse.processUpdates. cbn [ReadDir act fst gui_added printed].
  generalize false as found.
  induction files as [|[name n] rest IH]; intros found; [reflexivity|].
  cbn [Fileparse.updLoop].
  assert (Htrim := Hpaths (name, n) (or_introl eq_refl)). cbn [fst] in Htrim.
  assert (Hb : let t := fst (Fileparse.updBody true sha1 subDirUpdates titleData
                                titleID directory (name, n) found) in
               gui_added t = printed t).
  { cbn [Fileparse.updBody]. destruct (negb _); [reflexivity|].
    destruct (Fileparse.getSHA1Hash sha1 _ n) as [h|err]; [|reflexivity].
    assert (Hs : forall known fnd,
               let t := fst (Fileparse.scanKnown true titleData titleID directory
                               (Join subDirUpdates name) h known fnd) in
               gui_added t = printed t).
    { induction known as [|m known IHk]; intros fnd; cbn [Fileparse.scanKnown];
        [reflexivity|].
      destruct (range_lookup m h).
      - unfold Fileparse.reportKnown. cbn [fst app gui_added printed].
        now rewrite (TrimPrefix_no_prefix _ _ Htrim).
      - destruct fnd; [reflexivity|apply IHk]. }
    specialize (Hs (TitleUpdatesKnown titleData) found). cbn zeta in Hs.
    destruct (Fileparse.scanKnown _ _ _ _ _ _ _ _) as [t fnd]. cbn [fst] in Hs.
    destruct fnd; cbn [negb fst gui_added printed]; [exact Hs|].
    rewrite gui_added_app, printed_app, Hs. unfold Fileparse.reportUnknown.
    cbn [app gui_added printed]. now rewrite (TrimPrefix_no_prefix _ _ Htrim). }
  cbn zeta in Hb.
  destruct (Fileparse.updBody _ _ _ _ _ _ _ _) as [t fnd]. cbn [fst] in Hb.
  rewrite gui_added_app, printed_app, Hb, IH; [reflexivity|].
  intros f Hin. apply Hpaths. now right.
Qed.

End Sinks.

(** ** The walk over a dump that can be listed *)

Lemma visited_app t1 t2 : visited (t1 ++ t2) = visited t1 ++ visited t2.
Proof.
  induction t1 as [|a t1 IH]; simpl; [reflexivity|].
  destruct a; simpl; now rewrite ?IH.
Qed.

Lemma fully_listable_entry listable entries nm child :
  fully_listable (Dir listable entries) = true -> In (nm, child) entries ->
  fully_listable child = true.
Proof.
  cbn [fully_listable]. intros H. apply andb_true_iff in H as [_ H].
  induction entries as [|[nm' c'] rest IH]; [intros []|].
  apply andb_true_iff in H as [Hc Hrest].
  intros [[= -> ->]|Hin]; [exact Hc|]. now apply IH.
Qed.

Lemma fully_listable_top listable entries :
  fully_listable (Dir listable entries) = true -> listable = true.
Proof. cbn [fully_listable]. intros H. now apply andb_true_iff in H as [-> _]. Qed.

Lemma fully_listable_listable_entry (subContent : string * node) :
  fully_listable (snd subContent) = true -> listable_entry subContent = true.
Proof.
  destruct subContent as [name [r b|[] es]]; unfold listable_entry; cbn [snd];
    [reflexivity|reflexivity|]. intros H. apply fully_listable_top in H. discriminate.
Qed.

Section ListableDump.
Variable titles : Catalog.
Variable guiEnabled : bool.
Variable sha1 : string -> string.

Lemma processDLCContent_listable subDirDLC listable subContents titleData titleID directory :
  fully_listable (Dir listable subContents) = true ->
  snd (Fileparse.processDLCContent guiEnabled subDirDLC (Dir listable subContents)
         titleData titleID directory) = None.
Proof.
  intros Hfl. pose proof (fully_listable_top _ _ Hfl) as ->.
  unfold Fileparse.processDLCContent. cbn [ReadDir]. rewrite and_then_act. cbn [snd].
  assert (Hall : forall e, In e subContents -> listable_entry e = true).
  { intros [nm c] Hin. apply fully_listable_listable_entry.
    exact (fully_listable_entry _ _ _ _ Hfl Hin). }
  clear Hfl. induction subContents as [|subContent rest IH]; [reflexivity|].
  cbn [Fileparse.dlcLoop].
  destruct (dlcBody_listable guiEnabled subDirDLC titleData directory subContent
              (Hall _ (or_introl eq_refl))) as [Hb _].
  destruct (Fileparse.dlcBody _ _ _ _ subContent) as [t e]. cbn [snd] in Hb. subst e.
  cbn [and_then snd]. apply IH. intros e He. apply Hall. now right.
Qed.

Lemma walkFn_listable directory path name n :
  fully_listable n = true ->
  snd (Fileparse.walkFn titles guiEnabled sha1 directory path name n None) =
  if unrecognized titles name n then Some SkipDir else None.
Proof.
  intros Hfl. unfold Fileparse.walkFn, unrecognized. rewrite and_then_act. cbn [snd].
  destruct (IsDir n && (String.length name =? 8)%nat) eqn:E; [|reflexivity].
  cbn [andb]. rewrite and_then_act. cbn [snd].
  assert (Hc : forall a sub, stat_child n a = Some sub -> fully_listable sub = true).
  { intros a sub Hs. destruct n as [r b|l es]; [discriminate|].
    cbn [stat_child] in Hs. apply find_entry_In in Hs.
    exact (fully_listable_entry _ _ _ _ Hfl Hs). }
  destruct (titles !! ToLower name) as [titleData|].
  - assert (H1 : snd (act [OpStat (Join path "$c")] ;;;
                      match stat_child n "$c" with
                      | Some sub =>
                          if IsDir sub
                          then Fileparse.processDLCContent guiEnabled (Join path "$c")
                                 sub titleData (ToLower name) directory
                          else act []
                      | None => act []
                      end) = None).
    { rewrite and_then_act. cbn [snd].
      destruct (stat_child n "$c") as [[r b|l es]|] eqn:Es; cbn [IsDir]; try reflexivity.
      apply processDLCContent_listable. exact (Hc _ _ Es). }
    assert (H2 : snd (act [OpStat (Join path "$u")] ;;;
                      match stat_child n "$u" with
                      | Some sub =>
                          if IsDir sub
                          then Fileparse.processUpdates guiEnabled sha1 (Join path "$u")
                                 sub titleData (ToLower name) directory
                          else act []
                      | None => act []
                      end) = None).
    { rewrite and_then_act. cbn [snd].
      destruct (stat_child n "$u") as [[r b|l es]|] eqn:Es; cbn [IsDir]; try reflexivity.
      pose proof (fully_listable_top _ _ (Hc _ _ Es)) as ->. reflexivity. }
    cbv zeta.
    destruct (act [OpStat (Join path "$c")] ;;; _) as [t1 e1]. cbn [snd] in H1. subst e1.
    cbn [and_then snd].
    destruct (act [OpStat (Join path "$u")] ;;; _) as [t2 e2]. cbn [snd] in H2. subst e2.
    reflexivity.
  - cbv zeta. rewrite !and_then_act. cbn [snd].
    destruct (stat_child n "$c") as [[r b|l es]|]; cbn [IsDir act and_then snd fst];
      destruct (stat_child n "$u") as [[r' b'|l' es']|]; reflexivity.
Qed.

Lemma walk_visits_itself directory path name n :
  In path (visited (fst (Fileparse.walk titles guiEnabled sha1 directory path name n))).
Proof.
  assert (Hfn : forall err,
             In path (visited (fst (Fileparse.walkFn titles guiEnabled sha1 directory
                                      path name n err)))).
  { intros err. unfold Fileparse.walkFn. destruct err as [e|]; [now left|].
    rewrite and_then_act. cbn [fst app visited]. now left. }
  destruct n as [r b|l es]; [apply Hfn|].
  rewrite walk_Dir. specialize (Hfn (if l then None else Some (ErrIO path))).
  destruct (Fileparse.walkFn _ _ _ _ _ _ _ _) as [t1 err1]. cbn [fst] in Hfn.
  destruct (negb l || bool_decide (err1 <> None)); cbn [fst visited].
  - exact Hfn.
  - rewrite visited_app, in_app_iff. now left.
Qed.

Lemma walk_entries_listable directory path entries :
  (forall nm child, In (nm, child) entries ->
     forall p nme,
       snd (Fileparse.walk titles guiEnabled sha1 directory p nme child) =
       if unrecognized titles nme child then Some SkipDir else None) ->
  snd (Fileparse.walk_entries titles guiEnabled sha1 directory path entries) = None /\
  forall nm child q,
    In (nm, child) entries ->
    In q (visited (fst (Fileparse.walk titles guiEnabled sha1 directory
                          (Join path nm) nm child))) ->
    In q (visited (fst (Fileparse.walk_entries titles guiEnabled sha1 directory
                          path entries))).
Proof.
  induction entries as [|[nm child] rest IH]; intros Hall.
  - split; [reflexivity|intros ? ? ? []].
  - destruct IH as [IH1 IH2];
      [intros nm' c' Hin' p nme; apply (Hall nm' c'); now right|].
    cbn [Fileparse.walk_entries].
    pose proof (Hall nm child (or_introl eq_refl) (Join path nm) nm) as Hc.
    destruct (Fileparse.walk _ _ _ _ _ nm child) as [t e] eqn:E. cbn [snd] in Hc.
    assert (Hstep :
      (let r := match e with
                | Some e' =>
                    if IsDir child && bool_decide (e' = SkipDir)
                    then act t ;;;
                         Fileparse.walk_entries titles guiEnabled sha1 directory path rest
                    else (t, Some e')
                | None =>
                    act t ;;;
                    Fileparse.walk_entries titles guiEnabled sha1 directory path rest
                end in
       r = (t ++ fst (Fileparse.walk_entries titles guiEnabled sha1 directory path rest),
            None))).
    { unfold unrecognized in Hc. subst e.
      destruct (IsDir child) eqn:Ed; cbn [andb].
      - destruct ((String.length nm =? 8)%nat); cbn [andb].
        + destruct (titles !! ToLower nm); cbn zeta.
          * rewrite and_then_act, IH1. reflexivity.
          * rewrite bool_decide_eq_true_2 by reflexivity.
            rewrite and_then_act, IH1. reflexivity.
        + cbn zeta. rewrite and_then_act, IH1. reflexivity.
      - cbn zeta. rewrite and_then_act, IH1. reflexivity. }
    cbn zeta in Hstep.
    match goal with |- snd ?r = None /\ _ => replace r with
      (t ++ fst (Fileparse.walk_entries titles guiEnabled sha1 directory path rest),
       @None error) by (symmetry; destruct e; exact Hstep) end.
    cbn [fst snd]. split; [reflexivity|].
    intros nm' child' q [[= -> ->]|Hin] Hq; rewrite visited_app, in_app_iff.
    + left. rewrite E in Hq. exact Hq.
    + right. eapply IH2; eauto.
Qed.

Lemma walk_listable directory n :
  fully_listable n = true ->
  forall path name,
    snd (Fileparse.walk titles guiEnabled sha1 directory path name n) =
    if unrecognized titles name n then Some SkipDir else None.
Proof.
  induction n as [r b|listable entries IH] using node_tree_ind; intros Hfl path name.
  - cbn [Fileparse.walk]. now apply walkFn_listable.
  - pose proof (fully_listable_top _ _ Hfl) as ->. rewrite walk_Dir.
    pose proof (walkFn_listable directory path name (Dir true entries) Hfl) as Hfn.
    destruct (Fileparse.walkFn _ _ _ _ _ _ _ _) as [t1 err1]. cbn [snd] in Hfn.
    subst err1. destruct (unrecognized titles name (Dir true entries)).
    + reflexivity.
    + cbn [negb orb]. rewrite bool_decide_eq_false_2 by (intros H; now apply H).
      cbn [snd]. apply walk_entries_listable.
      intros nm child Hin p nme. rewrite Forall_forall in IH.
      apply (IH (nm, child) (proj2 (list_elem_of_In _ _) Hin)).
      exact (fully_listable_entry _ _ _ _ Hfl Hin).
Qed.

Lemma walk_reaches directory path name n q :
  open_at titles path name n q ->
  fully_listable n = true ->
  In q (visited (fst (Fileparse.walk titles guiEnabled sha1 directory path name n))).
Proof.
  induction 1 as [path name n|path name l entries nm child q Hopen Hin Hq IH];
    intros Hfl.
  - apply walk_visits_itself.
  - pose proof (fully_listable_top _ _ Hfl) as ->. rewrite walk_Dir.
    pose proof (walkFn_listable directory path name (Dir true entries) Hfl) as Hfn.
    destruct (Fileparse.walkFn _ _ _ _ _ _ _ _) as [t1 err1]. cbn [snd] in Hfn.
    subst err1. rewrite Hopen.
    cbn [negb orb]. rewrite bool_decide_eq_false_2 by (intros H; now apply H).
    cbn [fst visited]. rewrite visited_app, in_app_iff. right.
    eapply walk_entries_listable; [|exact Hin|].
    + intros nm' child' Hin' p nme. apply walk_listable.
      exact (fully_listable_entry _ _ _ _ Hfl Hin').
    + apply IH. exact (fully_listable_entry _ _ _ _ Hfl Hin).
Qed.

(** X15: when the scan root is written cleanly, so that its last element
    is the name of the root directory, the names in the dump are ASCII
    text and every directory of the dump can be listed, [checkForContent]
    returns [nil] (never [filepath.SkipDir], which [filepath.Walk] takes
    for itself), and the walk function is called for every file and
    directory that does not lie beneath an unrecognized title directory:
    the directories of known titles are descended into after they were
    classified. *)
Theorem listable_dump_is_walked_to_the_end :
  forall directory root,
    is_clean directory = true ->
    ascii_names (Base directory) root = true ->
    fully_listable root = true ->
    let r := Fileparse.checkForContent titles guiEnabled sha1 directory (Some root) in
    snd r = None /\
    forall q, open_at titles directory (Base directory) root q ->
              In q (visited (fst r)).
Proof.
  intros directory root _ _ Hfl r. subst r. unfold Fileparse.checkForContent.
  pose proof (walk_listable directory root Hfl directory (Base directory)) as Hres.
  pose proof (fun q Hq => walk_reaches directory directory (Base directory) root q Hq Hfl)
    as Hreach.
  destruct (Fileparse.walk _ _ _ _ _ _ _) as [t e]. cbn [fst snd] in *. split.
  - subst e. destruct (unrecognized titles (Base directory) root); reflexivity.
  - intros q Hq. exact (Hreach q Hq).
Qed.

End ListableDump.

(** ** Where the scan hashes and reports *)

Lemma and_then_hashed (r k : run) p :
  In p (hashed (fst (r ;;; k))) -> In p (hashed (fst r)) \/ In p (hashed (fst k)).
Proof.
  destruct r as [t [e|]]; simpl; [auto|].
  rewrite hashed_app, in_app_iff. auto.
Qed.

Lemma only_walks_app t1 t2 : only_walks (t1 ++ t2) = only_walks t1 && only_walks t2.
Proof. apply forallb_app. Qed.

Lemma only_walks_quiet t : only_walks t = true -> emitted t = [] /\ hashed t = [].
Proof.
  induction t as [|a t IH]; [split; reflexivity|].
  cbn [only_walks forallb]. intros H. apply andb_true_iff in H as [Ha Ht].
  destruct a; try discriminate; cbn [emitted hashed]; exact (IH Ht).
Qed.

Section Where.
Variable titles : Catalog.
Variable guiEnabled : bool.
Variable sha1 : string -> string.

Lemma logOutput_hashed e : hashed (Fileparse.logOutput guiEnabled e) = [].
Proof. unfold Fileparse.logOutput. now destruct guiEnabled. Qed.

Lemma processDLCContent_hashed subDirDLC dlc titleData titleID directory :
  hashed (fst (Fileparse.processDLCContent guiEnabled subDirDLC dlc titleData
                 titleID directory)) = [].
Proof.
  unfold Fileparse.processDLCContent.
  destruct dlc as [r b|[] subContents]; cbn [ReadDir]; try reflexivity.
  rewrite and_then_act. cbn [fst app hashed].
  induction subContents as [|[name n] rest IH]; [reflexivity|].
  cbn [Fileparse.dlcLoop].
  assert (Hb : hashed (fst (Fileparse.dlcBody guiEnabled subDirDLC titleData directory
                              (name, n))) = []).
  { destruct n as [r b|[] contents]; cbn [Fileparse.dlcBody IsDir negb ReadDir];
      try reflexivity.
    repeat match goal with |- context [if ?b then _ else _] => destruct b end;
      cbn [and_then act fst app hashed]; rewrite ?report_hashed; reflexivity. }
  destruct (Fileparse.dlcBody _ _ _ _ _) as [t [e|]]; cbn [and_then fst] in *.
  - exact Hb.
  - now rewrite hashed_app, Hb, IH.
Qed.

Lemma walkFn_hashed_inv directory path name n err p :
  In p (hashed (fst (Fileparse.walkFn titles guiEnabled sha1 directory path name n err))) ->
  update_file_of titles path name n p.
Proof.
  unfold Fileparse.walkFn. destruct err as [e|]; [intros []|].
  rewrite and_then_act. cbn [fst app hashed].
  destruct (IsDir n && (String.length name =? 8)%nat) eqn:E; [|intros []].
  apply andb_true_iff in E as [_ Hlen]. apply Nat.eqb_eq in Hlen.
  intros H. apply and_then_hashed in H as [H|H].
  { cbn [act fst] in H. destruct (titles !! ToLower name);
      [rewrite report_hashed in H|]; destruct H. }
  apply and_then_hashed in H as [H|H].
  { rewrite and_then_act in H. cbn [fst app hashed] in H.
    destruct (stat_child n "$c") as [sub|]; [|destruct H].
    destruct (IsDir sub); [|destruct H].
    destruct (titles !! ToLower name).
    - rewrite processDLCContent_hashed in H. destruct H.
    - cbn [act fst] in H. rewrite logOutput_hashed in H. destruct H. }
  apply and_then_hashed in H as [H|H].
  2:{ destruct (titles !! ToLower name); destruct H. }
  rewrite and_then_act in H. cbn [fst app hashed] in H.
  destruct (stat_child n "$u") as [[r b|l files]|] eqn:Es; cbn [IsDir] in H;
    try destruct H.
  destruct (titles !! ToLower name) as [titleData|] eqn:Et.
  2:{ cbn [act fst] in H. rewrite logOutput_hashed in H. destruct H. }
  unfold Fileparse.processUpdates in H. destruct l; cbn [ReadDir act fst hashed] in H;
    [|destruct H].
  rewrite updLoop_hashed in H. apply in_map_iff in H as ([nm n'] & <- & Hf).
  apply filter_In in Hf as [Hin Hx].
  exists titleData, files, nm, n'. auto 10.
Qed.

Lemma walk_entries_hashed_inv directory path entries p :
  In p (hashed (fst (Fileparse.walk_entries titles guiEnabled sha1 directory path entries))) ->
  exists nm child,
    In (nm, child) entries /\
    In p (hashed (fst (Fileparse.walk titles guiEnabled sha1 directory
                         (Join path nm) nm child))).
Proof.
  induction entries as [|[nm child] rest IH]; [intros []|].
  cbn [Fileparse.walk_entries].
  destruct (Fileparse.walk _ _ _ _ _ nm child) as [t [e|]] eqn:E.
  - destruct (IsDir child && bool_decide (e = SkipDir)).
    + rewrite and_then_act. cbn [fst]. rewrite hashed_app, in_app_iff.
      intros [H|H].
      * exists nm, child. rewrite E. split; [now left|exact H].
      * destruct (IH H) as (nm' & c' & Hin & Hp). exists nm', c'. split; [now right|exact Hp].
    + cbn [fst]. intros H. exists nm, child. rewrite E. split; [now left|exact H].
  - rewrite and_then_act. cbn [fst]. rewrite hashed_app, in_app_iff.
    intros [H|H].
    + exists nm, child. rewrite E. split; [now left|exact H].
    + destruct (IH H) as (nm' & c' & Hin & Hp). exists nm', c'. split; [now right|exact Hp].
Qed.

Lemma walk_hashed_inv directory n :
  forall path name p,
    In p (hashed (fst (Fileparse.walk titles guiEnabled sha1 directory path name n))) ->
    exists q qn d,
      lives_at path name n q qn d /\ update_file_of titles q qn d p.
Proof.
  induction n as [r b|listable entries IH] using node_tree_ind; intros path name p.
  - cbn [Fileparse.walk]. intros H. apply walkFn_hashed_inv in H.
    exists path, name, (File r b). split; [constructor|exact H].
  - rewrite walk_Dir.
    pose proof (walkFn_hashed_inv directory path name (Dir listable entries)
                  (if listable then None else Some (ErrIO path)) p) as Hfn.
    destruct (Fileparse.walkFn _ _ _ _ _ _ _ _) as [t1 err1]. cbn [fst] in Hfn.
    assert (Hhere : In p (hashed t1) ->
                    exists q qn d, lives_at path name (Dir listable entries) q qn d /\
                                   update_file_of titles q qn d p).
    { intros H. exists path, name, (Dir listable entries).
      split; [constructor|exact (Hfn H)]. }
    destruct (negb listable || bool_decide (err1 <> None)); cbn [fst hashed];
      [exact Hhere|].
    rewrite hashed_app, in_app_iff. intros [H|H]; [exact (Hhere H)|].
    apply walk_entries_hashed_inv in H as (nm & child & Hin & Hp).
    rewrite Forall_forall in IH.
    destruct (IH (nm, child) (proj2 (list_elem_of_In _ _) Hin) _ _ _ Hp)
      as (q & qn & d & Hl & Hu).
    exists q, qn, d. split; [|exact Hu]. eapply lives_below; eauto.
Qed.

(** X16: the scan asks for the SHA-1 of a path only if the path is an
    entry, with a name ending in [.xbe], of the [$u] directory of a
    directory of the dump whose 8-byte name the catalog knows in lower
    case; nothing else in the dump is ever hashed. *)
Theorem only_updates_of_known_titles_are_hashed :
  forall directory root p,
    In p (hashed (fst (Fileparse.checkForContent titles guiEnabled sha1 directory
                         (Some root)))) ->
    exists q qn d,
      lives_at directory (Base directory) root q qn d /\
      update_file_of titles q qn d p.
Proof.
  intros directory root p. unfold Fileparse.checkForContent.
  pose proof (walk_hashed_inv directory root directory (Base directory) p) as H.
  destruct (Fileparse.walk _ _ _ _ _ _ _) as [t e]. exact H.
Qed.

Lemma walk_entries_only_walks directory path entries :
  Forall (fun e => forall p,
              only_walks (fst (Fileparse.walk titles guiEnabled sha1 directory p
                                 (fst e) (snd e))) = true) entries ->
  only_walks (fst (Fileparse.walk_entries titles guiEnabled sha1 directory path
                     entries)) = true.
Proof.
  induction 1 as [|[nm child] rest Hc Hrest IH]; [reflexivity|].
  cbn [Fileparse.walk_entries]. cbn [fst snd] in Hc. specialize (Hc (Join path nm)).
  destruct (Fileparse.walk _ _ _ _ _ nm child) as [t [e|]]; cbn [fst] in Hc.
  - destruct (IsDir child && bool_decide (e = SkipDir)); [|exact Hc].
    rewrite and_then_act. cbn [fst]. now rewrite only_walks_app, Hc, IH.
  - rewrite and_then_act. cbn [fst]. now rewrite only_walks_app, Hc, IH.
Qed.

Lemma walk_only_walks directory n :
  forall path name,
    no_title_shape name n = true ->
    only_walks (fst (Fileparse.walk titles guiEnabled sha1 directory path name n)) = true.
Proof.
  induction n as [r b|listable entries IH] using node_tree_ind; intros path name Hshape.
  - reflexivity.
  - cbn [no_title_shape] in Hshape. apply andb_true_iff in Hshape as [Hlen Hall].
    apply negb_true_iff in Hlen. rewrite walk_Dir. unfold Fileparse.walkFn.
    cbn [IsDir andb]. rewrite Hlen.
    destruct listable; cbn [negb orb]; [|reflexivity].
    rewrite and_then_act. cbn [act fst snd app].
    rewrite bool_decide_eq_false_2 by (intros H; now apply H).
    cbn [fst only_walks forallb andb].
    apply walk_entries_only_walks.
    rewrite Forall_forall in IH. apply Forall_forall. intros [nm child] Hin p.
    cbn [fst snd]. apply (IH (nm, child) Hin).
    apply list_elem_of_In in Hin. clear -Hall Hin.
    induction entries as [|[nm' c'] rest IHr]; [destruct Hin|].
    apply andb_true_iff in Hall as [Hc Hrest].
    destruct Hin as [[= -> ->]|Hin]; [exact Hc|now apply IHr].
Qed.

(** X17: when the scan root is written cleanly, so that its last element
    is the name of the root directory, and no directory of the dump, the
    root included, has a name of 8 bytes, the scan reports nothing, in
    neither sink, and hashes nothing: it only walks. *)
Theorem dump_without_title_directories_is_silent :
  forall directory root,
    is_clean directory = true ->
    no_title_shape (Base directory) root = true ->
    let t := fst (Fileparse.checkForContent titles guiEnabled sha1 directory
                    (Some root)) in
    emitted t = [] /\ hashed t = [].
Proof.
  intros directory root _ Hshape t. subst t. unfold Fileparse.checkForContent.
  pose proof (walk_only_walks directory root directory (Base directory) Hshape) as H.
  destruct (Fileparse.walk _ _ _ _ _ _ _) as [t e]. cbn [fst] in *.
  exact (only_walks_quiet t H).
Qed.

End Where.

(** ** The two copies of the scan *)


Lemma p000_dlcLoop subDirDLC titleData directory subContents :
  Part000.dlcLoop subDirDLC titleData directory subContents =
  Fileparse.dlcLoop false subDirDLC titleData directory subContents.
Proof.
  induction subContents as [|[name n] rest IH]; [reflexivity|].
  cbn [Part000.dlcLoop Fileparse.dlcLoop]. rewrite IH. reflexivity.
Qed.

(** X18: the content classifier of the command-line copy and the one of
    [fileparse.go] with the GUI switched off do the same on every [$c]
    directory: the same listings, the same reports with the same values in
    the same order, the same return value (the wording of the printed
    lines apart). *)
Theorem content_classifier_copies_agree :
  forall subDirDLC dlc titleData titleID directory,
    Part000.processDLCContent subDirDLC dlc titleData titleID directory =
    Fileparse.processDLCContent false subDirDLC dlc titleData titleID directory.
Proof.
  intros subDirDLC dlc titleData titleID directory.
  unfold Part000.processDLCContent, Fileparse.processDLCContent.
  destruct (ReadDir subDirDLC dlc); [|reflexivity]. now rewrite p000_dlcLoop.
Qed.

Section Copies.
Variable sha1 : string -> string.

Lemma p000_updBody_unmatched subDirUpdates titleData titleID directory f :
  known_update sha1 titleData f = None ->
  Part000.updBody sha1 subDirUpdates titleData titleID directory f false =
  (fst (Fileparse.updBody false sha1 subDirUpdates titleData titleID directory f false),
   Part000.Continue false).
Proof.
  destruct f as [name n]. cbn [known_update Part000.updBody Fileparse.updBody].
  destruct (String.eqb (Ext name) ".xbe"); cbn [negb]; [|reflexivity].
  destruct n as [[] bytes|l es];
    cbn [Part000.getSHA1Hash Fileparse.getSHA1Hash]; try reflexivity.
  intros Hf. rewrite part000_scanKnown_first, scanKnown_first, Hf. reflexivity.
Qed.

Lemma p000_updLoop_unmatched subDirUpdates titleData titleID directory files :
  Forall (fun f => known_update sha1 titleData f = None) files ->
  Part000.updLoop sha1 subDirUpdates titleData titleID directory files false =
  (Fileparse.updLoop false sha1 subDirUpdates titleData titleID directory files false,
   Part000.Returned None).
Proof.
  induction 1 as [|f rest Hf Hrest IH]; [reflexivity|].
  cbn [Part000.updLoop Fileparse.updLoop].
  rewrite (p000_updBody_unmatched _ _ _ _ _ Hf), IH.
  pose proof (updBody_unmatched_flag false sha1 subDirUpdates titleData titleID
                directory f Hf) as Hflag.
  destruct (Fileparse.updBody _ _ _ _ _ _ _ _) as [t fnd]. cbn [fst snd] in *.
  now subst fnd.
Qed.

Lemma p000_processUpdates_unmatched subDirUpdates listable files titleData titleID directory :
  Forall (fun f => known_update sha1 titleData f = None) files ->
  Part000.processUpdates sha1 subDirUpdates (Dir listable files) titleData titleID
    directory =
  Part000.returns
    (Fileparse.processUpdates false sha1 subDirUpdates (Dir listable files)
       titleData titleID directory).
Proof.
  intros Hnone. unfold Part000.processUpdates, Fileparse.processUpdates.
  destruct listable; cbn [ReadDir]; [|reflexivity].
  now rewrite (p000_updLoop_unmatched _ _ _ _ _ Hnone).
Qed.

(** X19: on a [$u] directory without a known update the two copies of
    [processUpdates] do the same, GUI switched off: they hash the same
    files, print the same reports and return the same.  The copies can
    differ only from the first known update of a directory on. *)
Theorem update_classifier_copies_agree_without_known_update :
  forall subDirUpdates listable files titleData titleID directory,
    Forall (fun f => known_update sha1 titleData f = None) files ->
    Part000.processUpdates sha1 subDirUpdates (Dir listable files) titleData titleID
      directory =
    Part000.returns
      (Fileparse.processUpdates false sha1 subDirUpdates (Dir listable files)
         titleData titleID directory).
Proof.
  intros subDirUpdates listable files titleData titleID directory.
  apply p000_processUpdates_unmatched.
Qed.

Lemma p000_updLoop_prefix subDirUpdates titleData titleID directory before files :
  Forall (fun f => known_update sha1 titleData f = None) before ->
  Part000.updLoop sha1 subDirUpdates titleData titleID directory (before ++ files) false =
  (fst (Part000.updLoop sha1 subDirUpdates titleData titleID directory before false) ++
   fst (Part000.updLoop sha1 subDirUpdates titleData titleID directory files false),
   snd (Part000.updLoop sha1 subDirUpdates titleData titleID directory files false)).
Proof.
  induction 1 as [|f before Hf Hbefore IH].
  - cbn [app Part000.updLoop fst]. now destruct (Part000.updLoop _ _ _ _ _ _ _).
  - cbn [app Part000.updLoop].
    pose proof (part000_updBody_other sha1 subDirUpdates titleData titleID directory
                  f Hf) as Hother.
    destruct (Part000.updBody _ _ _ _ _ f false) as [t ex]. cbn [snd] in Hother.
    subst ex. rewrite IH.
    destruct (Part000.updLoop _ _ _ _ _ before false) as [tb ob].
    destruct (Part000.updLoop _ _ _ _ _ files false) as [tf o2].
    cbn [fst snd]. now rewrite app_assoc.
Qed.

(** X20: in the command-line copy the entries of [$u] after the first
    known update have no influence at all: [processUpdates] does and
    returns (or panics) as if the listing ended with that update; the
    later entries are neither hashed nor reported. *)
Theorem entries_after_first_known_update_are_ignored :
  forall subDirUpdates before f rest titleData titleID directory nm,
    Forall (fun g => known_update sha1 titleData g = None) before ->
    known_update sha1 titleData f = Some nm ->
    Part000.processUpdates sha1 subDirUpdates (Dir true (before ++ f :: rest))
      titleData titleID directory =
    Part000.processUpdates sha1 subDirUpdates (Dir true (before ++ [f]))
      titleData titleID directory.
Proof.
  intros subDirUpdates before [name n] rest titleData titleID directory nm Hbefore Hknown.
  unfold Part000.processUpdates. cbn [ReadDir].
  rewrite !p000_updLoop_prefix by exact Hbefore.
  destruct (part000_updBody_known sha1 subDirUpdates titleData titleID directory
              name n nm Hknown) as (bytes & -> & Hbody).
  cbn [Part000.updLoop]. rewrite Hbody.
  destruct (String.length nm <? 17)%nat; reflexivity.
Qed.

End Copies.

Section ScanCopies.
Variable titles : Catalog.
Variable sha1 : string -> string.







End ScanCopies.

(** ** The further properties at the demonstration dump *)


Lemma unarchived_content_reports_relative_path_witness :
  Fileparse.dlcBody false (Join "dump" "4d530064/$c") Demo.gameA "dump"
    ("dlc0001", Demo.package) =
  ([OpReadDir "dump/4d530064/$c/dlc0001" true;
    Print (ContentUnarchived "Game A" "4d530064/$c/dlc0001")], None).
Proof.
  apply (unarchived_content_reports_relative_path false "dump" "4d530064/$c"
           Demo.gameA "dlc0001" [ ("ContentMeta.xbx", File true "") ]);
    try reflexivity.
  - left. reflexivity.
  - repeat constructor.
Defined.

Lemma one_report_per_content_package_witness :
  let r := Fileparse.processDLCContent false "dump/4d530064/$c" Demo.dlcDir
             Demo.gameA "4d530064" "dump" in
  snd r = None /\ length (printed (fst r)) = 3.
Proof.
  apply (one_report_per_content_package false "dump/4d530064/$c"
           [ ("dlc0001", Demo.package); ("dlc0002", Demo.package);
             ("nometa", Dir true [ ("readme.txt", File true "") ]);
             ("weird9999", Demo.package) ] Demo.gameA "4d530064" "dump").
  reflexivity.
Defined.

Lemma unlistable_content_directory_aborts_witness :
  Fileparse.processDLCContent false "dump/4d530064/$c"
    (Dir true ([ ("dlc0001", Demo.package) ] ++
               ("locked", Dir false []) :: [ ("weird9999", Demo.package) ]))
    Demo.gameA "4d530064" "dump" =
  ([OpReadDir "dump/4d530064/$c" true;
    OpReadDir "dump/4d530064/$c/dlc0001" true;
    Print (ContentUnarchived "Game A" "4d530064/$c/dlc0001");
    OpReadDir "dump/4d530064/$c/locked" false],
   Some (ErrIO "dump/4d530064/$c/locked")).
Proof.
  apply (unlistable_content_directory_aborts false "dump/4d530064/$c"
           [ ("dlc0001", Demo.package) ] "locked" [] [ ("weird9999", Demo.package) ]
           Demo.gameA "4d530064" "dump").
  reflexivity.
Defined.

Lemma content_id_ignores_case_witness :
  map forget_path
    (emitted (fst (Fileparse.dlcBody false "dump/4d530064/$c" Demo.gameA "dump"
                     ("DLC0001", Demo.package)))) =
  map forget_path
    (emitted (fst (Fileparse.dlcBody false "dump/4d530064/$c" Demo.gameA "dump"
                     ("dlc0001", Demo.package)))).
Proof.
  apply (content_id_ignores_case false "dump/4d530064/$c" Demo.gameA "dump"
           "DLC0001" "dlc0001" Demo.package).
  reflexivity.
Defined.

Lemma first_known_update_is_reported_and_hides_unknown_witness :
  exists bytes t_rest,
    File true "abc" = File true bytes /\
    fst (Fileparse.processUpdates false Demo.sha1 "dump/4d530064/$u"
           (Dir true ([] ++ ("a.xbe", File true "abc") :: [ ("b.xbe", File true "") ]))
           Demo.gameA "4d530064" "dump") =
    fst (Fileparse.processUpdates false Demo.sha1 "dump/4d530064/$u" (Dir true [])
           Demo.gameA "4d530064" "dump") ++
    OpHash (Join "dump/4d530064/$u" "a.xbe") ::
    Fileparse.reportKnown false Demo.gameA "4d530064" "dump" "Update 1.0"
      (Join "dump/4d530064/$u" "a.xbe") (Demo.sha1 bytes) ++ t_rest /\
    forallb (fun e => negb (is_update_unknown e)) (emitted t_rest) = true.
Proof.
  apply (first_known_update_is_reported_and_hides_unknown false Demo.sha1
           "dump/4d530064/$u" [] "a.xbe" (File true "abc")
           [ ("b.xbe", File true "") ] Demo.gameA "4d530064" "dump" "Update 1.0").
  - constructor.
  - reflexivity.
Defined.

Lemma known_update_reports_are_backed_witness :
  exists name bytes m,
    In (name, File true bytes) [ ("a.xbe", File true "abc"); ("b.xbe", File true "") ] /\
    is_xbe (name, File true bytes) = true /\
    "a9993e364706816aba3e25717850c26c9cd0d89d" = Demo.sha1 bytes /\
    In m (TitleUpdatesKnown Demo.gameA) /\
    m !! "a9993e364706816aba3e25717850c26c9cd0d89d" = Some "Update 1.0" /\
    ("4d530064/$u/a.xbe" = TrimPrefix (Join "dump/4d530064/$u" name) ("dump" +:+ "/") \/
     "4d530064/$u/a.xbe" =
       TrimPrefix (TrimPrefix (Join "dump/4d530064/$u" name) ("dump" +:+ "/"))
         ("dump" +:+ "/")).
Proof.
  apply (known_update_reports_are_backed false Demo.sha1 "dump/4d530064/$u" true
           [ ("a.xbe", File true "abc"); ("b.xbe", File true "") ]
           Demo.gameA "4d530064" "dump" "Game A" "4d530064").
  vm_compute. right. left. reflexivity.
Defined.

Lemma directory_without_known_update_is_fully_classified_witness :
  length (List.filter is_classification
            (printed (fst (Fileparse.processUpdates false Demo.sha1 "dump/4d530064/$u"
                             (Dir true Demo.unmatched) Demo.gameA "4d530064" "dump")))) =
  length (List.filter is_xbe Demo.unmatched).
Proof.
  apply (directory_without_known_update_is_fully_classified false Demo.sha1
           "dump/4d530064/$u" Demo.unmatched Demo.gameA "4d530064" "dump").
  repeat constructor.
Defined.

Lemma update_reports_reach_both_sinks_witness :
  let t := fst (Fileparse.processUpdates true Demo.sha1 "dump/4d530064/$u"
                  Demo.knownThenUnknown Demo.gameA "4d530064" "dump") in
  gui_added t = printed t.
Proof.
  apply (update_reports_reach_both_sinks Demo.sha1 "dump/4d530064/$u"
           [ ("a.xbe", File true "abc"); ("b.xbe", File true "") ]
           Demo.gameA "4d530064" "dump").
  intros f [<-|[<-|[]]]; reflexivity.
Defined.

Lemma listable_dump_is_walked_to_the_end_witness :
  let r := Fileparse.checkForContent Demo.catalog false Demo.sha1 "dump"
             (Some Demo.dumpUnrecognized) in
  snd r = None /\ In "dump/4d530064/$c/dlc0001/ContentMeta.xbx" (visited (fst r)).
Proof.
  destruct (listable_dump_is_walked_to_the_end Demo.catalog false Demo.sha1 "dump"
              Demo.dumpUnrecognized eq_refl eq_refl eq_refl) as [Hnil Hreach].
  split; [exact Hnil|]. apply Hreach.
  eapply open_below; [reflexivity|left; reflexivity|].
  eapply open_below; [reflexivity|left; reflexivity|].
  eapply open_below; [reflexivity|left; reflexivity|].
  eapply open_below; [reflexivity|left; reflexivity|].
  apply open_here.
Defined.

Lemma only_updates_of_known_titles_are_hashed_witness :
  exists q qn d,
    lives_at "dump" (Base "dump") Demo.dumpNested q qn d /\
    update_file_of Demo.catalog q qn d "dump/dump/4d530064/$u/a.xbe".
Proof.
  apply (only_updates_of_known_titles_are_hashed Demo.catalog false Demo.sha1 "dump"
           Demo.dumpNested "dump/dump/4d530064/$u/a.xbe").
  vm_compute. left. reflexivity.
Defined.

Lemma dump_without_title_directories_is_silent_witness :
  let t := fst (Fileparse.checkForContent Demo.catalog false Demo.sha1 "dump"
                  (Some Demo.dumpPlain)) in
  emitted t = [] /\ hashed t = [].
Proof.
  apply (dump_without_title_directories_is_silent Demo.catalog false Demo.sha1
           "dump" Demo.dumpPlain); reflexivity.
Defined.

Lemma update_classifier_copies_agree_without_known_update_witness :
  Part000.processUpdates Demo.sha1 "dump/4d530064/$u" (Dir true Demo.unmatched)
    Demo.gameA "4d530064" "dump" =
  Part000.returns
    (Fileparse.processUpdates false Demo.sha1 "dump/4d530064/$u"
       (Dir true Demo.unmatched) Demo.gameA "4d530064" "dump").
Proof.
  apply (update_classifier_copies_agree_without_known_update Demo.sha1
           "dump/4d530064/$u" true Demo.unmatched Demo.gameA "4d530064" "dump").
  repeat constructor.
Defined.

Lemma entries_after_first_known_update_are_ignored_witness :
  Part000.processUpdates Demo.sha1 "dump/4d530064/$u"
    (Dir true ([] ++ ("a.xbe", File true "abc") :: [ ("b.xbe", File true "") ]))
    Demo.gameA_prefixed "4d530064" "dump" =
  Part000.processUpdates Demo.sha1 "dump/4d530064/$u"
    (Dir true ([] ++ [ ("a.xbe", File true "abc") ]))
    Demo.gameA_prefixed "4d530064" "dump".
Proof.
  apply (entries_after_first_known_update_are_ignored Demo.sha1 "dump/4d530064/$u"
           [] ("a.xbe", File true "abc") [ ("b.xbe", File true "") ]
           Demo.gameA_prefixed "4d530064" "dump" "Title Update 1.0 Update 1.0").
  - constructor.
  - reflexivity.
Defined.


(** ** The first version of the program, [pinecone.go] *)

Section PineconeHelpers.
Import Pinecone.

Lemma said_app t1 t2 : said (t1 ++ t2) = said t1 ++ said t2.
Proof.
  induction t1 as [|a t1 IH]; simpl; [reflexivity|].
  destruct a; simpl; now rewrite ?IH.
Qed.

Lemma walked_app t1 t2 : walked (t1 ++ t2) = walked t1 ++ walked t2.
Proof.
  induction t1 as [|a t1 IH]; simpl; [reflexivity|].
  destruct a; simpl; now rewrite ?IH.
Qed.

Lemma digested_app t1 t2 : digested (t1 ++ t2) = digested t1 ++ digested t2.
Proof.
  induction t1 as [|a t1 IH]; simpl; [reflexivity|].
  destruct a; simpl; now rewrite ?IH.
Qed.

Lemma listings_app t1 t2 : listings (t1 ++ t2) = listings t1 ++ listings t2.
Proof.
  induction t1 as [|a t1 IH]; simpl; [reflexivity|].
  destruct a; simpl; now rewrite ?IH.
Qed.

(** The loop over [$c] prints the lines of its iterations in order, raises
    the flag when one iteration does, and leaves [subContentPath] at the
    last entry. *)
Lemma contentLoop_spec titleData subDir subContents found lst :
  contentLoop titleData subDir subContents found lst =
  (concat (map (fun e => fst (contentBody titleData subDir e)) subContents),
   found || existsb (fun e => snd (contentBody titleData subDir e)) subContents,
   match last subContents with Some e => Some e | None => lst end).
Proof.
  revert found lst.
  induction subContents as [|e rest IH]; intros found lst.
  - simpl. now rewrite orb_false_r.
  - cbn [contentLoop map concat existsb].
    destruct (contentBody titleData subDir e) as [t f] eqn:Hb.
    rewrite IH. cbn [fst snd]. rewrite orb_assoc.
    f_equal. destruct rest as [|e' rest]; [reflexivity|].
    rewrite last_cons_cons. destruct (last (e' :: rest)) eqn:Hl; [reflexivity|].
    apply last_None in Hl. discriminate.
Qed.

Lemma pinecone_walk_Dir fn path name listable entries :
  walk fn path name (Dir listable entries) =
  let err := if listable then None else Some (ErrIO path) in
  let '(t1, err1) := fn path name (Dir listable entries) err in
  if negb listable || bool_decide (err1 <> None) then
    (DoReadDir path listable :: t1, err1)
  else
    (DoReadDir path listable :: t1 ++ fst (walk_entries fn path entries),
     snd (walk_entries fn path entries)).
Proof.
  cbn [walk].
  destruct (fn path name (Dir listable entries) _) as [t1 err1].
  destruct (negb listable || bool_decide (err1 <> None)); [reflexivity|].
  assert (Heq : forall es,
    (fix walk_entries (es : list (string * node)) : list output * option error :=
       match es with
       | [] => ([], None)
       | (nm, child) :: rest =>
           match walk fn (Join path nm) nm child with
           | (t, Some e) =>
               if IsDir child && bool_decide (e = SkipDir)
               then (t ++ fst (walk_entries rest), snd (walk_entries rest))
               else (t, Some e)
           | (t, None) => (t ++ fst (walk_entries rest), snd (walk_entries rest))
           end
       end) es = walk_entries fn path es).
  { induction es as [|[nm child] rest IH]; [reflexivity|].
    cbn [walk_entries]. rewrite IH. reflexivity. }
  rewrite Heq. reflexivity.
Qed.

End PineconeHelpers.

Section PineconeWalk.
Import Pinecone.

Lemma contentWalkFn_nil titles path name n :
  snd (contentWalkFn titles path name n None) = None.
Proof. reflexivity. Qed.

Lemma updateWalkFn_nil sha1 path name n :
  snd (updateWalkFn sha1 path name n None) = None.
Proof. reflexivity. Qed.

Lemma fully_listable_cons listable nm child rest :
  fully_listable (Dir listable ((nm, child) :: rest)) =
  fully_listable child && fully_listable (Dir listable rest).
Proof.
  cbn [fully_listable]. destruct listable, (fully_listable child); reflexivity.
Qed.

Section PlainWalk.

Variable fn : string -> string -> node -> option error -> list output * option error.
Hypothesis Hnil : forall p nm n, snd (fn p nm n None) = None.
Hypothesis Herr : forall p nm n e, snd (fn p nm n (Some e)) = Some e.

Lemma pinecone_walk_entries_ends path entries :
  Forall (fun e => forall p nm, ends_by_listing (walk fn p nm (snd e)) (snd e)) entries ->
  ends_by_listing (walk_entries fn path entries) (Dir true entries).
Proof.
  induction 1 as [|[nm child] rest Hc _ IH]; [reflexivity|].
  unfold ends_by_listing in *. cbn [snd] in Hc.
  rewrite fully_listable_cons. cbn [walk_entries].
  specialize (Hc (Join path nm) nm).
  destruct (walk fn (Join path nm) nm child) as [t [e|]]; cbn [snd] in Hc.
  - destruct Hc as [Hc He].
    rewrite (bool_decide_eq_false_2 _ He), andb_false_r. cbn [snd].
    rewrite Hc. now split.
  - rewrite Hc. cbn [snd andb]. exact IH.
Qed.

Lemma pinecone_walk_ends n :
  forall path name, ends_by_listing (walk fn path name n) n.
Proof.
  induction n as [r b|listable entries IH] using node_tree_ind; intros path name.
  - unfold ends_by_listing. cbn [walk]. now rewrite Hnil.
  - rewrite pinecone_walk_Dir. cbn zeta. destruct listable.
    + pose proof (Hnil path name (Dir true entries)) as Hfn.
      destruct (fn path name (Dir true entries) None) as [t1 err1].
      cbn [snd] in Hfn. subst err1. cbn [negb orb].
      rewrite bool_decide_eq_false_2 by (intros H; now apply H).
      pose proof (pinecone_walk_entries_ends path entries IH) as He.
      unfold ends_by_listing in *. cbn [snd]. exact He.
    + pose proof (Herr path name (Dir false entries) (ErrIO path)) as Hfn.
      destruct (fn path name (Dir false entries) _) as [t1 err1].
      cbn [snd] in Hfn. subst err1. cbn [negb orb].
      unfold ends_by_listing. cbn [snd]. split; [reflexivity|discriminate].
Qed.

Lemma pinecone_walk_entries_includes path entries nm child x :
  fully_listable (Dir true entries) = true ->
  In (nm, child) entries ->
  In x (fst (walk fn (Join path nm) nm child)) ->
  In x (fst (walk_entries fn path entries)).
Proof.
  induction entries as [|[nm' c'] rest IH]; [intros _ []|].
  rewrite fully_listable_cons. intros Hfl. apply andb_true_iff in Hfl as [Hc Hrest].
  cbn [walk_entries].
  pose proof (pinecone_walk_ends c' (Join path nm') nm') as He.
  unfold ends_by_listing in He.
  destruct (walk fn (Join path nm') nm' c') as [t [e|]] eqn:E; cbn [snd] in He.
  - destruct He as [He _]. congruence.
  - cbn [fst]. intros [[= -> ->]|Hin] Hx; apply in_app_iff.
    + left. now rewrite E in Hx.
    + right. now apply IH.
Qed.

(** On a tree whose directories can all be listed, the walk function is
    called for every node, and what it does is part of the walk. *)
Lemma pinecone_walk_includes path name n q qn d x :
  lives_at path name n q qn d ->
  fully_listable n = true ->
  In x (fst (fn q qn d None)) ->
  In x (fst (walk fn path name n)).
Proof.
  induction 1 as [path name n|path name l entries nm child q qn d Hin Hl IH];
    intros Hfl Hx.
  - destruct n as [r b|l entries]; [exact Hx|].
    assert (l = true) as -> by (cbn [fully_listable] in Hfl; now destruct l).
    rewrite pinecone_walk_Dir. cbn zeta.
    pose proof (Hnil path name (Dir true entries)) as Hfn.
    destruct (fn path name (Dir true entries) None) as [t1 err1].
    cbn [snd] in Hfn. subst err1. cbn [negb orb].
    rewrite bool_decide_eq_false_2 by (intros H; now apply H).
    cbn [fst]. right. apply in_app_iff. now left.
  - assert (l = true) as -> by (cbn [fully_listable] in Hfl; now destruct l).
    rewrite pinecone_walk_Dir. cbn zeta.
    pose proof (Hnil path name (Dir true entries)) as Hfn.
    destruct (fn path name (Dir true entries) None) as [t1 err1].
    cbn [snd] in Hfn. subst err1. cbn [negb orb].
    rewrite bool_decide_eq_false_2 by (intros H; now apply H).
    cbn [fst]. right. apply in_app_iff. right.
    eapply pinecone_walk_entries_includes; [exact Hfl|exact Hin|].
    apply IH; [|exact Hx].
    exact (fully_listable_entry _ _ _ _ Hfl Hin).
Qed.

(** Whatever a walk does, it is a listing by [filepath.Walk] itself or
    the work of the walk function at a node of the tree. *)
Lemma pinecone_walk_inv n :
  forall path name x,
    In x (fst (walk fn path name n)) ->
    (exists p ok, x = DoReadDir p ok) \/
    exists q qn d err, lives_at path name n q qn d /\ In x (fst (fn q qn d err)).
Proof.
  induction n as [r b|listable entries IH] using node_tree_ind; intros path name x.
  - cbn [walk]. intros Hx. right. exists path, name, (File r b), None.
    split; [constructor|exact Hx].
  - rewrite pinecone_walk_Dir. cbn zeta.
    destruct (fn path name (Dir listable entries) _) as [t1 err1] eqn:Efn.
    assert (Ht1 : forall y, In y t1 ->
              exists q qn d err, lives_at path name (Dir listable entries) q qn d /\
                                 In y (fst (fn q qn d err))).
    { intros y Hy. eexists path, name, _, _. split; [constructor|].
      rewrite Efn. exact Hy. }
    assert (Hes : forall es,
              (forall nm child, In (nm, child) es -> In (nm, child) entries) ->
              forall y, In y (fst (walk_entries fn path es)) ->
              (exists p ok, y = DoReadDir p ok) \/
              exists q qn d err, lives_at path name (Dir listable entries) q qn d /\
                                 In y (fst (fn q qn d err))).
    { clear Ht1 Efn. intros es Hsub y. revert Hsub.
      induction es as [|[nm child] rest IHes]; intros Hsub; [intros []|].
      cbn [walk_entries].
      assert (Hchild : In y (fst (walk fn (Join path nm) nm child)) ->
                (exists p ok, y = DoReadDir p ok) \/
                exists q qn d err, lives_at path name (Dir listable entries) q qn d /\
                                   In y (fst (fn q qn d err))).
      { intros Hy. rewrite Forall_forall in IH.
        destruct (IH (nm, child)
                    (proj2 (list_elem_of_In _ _) (Hsub nm child (or_introl eq_refl)))
                    (Join path nm) nm y Hy) as [Hl|(q & qn & d & err & Hlv & Hq)];
          [now left|right].
        exists q, qn, d, err. split; [|exact Hq].
        eapply lives_below; [apply (Hsub nm child); now left|exact Hlv]. }
      assert (Hrest : In y (fst (walk_entries fn path rest)) ->
                (exists p ok, y = DoReadDir p ok) \/
                exists q qn d err, lives_at path name (Dir listable entries) q qn d /\
                                   In y (fst (fn q qn d err))).
      { apply IHes. intros nm' c' Hin'. apply Hsub. now right. }
      destruct (walk fn (Join path nm) nm child) as [t [e|]]; cbn [fst] in Hchild.
      - destruct (IsDir child && bool_decide (e = SkipDir)); cbn [fst].
        + intros Hy. apply in_app_iff in Hy as [Hy|Hy]; auto.
        + auto.
      - cbn [fst]. intros Hy. apply in_app_iff in Hy as [Hy|Hy]; auto. }
    destruct (negb listable || bool_decide (err1 <> None)); cbn [fst].
    + intros [<-|Hx]; [left; eauto|right; auto].
    + intros [<-|Hx]; [left; eauto|].
      apply in_app_iff in Hx as [Hx|Hx]; [right; auto|].
      apply (Hes entries); auto.
Qed.

End PlainWalk.

End PineconeWalk.

Section PineconeMain.
Import Pinecone.

Variable titles : gmap string TitleData.
Variable sha1 : string -> string.

Lemma digested_In t p : In p (digested t) <-> In (DoHash p) t.
Proof.
  induction t as [|a t IH]; [reflexivity|].
  destruct a; cbn [digested In]; rewrite IH; split;
    try (intros [H|H]; [discriminate H|now auto]); try (intros H; now right);
    try tauto.
  - intros [->|H]; auto.
  - intros [[= ->]|H]; auto.
Qed.

Lemma said_In t l : In l (said t) <-> In (Say l) t.
Proof.
  induction t as [|a t IH]; [reflexivity|].
  destruct a; cbn [said In]; rewrite IH; split;
    try (intros [H|H]; [discriminate H|now auto]); try (intros H; now right);
    try tauto.
  - intros [->|H]; auto.
  - intros [[= ->]|H]; auto.
Qed.

Lemma listings_says t : (forall x, In x t -> exists l, x = Say l) -> listings t = [].
Proof.
  induction t as [|a t IH]; [reflexivity|]. intros H.
  destruct (H a (or_introl eq_refl)) as [l ->]. cbn [listings].
  apply IH. intros x Hx. apply H. now right.
Qed.

Lemma contentBody_says td subDir e x :
  In x (fst (contentBody td subDir e)) -> exists l, x = Say l.
Proof.
  destruct e as [name n]. unfold contentBody.
  destruct (IsDir n); [|intros []].
  destruct (contains (ContentIDs td) (ToLower name)).
  - destruct (contains (Archived td) (ToLower (ToLower name))).
    + intros [<-|[]]; eauto.
    + destruct (negb _); intros [<-|[]]; eauto.
  - intros [<-|[]]; eauto.
Qed.

Lemma contentLoop_says td subDir es x :
  In x (concat (map (fun e => fst (contentBody td subDir e)) es)) ->
  exists l, x = Say l.
Proof.
  intros Hx. apply in_concat in Hx as (t & Ht & Hx).
  apply in_map_iff in Ht as (e & <- & _). eapply contentBody_says, Hx.
Qed.

Lemma nameFiles_says files x : In x (nameFiles files) -> exists l, x = Say l.
Proof.
  induction files as [|[name f] rest IH]; [intros []|].
  cbn [nameFiles]. intros [<-|Hx]; eauto.
Qed.

End PineconeMain.

Section PineconeContent.
Import Pinecone.

Variable titles : gmap string TitleData.

(** X22: in [main] of pinecone.go the second search of the archive list
    never decides anything.  For a directory of [$c] whose lower-cased
    name the catalog lists, the first test alone tells archived from
    unarchived content: the loop that sets [isArchived] compares the same
    lower-cased name with the same list, so its [else] branch is never
    taken. *)
Theorem archive_fallback_search_never_fires
    (titleData : TitleData) (subDir name : string) (n : node) :
  IsDir n = true ->
  contains (ContentIDs titleData) (ToLower name) = true ->
  contentBody titleData subDir (name, n) =
  if contains (Archived titleData) (ToLower name)
  then ([Say (ContentIsArchived (TitleName titleData) (subDir +:+ "/" +:+ name))], false)
  else ([Say (ContentHasUnarchived (TitleName titleData) (subDir +:+ "/" +:+ name))], true).
Proof.
  intros Hd Hc. unfold contentBody. cbn zeta. rewrite Hd, Hc.
  rewrite ToLower_idem.
  change (isArchivedIn (Archived titleData) (ToLower name))
    with (contains (Archived titleData) (ToLower name)).
  destruct (contains (Archived titleData) (ToLower name)); reflexivity.
Qed.

Lemma contentBody_zero subDir e :
  contentBody zeroTitleData subDir e =
  (if IsDir (snd e)
   then [Say (ContentIsUnknown "" (subDir +:+ "/" +:+ fst e))] else [], false).
Proof.
  destruct e as [name n]. unfold contentBody. cbn [fst snd].
  destruct (IsDir n); reflexivity.
Qed.

Lemma contentLoop_zero subDir es :
  existsb (fun e => snd (contentBody zeroTitleData subDir e)) es = false /\
  said (concat (map (fun e => fst (contentBody zeroTitleData subDir e)) es)) =
  map (fun e => ContentIsUnknown "" (subDir +:+ "/" +:+ fst e))
    (List.filter (fun e => IsDir (snd e)) es).
Proof.
  induction es as [|e rest [IH1 IH2]]; [split; reflexivity|].
  cbn [existsb map concat List.filter]. rewrite said_app, IH1, IH2.
  rewrite contentBody_zero. cbn [fst snd orb].
  split; [reflexivity|]. destruct (IsDir (snd e)); reflexivity.
Qed.

(** X23: a directory with an 8-byte name that the catalog of pinecone.go
    does not know is not skipped.  The first traversal prints that the
    title is missing from the catalog, then reports every directory of
    its [$c] as unknown content under an empty title name (the zero
    [TitleData]), lists nothing but [$c], and returns [nil], so that the
    walk descends into the directory. *)
Theorem unknown_title_content_is_all_unknown
    (path name : string) (n : node) (subContents : list (string * node)) :
  IsDir n = true ->
  String.length name = 8 ->
  titles !! ToLower name = None ->
  stat_child n "$c" = Some (Dir true subContents) ->
  let r := contentWalkFn titles path name n None in
  said (fst r) =
    NotInJSON (ToLower name) ::
    map (fun e => ContentIsUnknown "" (Join path "$c" +:+ "/" +:+ fst e))
      (List.filter (fun e => IsDir (snd e)) subContents) /\
  listings (fst r) = [Join path "$c"] /\
  snd r = None.
Proof.
  intros Hd Hlen Hnone Hc. cbn zeta. unfold contentWalkFn.
  rewrite Hd, Hlen, Hnone, Hc. cbn [Nat.eqb IsDir ReadDir default from_option id].
  rewrite contentLoop_spec.
  destruct (contentLoop_zero (Join path "$c") subContents) as [Hf Hs].
  rewrite Hf. cbn [orb fst snd said listings]. rewrite app_nil_r.
  split; [now rewrite Hs|]. split; [|reflexivity].
  f_equal. apply listings_says. apply contentLoop_says.
Qed.

(** X24: when some directory of [$c] holds unarchived content, the
    directory that [main] of pinecone.go lists afterwards, to name its
    files, is the last entry of [$c], whichever entry was unarchived:
    [subContentPath] is assigned in every iteration of the loop and read
    after it.  When that last entry cannot be listed (it is a file, say)
    the error is printed in place of file names. *)
Theorem files_named_are_those_of_last_content_entry
    (path name : string) (n : node) (titleData : TitleData)
    (es : list (string * node)) (lastName : string) (lastNode : node)
    (nm : string) (d : node) :
  IsDir n = true ->
  String.length name = 8 ->
  titles !! ToLower name = Some titleData ->
  stat_child n "$c" = Some (Dir true (es ++ [(lastName, lastNode)])) ->
  In (nm, d) (es ++ [(lastName, lastNode)]) ->
  IsDir d = true ->
  contains (ContentIDs titleData) (ToLower nm) = true ->
  contains (Archived titleData) (ToLower nm) = false ->
  let t := fst (contentWalkFn titles path name n None) in
  let lastPath := Join path "$c" +:+ "/" +:+ lastName in
  listings t = [Join path "$c"; lastPath] /\
  exists t',
    said t = FoundFolder (TitleName titleData) :: t' ++
             match ReadDir lastPath lastNode with
             | inl files => said (nameFiles files)
             | inr e => [PrintedError e]
             end.
Proof.
  intros Hd Hlen Hsome Hc Hin Hdd Hknown Harch. cbn zeta. unfold contentWalkFn.
  rewrite Hd, Hlen, Hsome, Hc. cbn [Nat.eqb IsDir ReadDir default from_option id].
  rewrite contentLoop_spec.
  assert (Hfound : existsb (fun e => snd (contentBody titleData (Join path "$c") e))
                     (es ++ [(lastName, lastNode)]) = true).
  { apply existsb_exists. exists (nm, d). split; [exact Hin|].
    unfold contentBody. cbn zeta. rewrite Hdd, Hknown, ToLower_idem, Harch.
    change (isArchivedIn (Archived titleData) (ToLower nm))
      with (contains (Archived titleData) (ToLower nm)).
    rewrite Harch. reflexivity. }
  rewrite Hfound, last_snoc. cbn [orb fst snd].
  set (loop := concat (map _ (es ++ [(lastName, lastNode)]))).
  assert (Hloop : forall x, In x loop -> exists l, x = Say l)
    by (intros x; apply contentLoop_says).
  split.
  - cbn [listings]. rewrite listings_app, (listings_says loop Hloop). cbn [app].
    destruct lastNode as [r b|[] files]; cbn [ReadDir listings]; try reflexivity.
    now rewrite (listings_says (nameFiles files)) by apply nameFiles_says.
  - exists (said loop). cbn [said]. rewrite said_app. do 2 f_equal.
    destruct lastNode as [r b|[] files]; reflexivity.
Qed.

End PineconeContent.

Section PineconeTraversals.
Import Pinecone.

Variable titles : gmap string TitleData.
Variable sha1 : string -> string.

Lemma contentWalkFn_no_hash path name n err p :
  ~ In (DoHash p) (fst (contentWalkFn titles path name n err)).
Proof.
  assert (Hsay : forall t, (forall x, In x t -> exists l, x = Say l) ->
                           ~ In (DoHash p) t).
  { intros t Ht Hin. destruct (Ht _ Hin) as [l [=]]. }
  unfold contentWalkFn. destruct err as [e|]; cbn [fst].
  { intros [[=]|[]]. }
  intros [[=]|Hin]. revert Hin.
  destruct (IsDir n); [|intros []].
  destruct ((String.length name =? 8)%nat); [|intros []].
  intros [[=]|[[=]|Hin]]. revert Hin.
  destruct (stat_child n "$c") as [subInfo|]; [|intros []].
  destruct (IsDir subInfo); [|intros []].
  destruct (ReadDir (Join path "$c") subInfo) as [subContents|e].
  - rewrite contentLoop_spec. intros [[=]|Hin].
    apply in_app_iff in Hin as [Hin|Hin].
    + revert Hin. apply Hsay. intros x. apply contentLoop_says.
    + revert Hin. destruct (_ || _); [|intros []].
      destruct (last subContents) as [[nm sub]|]; [|intros []].
      destruct (ReadDir _ sub) as [files|e].
      * intros [[=]|Hin]. revert Hin. apply Hsay. intros x. apply nameFiles_says.
      * intros [[=]|[[=]|[]]].
  - intros [[=]|[]].
Qed.

Lemma hashLoop_hash subDir files p :
  In (DoHash p) (hashLoop sha1 subDir files) <->
  exists nm f, In (nm, f) files /\ Ext nm = ".xbe" /\ p = Join subDir nm.
Proof.
  induction files as [|[name f] rest IH].
  - split; [intros []|intros (? & ? & [] & _)].
  - cbn [hashLoop]. rewrite in_app_iff, IH. split.
    + intros [Hin|(nm & f' & Hin & Hext & ->)].
      * destruct (String.eqb_spec (Ext name) ".xbe") as [Hext|Hext]; [|destruct Hin].
        destruct Hin as [[= <-]|Hin];
          [exists name, f; split; [now left|split; [exact Hext|reflexivity]]|].
        destruct (getSHA1Hash sha1 _ f); destruct Hin as [[=]|[]].
      * exists nm, f'. split; [now right|split; [exact Hext|reflexivity]].
    + intros (nm & f' & [[= -> ->]|Hin] & Hext & ->).
      * left. rewrite Hext. cbn [String.eqb Ascii.eqb Bool.eqb]. now left.
      * right. exists nm, f'. auto.
Qed.

Lemma updateWalkFn_hash q qn d err p :
  In (DoHash p) (fst (updateWalkFn sha1 q qn d err)) ->
  HasPrefix qn "4" = true /\ String.length qn = 8 /\
  exists files nm f,
    stat_child d "$u" = Some (Dir true files) /\
    In (nm, f) files /\ Ext nm = ".xbe" /\ p = Join (Join q "$u") nm.
Proof.
  unfold updateWalkFn. destruct err as [e|]; cbn [fst].
  { intros [[=]|[]]. }
  intros [[=]|Hin]. revert Hin.
  destruct (IsDir d); [|intros []].
  destruct (HasPrefix qn "4") eqn:Hp; [|intros []].
  destruct (Nat.eqb_spec (String.length qn) 8) as [Hlen|]; [|intros []].
  cbn [andb]. intros [[=]|Hin]. revert Hin.
  destruct (stat_child d "$u") as [[r b|[] files]|]; cbn [IsDir ReadDir].
  - intros [].
  - intros [[=]|Hin]. apply hashLoop_hash in Hin as (nm & f & Hin & Hext & ->).
    repeat split; try assumption. exists files, nm, f. auto.
  - intros [[=]|[[=]|[]]].
  - intros [].
Qed.

Lemma updateWalkFn_hashes q qn d files nm f :
  HasPrefix qn "4" = true -> String.length qn = 8 ->
  stat_child d "$u" = Some (Dir true files) ->
  In (nm, f) files -> Ext nm = ".xbe" ->
  In (DoHash (Join (Join q "$u") nm)) (fst (updateWalkFn sha1 q qn d None)).
Proof.
  intros Hp Hlen Hu Hin Hext. unfold updateWalkFn.
  assert (IsDir d = true) as ->
    by (destruct d; [discriminate Hu|reflexivity]).
  rewrite Hp, Hlen, Hu. cbn [andb Nat.eqb IsDir ReadDir fst].
  right. right. right. apply hashLoop_hash. exists nm, f. auto.
Qed.

Lemma mainTraversals_trace n :
  fst (mainTraversals titles sha1 (Some n)) =
  Say TraversingContent ::
  fst (walk (contentWalkFn titles) "TDATA" "TDATA" n) ++
  Say TraversingUpdates ::
  fst (walk (updateWalkFn sha1) "TDATA" "TDATA" n).
Proof.
  unfold mainTraversals, Walk. change (Base "TDATA") with "TDATA".
  destruct (walk (contentWalkFn titles) "TDATA" "TDATA" n) as [t1 e1].
  destruct (walk (updateWalkFn sha1) "TDATA" "TDATA" n) as [t2 e2].
  reflexivity.
Qed.

(** X25: [main] of pinecone.go, once the catalog is loaded, ends without a
    panic exactly when [TDATA] exists and every directory in it can be
    listed.  Neither walk function ever returns an error of its own or
    [filepath.SkipDir], so no directory is skipped; the error of the first
    traversal is overwritten, and the second traversal meets the same
    unlistable directory and makes [main] panic. *)
Theorem main_finishes_iff_every_directory_is_listable (tdata : option node) :
  snd (mainTraversals titles sha1 tdata) = Finished <->
  exists n, tdata = Some n /\ fully_listable n = true.
Proof.
  unfold mainTraversals, Walk. change (Base "TDATA") with "TDATA".
  destruct tdata as [n|].
  - pose proof (pinecone_walk_ends (updateWalkFn sha1)
                  (updateWalkFn_nil sha1) (fun _ _ _ _ => eq_refl) n
                  "TDATA" "TDATA") as He.
    unfold ends_by_listing in He.
    destruct (walk (contentWalkFn titles) "TDATA" "TDATA" n) as [t1 e1].
    destruct (walk (updateWalkFn sha1) "TDATA" "TDATA" n) as [t2 [e|]];
      cbn [snd] in *.
    + destruct He as [Hfl Hne]. split.
      * destruct e; try discriminate. now destruct Hne.
      * intros (n' & [= <-] & Hfl'). congruence.
    + split; [eauto|reflexivity].
  - cbn. split; [discriminate|]. intros (n & [=] & _).
Qed.

(** X26: the files that [main] of pinecone.go hashes are the entries with
    a name ending in [.xbe] of the [$u] directories of the directories
    whose name has 8 bytes and starts with [4]: nothing else is ever
    hashed, whatever the catalog holds, and when every directory of
    [TDATA] can be listed each of them is. *)
Theorem hashes_exactly_the_title_update_files (n : node) (p : string) :
  (In p (digested (fst (mainTraversals titles sha1 (Some n)))) ->
   title_update_file "TDATA" "TDATA" n p) /\
  (fully_listable n = true ->
   title_update_file "TDATA" "TDATA" n p ->
   In p (digested (fst (mainTraversals titles sha1 (Some n))))).
Proof.
  rewrite mainTraversals_trace. split.
  - intros Hin. apply digested_In in Hin. destruct Hin as [[=]|Hin].
    apply in_app_iff in Hin as [Hin|[[=]|Hin]].
    + apply pinecone_walk_inv in Hin
        as [(q & ok & [=])|(q & qn & d & err & _ & Hin)].
      now apply contentWalkFn_no_hash in Hin.
    + apply pinecone_walk_inv in Hin
        as [(q & ok & [=])|(q & qn & d & err & Hlv & Hin)].
      apply updateWalkFn_hash in Hin
        as (Hp & Hlen & files & nm & f & Hu & Hf & Hext & ->).
      exists q, qn, d, files, nm, f. auto 10.
  - intros Hfl (q & qn & d & files & nm & f & Hlv & Hp & Hlen & Hu & Hf & Hext & ->).
    apply digested_In. right. apply in_app_iff. right. right.
    eapply pinecone_walk_includes;
      [apply updateWalkFn_nil|reflexivity|exact Hlv|exact Hfl|].
    eapply updateWalkFn_hashes; eauto.
Qed.

(** X27: when every directory of [TDATA] can be listed, the first
    traversal of pinecone.go gives its verdict on every directory with an
    8-byte name, wherever it lies, also beneath a directory that the
    catalog does not know: the title's name when the catalog has the
    lower-cased directory name, and the notice that it is missing
    otherwise. *)
Theorem every_title_shaped_directory_gets_a_verdict
    (n : node) (q qn : string) (d : node) :
  fully_listable n = true ->
  lives_at "TDATA" "TDATA" n q qn d ->
  IsDir d = true ->
  String.length qn = 8 ->
  In (match titles !! ToLower qn with
      | Some titleData => FoundFolder (TitleName titleData)
      | None => NotInJSON (ToLower qn)
      end)
     (said (fst (mainTraversals titles sha1 (Some n)))).
Proof.
  intros Hfl Hlv Hd Hlen. rewrite mainTraversals_trace.
  apply said_In. right. apply in_app_iff. left.
  eapply pinecone_walk_includes;
    [apply contentWalkFn_nil|reflexivity|exact Hlv|exact Hfl|].
  unfold contentWalkFn. rewrite Hd, Hlen. cbn [Nat.eqb fst].
  right. left. destruct (titles !! ToLower qn); reflexivity.
Qed.

End PineconeTraversals.

Section PineconeComments.
Import Pinecone.

Lemma string_app_nil_r (s : string) : s +:+ "" = s.
Proof. induction s as [|c s IH]; push_app; [reflexivity|now rewrite IH]. Qed.

Lemma Contains_cons c s sub :
  Contains (String c s) sub = HasPrefix (String c s) sub || Contains s sub.
Proof. reflexivity. Qed.

Lemma Contains_suffix a b sub : Contains (a +:+ b) sub = false -> Contains b sub = false.
Proof.
  induction a as [|c a IH]; push_app; [auto|].
  rewrite Contains_cons. intros H. apply orb_false_iff in H as [_ H]. auto.
Qed.

Lemma Contains_app_r a b sub : Contains b sub = true -> Contains (a +:+ b) sub = true.
Proof.
  intros H. destruct (Contains (a +:+ b) sub) eqn:E; [reflexivity|].
  apply Contains_suffix in E. congruence.
Qed.

Lemma has_byte_no_double_slash s :
  has_byte "/"%char s = false -> Contains s "//" = false.
Proof.
  induction s as [|c s IH]; [reflexivity|].
  cbn [has_byte]. intros H. apply orb_false_iff in H as [Hc Hs].
  rewrite Contains_cons, (IH Hs), orb_false_r. cbn [HasPrefix]. now rewrite Hc.
Qed.

(** The first pass leaves a text without [//] as it is. *)
Lemma replaceLineComments_plain filler s :
  Contains s "//" = false ->
  (forall blanks,
      replaceLineComments filler (LineStart blanks) s = blanks +:+ s) /\
  replaceLineComments filler InLine s = s.
Proof.
  induction s as [|c s IH]; intros Hs.
  - split; [intros blanks; cbn; symmetry; apply string_app_nil_r|reflexivity].
  - rewrite Contains_cons in Hs. apply orb_false_iff in Hs as [Hp Hs].
    destruct (IH Hs) as [IH1 IH2]. split.
    + intros blanks. cbn [replaceLineComments].
      destruct (is_blank c).
      { rewrite IH1, string_app_assoc. now push_app. }
      destruct (Ascii.eqb_spec c "/"%char) as [->|Hc].
      { destruct s as [|c2 s']; [reflexivity|].
        cbn [HasPrefix] in Hp. cbn [Ascii.eqb Bool.eqb andb] in Hp.
        destruct (Ascii.eqb c2 "/") eqn:E2.
        - exfalso. rewrite Ascii.eqb_sym in E2.
          change (Ascii.eqb "/" c2 && true = false) in Hp.
          rewrite E2 in Hp. discriminate.
        - now rewrite IH2. }
      destruct (is_newline c).
      * now rewrite IH1, app_nil_string.
      * now rewrite IH2.
    + cbn [replaceLineComments]. destruct (is_newline c).
      * now rewrite IH1, app_nil_string.
      * now rewrite IH2.
Qed.

(** The second pass copies what comes before the first slash. *)
Lemma replaceBlockComments_plain_prefix filler w s :
  has_byte "/"%char w = false ->
  replaceBlockComments filler false (w +:+ s) =
  w +:+ replaceBlockComments filler false s.
Proof.
  induction w as [|c w IH]; [now push_app|].
  cbn [has_byte]. intros H. apply orb_false_iff in H as [Hc Hw].
  push_app. cbn [replaceBlockComments].
  rewrite Ascii.eqb_sym in Hc. rewrite Hc. cbn [andb].
  destruct (w +:+ s) as [|c2 s''] eqn:E.
  - rewrite <- (IH Hw). reflexivity.
  - rewrite <- (IH Hw). reflexivity.
Qed.

Lemma replaceBlockComments_plain filler s :
  has_byte "/"%char s = false -> replaceBlockComments filler false s = s.
Proof.
  intros H.
  pose proof (replaceBlockComments_plain_prefix filler s "" H) as Hp.
  cbn [replaceBlockComments] in Hp. rewrite !string_app_nil_r in Hp. exact Hp.
Qed.

(** Inside a matched line the first pass drops everything up to and
    including the newline. *)
Lemma replaceLineComments_in_comment filler c rest :
  has_byte "010"%char c = false ->
  replaceLineComments filler InComment (c +:+ String "010" rest) =
  replaceLineComments filler (LineStart "") rest.
Proof.
  induction c as [|a c IH]; [reflexivity|].
  cbn [has_byte]. intros H. apply orb_false_iff in H as [Ha Hc].
  push_app. cbn [replaceLineComments]. unfold is_newline.
  rewrite Ascii.eqb_sym in Ha. rewrite Ha. auto.
Qed.

Lemma replaceLineComments_at_comment filler b c rest :
  all_bytes is_blank b = true ->
  has_byte "010"%char c = false ->
  forall blanks,
    replaceLineComments filler (LineStart blanks)
      (b +:+ "//" +:+ c +:+ String "010" rest) =
    filler +:+ replaceLineComments filler (LineStart "") rest.
Proof.
  intros Hb Hc. induction b as [|a b IH]; intros blanks.
  - push_app. cbn [replaceLineComments is_blank Ascii.eqb Bool.eqb orb].
    now rewrite replaceLineComments_in_comment.
  - cbn [all_bytes] in Hb. apply andb_true_iff in Hb as [Ha Hb].
    push_app. cbn [replaceLineComments]. rewrite Ha. auto.
Qed.

(** Inside a block the second pass drops everything up to and including
    the first [*/]. *)
Lemma replaceBlockComments_in_block filler c rest :
  Contains c "*/" = false ->
  replaceBlockComments filler true (c +:+ "*/" +:+ rest) =
  replaceBlockComments filler false rest.
Proof.
  induction c as [|a c IH]; [reflexivity|].
  rewrite Contains_cons. intros H. apply orb_false_iff in H as [Hp Hc].
  push_app. cbn [replaceBlockComments].
  destruct c as [|c2 c'].
  - push_app. cbn [HasPrefix] in Hp.
    change (replaceBlockComments filler true ("*/" +:+ rest))
      with (replaceBlockComments filler false rest).
    destruct (Ascii.eqb a "*"); reflexivity.
  - push_app. cbn [HasPrefix] in Hp.
    assert (Hno : Ascii.eqb a "*" && Ascii.eqb c2 "/" = false).
    { rewrite (Ascii.eqb_sym a), (Ascii.eqb_sym c2).
      destruct (Ascii.eqb "*" a); [|reflexivity].
      destruct (Ascii.eqb "/" c2); [discriminate Hp|reflexivity]. }
    rewrite Hno. specialize (IH Hc). push_app. exact IH.
Qed.

(** X28: [removeCommentsFromJSON] returns a text without a slash as it
    is: neither expression matches anywhere. *)
Theorem text_without_slash_is_unchanged (jsonStr : string) :
  has_byte "/"%char jsonStr = false ->
  removeCommentsFromJSON jsonStr = jsonStr.
Proof.
  intros H. unfold removeCommentsFromJSON.
  destruct (replaceLineComments_plain "oopsie doodle" jsonStr
              (has_byte_no_double_slash _ H)) as [H1 _].
  rewrite H1, app_nil_string. now apply replaceBlockComments_plain.
Qed.

(** X29: [removeCommentsFromJSON] does not remove a [//] comment line, it
    puts the text [oopsie doodle] in its place.  A line of blanks and
    tabs, two slashes and any text is replaced together with its newline,
    so that the filler is followed at once by what the next line becomes. *)
Theorem line_comment_becomes_filler_text (blanks comment rest : string) :
  all_bytes is_blank blanks = true ->
  has_byte "010"%char comment = false ->
  removeCommentsFromJSON (blanks +:+ "//" +:+ comment +:+ String "010" rest) =
  "oopsie doodle" +:+ removeCommentsFromJSON rest.
Proof.
  intros Hb Hc. unfold removeCommentsFromJSON.
  rewrite replaceLineComments_at_comment by assumption.
  now rewrite replaceBlockComments_plain_prefix by reflexivity.
Qed.

(** X30: in a text without [//], [removeCommentsFromJSON] puts the text
    [wtf is this] in the place of the first block comment: what comes
    before the first slash is kept, the bytes from [/*] to the first [*/]
    after it are replaced, across lines as well, and the rest is treated
    in the same way. *)
Theorem block_comment_becomes_filler_text (before comment rest : string) :
  Contains (before +:+ "/*" +:+ comment +:+ "*/" +:+ rest) "//" = false ->
  has_byte "/"%char before = false ->
  Contains comment "*/" = false ->
  removeCommentsFromJSON (before +:+ "/*" +:+ comment +:+ "*/" +:+ rest) =
  before +:+ "wtf is this" +:+ removeCommentsFromJSON rest.
Proof.
  intros Hs Hb Hc. unfold removeCommentsFromJSON.
  destruct (replaceLineComments_plain "oopsie doodle" _ Hs) as [H1 _].
  rewrite H1, app_nil_string. clear H1.
  assert (Hrest : Contains rest "//" = false).
  { do 4 apply Contains_suffix in Hs. exact Hs. }
  destruct (replaceLineComments_plain "oopsie doodle" _ Hrest) as [H1 _].
  rewrite H1, app_nil_string. clear H1.
  rewrite replaceBlockComments_plain_prefix by assumption. f_equal.
  push_app. cbn [replaceBlockComments Ascii.eqb Bool.eqb andb].
  rewrite (Contains_app_r comment (String "*" (String "/" rest)) "*/")
    by reflexivity.
  change (String "*" (String "/" rest)) with ("*/" +:+ rest).
  now rewrite replaceBlockComments_in_block.
Qed.

End PineconeComments.

(** ** The properties of [pinecone.go] at the demonstration [TDATA] *)

Lemma archive_fallback_search_never_fires_witness :
  Pinecone.contentBody Demo.pineGameA "TDATA/4D530064/$c"
    ("BBBB000000000002", Dir true [ ("default.xbe", File true "abc") ]) =
  ([Pinecone.Say
      (Pinecone.ContentHasUnarchived "Game A"
         "TDATA/4D530064/$c/BBBB000000000002")], true).
Proof.
  apply (archive_fallback_search_never_fires Demo.pineGameA "TDATA/4D530064/$c"
           "BBBB000000000002" (Dir true [ ("default.xbe", File true "abc") ]));
    reflexivity.
Defined.

Lemma unknown_title_content_is_all_unknown_witness :
  let r := Pinecone.contentWalkFn Demo.pineCatalog "TDATA/FFFFFFFF" "FFFFFFFF"
             Demo.pineUnknownDir None in
  Pinecone.said (fst r) =
    [ Pinecone.NotInJSON "ffffffff";
      Pinecone.ContentIsUnknown "" "TDATA/FFFFFFFF/$c/CCCC000000000001" ] /\
  Pinecone.listings (fst r) = ["TDATA/FFFFFFFF/$c"] /\
  snd r = None.
Proof.
  apply (unknown_title_content_is_all_unknown Demo.pineCatalog "TDATA/FFFFFFFF"
           "FFFFFFFF" Demo.pineUnknownDir Demo.pineUnknownContent);
    reflexivity.
Defined.

Lemma files_named_are_those_of_last_content_entry_witness :
  let t := fst (Pinecone.contentWalkFn Demo.pineCatalog "TDATA/4D530064" "4D530064"
                  Demo.pineTitleDir None) in
  Pinecone.listings t =
    ["TDATA/4D530064/$c"; "TDATA/4D530064/$c/ZZZZ000000000003"] /\
  exists t',
    Pinecone.said t =
    Pinecone.FoundFolder "Game A" :: t' ++ [Pinecone.FoundUnknownFile "save.bin"].
Proof.
  apply (files_named_are_those_of_last_content_entry Demo.pineCatalog
           "TDATA/4D530064" "4D530064" Demo.pineTitleDir Demo.pineGameA
           Demo.pineContent "ZZZZ000000000003"
           (Dir true [ ("save.bin", File true "") ])
           "BBBB000000000002" (Dir true [ ("default.xbe", File true "abc") ]));
    try reflexivity.
  right. left. reflexivity.
Defined.

Lemma hashes_exactly_the_title_update_files_witness :
  In "TDATA/4D530064/$u/default.xbe"
    (Pinecone.digested
       (fst (Pinecone.mainTraversals Demo.pineCatalog Demo.sha1
               (Some Demo.pineTDATA)))) /\
  title_update_file "TDATA" "TDATA" Demo.pineTDATA "TDATA/4D530064/$u/default.xbe".
Proof.
  destruct (hashes_exactly_the_title_update_files Demo.pineCatalog Demo.sha1
              Demo.pineTDATA "TDATA/4D530064/$u/default.xbe") as [Honly _].
  split; [|apply Honly]; vm_compute; left; reflexivity.
Defined.

Lemma every_title_shaped_directory_gets_a_verdict_witness :
  In (Pinecone.NotInJSON "ffffffff")
    (Pinecone.said
       (fst (Pinecone.mainTraversals Demo.pineCatalog Demo.sha1
               (Some Demo.pineTDATA)))).
Proof.
  apply (every_title_shaped_directory_gets_a_verdict Demo.pineCatalog Demo.sha1
           Demo.pineTDATA "TDATA/FFFFFFFF" "FFFFFFFF" Demo.pineUnknownDir);
    try reflexivity.
  eapply (lives_below "TDATA" "TDATA" true _ "FFFFFFFF" Demo.pineUnknownDir).
  - right. left. reflexivity.
  - apply lives_here.
Defined.

Lemma text_without_slash_is_unchanged_witness :
  Pinecone.removeCommentsFromJSON "[1, 2]" = "[1, 2]".
Proof.
  apply (text_without_slash_is_unchanged "[1, 2]"). reflexivity.
Defined.

Lemma line_comment_becomes_filler_text_witness :
  Pinecone.removeCommentsFromJSON ("  // titles" +:+ String "010" "[1, 2]") =
  "oopsie doodle[1, 2]".
Proof.
  apply (line_comment_becomes_filler_text "  " " titles" "[1, 2]"); reflexivity.
Defined.

Lemma block_comment_becomes_filler_text_witness :
  Pinecone.removeCommentsFromJSON "[1, /* two */ 3]" = "[1, wtf is this 3]".
Proof.
  apply (block_comment_becomes_filler_text "[1, " " two " " 3]"); reflexivity.
Defined.

(** ** Names that differ in letter case only *)

Section CaseOfNames.
Variable titles : Catalog.
Variable guiEnabled : bool.
Variable sha1 : string -> string.

Lemma outcome_of_and_then (r k : run) :
  outcome_of (r ;;; k) = outcome_of r ;;; outcome_of k.
Proof.
  destruct r as [t [e|]]; unfold outcome_of; cbn [and_then fst snd option_map];
    [reflexivity|]. now rewrite map_app.
Qed.

Lemma outcome_of_same_and_then (r1 r2 k1 k2 : run) :
  outcome_of r1 = outcome_of r2 -> outcome_of k1 = outcome_of k2 ->
  outcome_of (r1 ;;; k1) = outcome_of (r2 ;;; k2).
Proof. intros H1 H2. now rewrite !outcome_of_and_then, H1, H2. Qed.

Lemma pathless_report e1 e2 :
  pathless e1 = pathless e2 ->
  map pathless_action (Fileparse.report guiEnabled e1) =
  map pathless_action (Fileparse.report guiEnabled e2).
Proof.
  intros H. unfold Fileparse.report.
  destruct guiEnabled; cbn [map app pathless_action]; now rewrite H.
Qed.

Lemma pathless_logOutput e1 e2 :
  pathless e1 = pathless e2 ->
  map pathless_action (Fileparse.logOutput guiEnabled e1) =
  map pathless_action (Fileparse.logOutput guiEnabled e2).
Proof.
  intros H. unfold Fileparse.logOutput.
  destruct guiEnabled; cbn [map pathless_action]; now rewrite H.
Qed.

Lemma dlcBody_pathless sub1 sub2 titleData directory subContent :
  outcome_of (Fileparse.dlcBody guiEnabled sub1 titleData directory subContent) =
  outcome_of (Fileparse.dlcBody guiEnabled sub2 titleData directory subContent).
Proof.
  destruct subContent as [name [r b|[] contents]];
    cbn [Fileparse.dlcBody IsDir negb ReadDir]; try reflexivity.
  apply outcome_of_same_and_then; [reflexivity|].
  destruct (negb (Fileparse.hasContentMetaXbx contents)); [reflexivity|].
  destruct (negb (contains (ContentIDs titleData) (ToLower name)));
    [|destruct (negb (String.eqb _ ""))];
    unfold outcome_of, act; cbn [fst snd option_map]; f_equal;
    now apply pathless_report.
Qed.

Lemma dlcLoop_pathless sub1 sub2 titleData directory subContents :
  outcome_of (Fileparse.dlcLoop guiEnabled sub1 titleData directory subContents) =
  outcome_of (Fileparse.dlcLoop guiEnabled sub2 titleData directory subContents).
Proof.
  induction subContents as [|c rest IH]; [reflexivity|].
  cbn [Fileparse.dlcLoop].
  apply outcome_of_same_and_then; [apply dlcBody_pathless|exact IH].
Qed.

Lemma processDLCContent_pathless sub1 sub2 dlc titleData titleID directory :
  outcome_of (Fileparse.processDLCContent guiEnabled sub1 dlc titleData titleID
                directory) =
  outcome_of (Fileparse.processDLCContent guiEnabled sub2 dlc titleData titleID
                directory).
Proof.
  unfold Fileparse.processDLCContent.
  destruct dlc as [r b|[] subContents]; cbn [ReadDir]; try reflexivity.
  apply outcome_of_same_and_then; [reflexivity|apply dlcLoop_pathless].
Qed.

Lemma reportKnown_pathless titleData titleID directory name path1 path2 fileHash :
  map pathless_action (Fileparse.reportKnown guiEnabled titleData titleID directory
                         name path1 fileHash) =
  map pathless_action (Fileparse.reportKnown guiEnabled titleData titleID directory
                         name path2 fileHash).
Proof. unfold Fileparse.reportKnown. now destruct guiEnabled. Qed.

Lemma reportUnknown_pathless titleData titleID directory path1 path2 fileHash :
  map pathless_action (Fileparse.reportUnknown guiEnabled titleData titleID directory
                         path1 fileHash) =
  map pathless_action (Fileparse.reportUnknown guiEnabled titleData titleID directory
                         path2 fileHash).
Proof. unfold Fileparse.reportUnknown. now destruct guiEnabled. Qed.

Lemma scanKnown_pathless titleData titleID directory path1 path2 fileHash known found :
  map pathless_action
    (fst (Fileparse.scanKnown guiEnabled titleData titleID directory path1 fileHash
            known found)) =
  map pathless_action
    (fst (Fileparse.scanKnown guiEnabled titleData titleID directory path2 fileHash
            known found)) /\
  snd (Fileparse.scanKnown guiEnabled titleData titleID directory path1 fileHash
         known found) =
  snd (Fileparse.scanKnown guiEnabled titleData titleID directory path2 fileHash
         known found).
Proof.
  induction known as [|m rest IH]; cbn [Fileparse.scanKnown]; [now split|].
  destruct (range_lookup m fileHash) as [name|].
  - cbn [fst snd]. split; [apply reportKnown_pathless|reflexivity].
  - destruct found; [now split|exact IH].
Qed.

Lemma updBody_pathless sub1 sub2 titleData titleID directory f found :
  map pathless_action
    (fst (Fileparse.updBody guiEnabled sha1 sub1 titleData titleID directory f found)) =
  map pathless_action
    (fst (Fileparse.updBody guiEnabled sha1 sub2 titleData titleID directory f found)) /\
  snd (Fileparse.updBody guiEnabled sha1 sub1 titleData titleID directory f found) =
  snd (Fileparse.updBody guiEnabled sha1 sub2 titleData titleID directory f found).
Proof.
  destruct f as [name n]. cbn [Fileparse.updBody].
  destruct (negb (String.eqb (Ext name) ".xbe")); [now split|].
  destruct n as [[] bytes|l es]; cbn [Fileparse.getSHA1Hash].
  - destruct (scanKnown_pathless titleData titleID directory (Join sub1 name)
                (Join sub2 name) (sha1 bytes) (TitleUpdatesKnown titleData) found)
      as [Ht Hf].
    destruct (Fileparse.scanKnown _ _ _ _ (Join sub1 name) _ _ _) as [t1 f1].
    destruct (Fileparse.scanKnown _ _ _ _ (Join sub2 name) _ _ _) as [t2 f2].
    cbn [fst snd] in Ht, Hf. subst f2.
    destruct f1; cbn [negb fst snd map pathless_action].
    + now rewrite Ht.
    + rewrite !map_app, Ht.
      now rewrite (reportUnknown_pathless _ _ _ (Join sub1 name) (Join sub2 name)).
  - cbn [fst snd map pathless_action]. split; [|reflexivity]. f_equal.
    now apply pathless_report.
  - cbn [fst snd map pathless_action]. split; [|reflexivity]. f_equal.
    now apply pathless_report.
Qed.

Lemma updLoop_pathless sub1 sub2 titleData titleID directory files found :
  map pathless_action
    (Fileparse.updLoop guiEnabled sha1 sub1 titleData titleID directory files found) =
  map pathless_action
    (Fileparse.updLoop guiEnabled sha1 sub2 titleData titleID directory files found).
Proof.
  revert found. induction files as [|f rest IH]; intros found; [reflexivity|].
  cbn [Fileparse.updLoop].
  destruct (updBody_pathless sub1 sub2 titleData titleID directory f found) as [Ht Hf].
  destruct (Fileparse.updBody _ _ sub1 _ _ _ _ _) as [t1 f1].
  destruct (Fileparse.updBody _ _ sub2 _ _ _ _ _) as [t2 f2].
  cbn [fst snd] in Ht, Hf. subst f2. now rewrite !map_app, Ht, IH.
Qed.

Lemma processUpdates_pathless sub1 sub2 upd titleData titleID directory :
  outcome_of (Fileparse.processUpdates guiEnabled sha1 sub1 upd titleData titleID
                directory) =
  outcome_of (Fileparse.processUpdates guiEnabled sha1 sub2 upd titleData titleID
                directory).
Proof.
  unfold Fileparse.processUpdates.
  destruct upd as [r b|[] files]; cbn [ReadDir]; try reflexivity.
  unfold outcome_of, act. cbn [fst snd map pathless_action option_map].
  now rewrite (updLoop_pathless sub1 sub2).
Qed.

(** The walk function does and returns the same, paths apart, wherever
    the node lies and whatever the case of the letters of its name. *)
Lemma walkFn_pathless directory path1 path2 name1 name2 n err1 err2 :
  ToLower name1 = ToLower name2 ->
  option_map pathless_error err1 = option_map pathless_error err2 ->
  outcome_of (Fileparse.walkFn titles guiEnabled sha1 directory path1 name1 n err1) =
  outcome_of (Fileparse.walkFn titles guiEnabled sha1 directory path2 name2 n err2).
Proof.
  intros Hlow Herr.
  assert (Hlen : String.length name1 = String.length name2)
    by (rewrite <- (ToLower_length name1), Hlow; apply ToLower_length).
  unfold Fileparse.walkFn.
  destruct err1 as [e1|], err2 as [e2|]; try discriminate Herr.
  { unfold outcome_of. cbn [fst snd map pathless_action]. now rewrite Herr. }
  rewrite Hlen, Hlow.
  apply outcome_of_same_and_then; [reflexivity|].
  destruct (IsDir n && (String.length name2 =? 8)%nat); [|reflexivity].
  cbn zeta.
  apply outcome_of_same_and_then; [reflexivity|].
  apply outcome_of_same_and_then; [|apply outcome_of_same_and_then; [|reflexivity]].
  - apply outcome_of_same_and_then; [reflexivity|].
    destruct (stat_child n "$c") as [sub|]; [|reflexivity].
    destruct (IsDir sub); [|reflexivity].
    destruct (titles !! ToLower name2); [apply processDLCContent_pathless|].
    unfold outcome_of, act. cbn [fst snd option_map]. f_equal.
    now apply pathless_logOutput.
  - apply outcome_of_same_and_then; [reflexivity|].
    destruct (stat_child n "$u") as [sub|]; [|reflexivity].
    destruct (IsDir sub); [|reflexivity].
    destruct (titles !! ToLower name2); [apply processUpdates_pathless|].
    unfold outcome_of, act. cbn [fst snd option_map]. f_equal.
    now apply pathless_logOutput.
Qed.

End CaseOfNames.

Section CaseOfNamesWalk.
Variable titles : Catalog.
Variable guiEnabled : bool.
Variable sha1 : string -> string.

Lemma walk_entries_pathless directory path1 path2 entries :
  Forall (fun e => forall p1 p2 name,
              outcome_of (Fileparse.walk titles guiEnabled sha1 directory p1 name (snd e)) =
              outcome_of (Fileparse.walk titles guiEnabled sha1 directory p2 name (snd e)))
         entries ->
  outcome_of (Fileparse.walk_entries titles guiEnabled sha1 directory path1 entries) =
  outcome_of (Fileparse.walk_entries titles guiEnabled sha1 directory path2 entries).
Proof.
  induction 1 as [|[nm child] rest Hc _ IH]; [reflexivity|].
  cbn [Fileparse.walk_entries]. cbn [snd] in Hc.
  specialize (Hc (Join path1 nm) (Join path2 nm) nm).
  destruct (Fileparse.walk _ _ _ _ (Join path1 nm) nm child) as [t1 e1].
  destruct (Fileparse.walk _ _ _ _ (Join path2 nm) nm child) as [t2 e2].
  unfold outcome_of in Hc. cbn [fst snd] in Hc. injection Hc as Ht He.
  assert (Hact : outcome_of (act t1) = outcome_of (act t2))
    by (unfold outcome_of, act; cbn [fst snd]; now rewrite Ht).
  destruct e1 as [e1|], e2 as [e2|]; try discriminate He.
  - injection He as He.
    assert (Hskip : bool_decide (e1 = SkipDir) = bool_decide (e2 = SkipDir))
      by (destruct e1, e2; try discriminate He; reflexivity).
    rewrite Hskip.
    destruct (IsDir child && bool_decide (e2 = SkipDir)).
    + now apply outcome_of_same_and_then.
    + unfold outcome_of. cbn [fst snd option_map]. now rewrite Ht, He.
  - now apply outcome_of_same_and_then.
Qed.

(** The walk of a subtree does and returns the same, paths apart, wherever
    the subtree lies and whatever the case of the letters of the name of
    its root. *)
Lemma walk_pathless directory n :
  forall path1 path2 name1 name2,
    ToLower name1 = ToLower name2 ->
    outcome_of (Fileparse.walk titles guiEnabled sha1 directory path1 name1 n) =
    outcome_of (Fileparse.walk titles guiEnabled sha1 directory path2 name2 n).
Proof.
  induction n as [r b|listable entries IH] using node_tree_ind;
    intros path1 path2 name1 name2 Hlow.
  - cbn [Fileparse.walk]. now apply walkFn_pathless.
  - rewrite !walk_Dir.
    pose proof (walkFn_pathless titles guiEnabled sha1 directory path1 path2 name1
                  name2 (Dir listable entries)
                  (if listable then None else Some (ErrIO path1))
                  (if listable then None else Some (ErrIO path2)) Hlow) as Hfn.
    destruct (Fileparse.walkFn _ _ _ _ path1 _ _ _) as [t1 e1].
    destruct (Fileparse.walkFn _ _ _ _ path2 _ _ _) as [t2 e2].
    unfold outcome_of in Hfn. cbn [fst snd] in Hfn.
    assert (Hfn' : map pathless_action t1 = map pathless_action t2 /\
                   option_map pathless_error e1 = option_map pathless_error e2).
    { assert (H : (map pathless_action t1, option_map pathless_error e1) =
                  (map pathless_action t2, option_map pathless_error e2))
        by (apply Hfn; now destruct listable).
      now injection H. }
    destruct Hfn' as [Ht He].
    assert (Hnil : bool_decide (e1 <> None) = bool_decide (e2 <> None))
      by (destruct e1, e2; try discriminate He; reflexivity).
    rewrite Hnil.
    destruct (negb listable || bool_decide (e2 <> None)).
    + unfold outcome_of. cbn [fst snd map pathless_action]. now rewrite Ht, He.
    + cbn zeta.
      assert (Hes : outcome_of (Fileparse.walk_entries titles guiEnabled sha1
                                  directory path1 entries) =
                    outcome_of (Fileparse.walk_entries titles guiEnabled sha1
                                  directory path2 entries)).
      { apply walk_entries_pathless.
        eapply Forall_impl; [exact IH|].
        intros e He' p1 p2 name. now apply He'. }
      unfold outcome_of in Hes. cbn [fst snd] in Hes. injection Hes as Hes1 Hes2.
      unfold outcome_of. cbn [fst snd map pathless_action].
      now rewrite !map_app, Ht, Hes1, Hes2.
Qed.

Lemma In_printed e t : In (Print e) t -> In e (printed t).
Proof.
  induction t as [|a t IH]; [intros []|].
  intros [->|H]; [now left|]. specialize (IH H).
  destruct a; cbn [printed]; try exact IH. now right.
Qed.

Lemma and_then_keeps (r k : run) a : In a (fst r) -> In a (fst (r ;;; k)).
Proof.
  destruct r as [t [e|]]; cbn [and_then fst]; [auto|].
  intros H. apply in_app_iff. now left.
Qed.

Lemma walk_known_title_header directory path name entries titleData :
  String.length name = 8 ->
  titles !! ToLower name = Some titleData ->
  In (Header (TitleName titleData))
     (printed (fst (Fileparse.walk titles guiEnabled sha1 directory path name
                      (Dir true entries)))).
Proof.
  intros Hlen Hsome. apply In_printed. rewrite walk_Dir.
  assert (Hfn : In (Print (Header (TitleName titleData)))
                  (fst (Fileparse.walkFn titles guiEnabled sha1 directory path name
                          (Dir true entries) None))).
  { unfold Fileparse.walkFn. rewrite Hlen, Hsome.
    cbn [IsDir Nat.eqb andb]. rewrite and_then_act. cbn [fst]. right.
    apply and_then_keeps. cbn [act fst]. unfold Fileparse.report.
    apply in_app_iff. right. now left. }
  destruct (Fileparse.walkFn _ _ _ _ _ _ _ _) as [t1 e1]. cbn [fst] in Hfn.
  destruct (negb true || bool_decide (e1 <> None)); cbn [fst].
  - now right.
  - right. apply in_app_iff. now left.
Qed.

(** C6: the scan reads the name of a directory through its lower-case
    form only.  Two ASCII names that differ in the case of their letters
    only, for the same directory below the same parent, make the walk of
    the directory do and return the same from the first step to the last,
    paths apart: the same reports with the same title, identifiers, names
    and digests in the same sinks, the same error.  For names of 8 bytes
    the catalog is asked for the lower-case form: when it has an entry
    for it, both walks print the header of that title, and when it has
    none, both walks answer [filepath.SkipDir]. *)
Theorem title_lookup_ignores_case :
  forall directory parent name1 name2 n,
    is_ascii name1 = true ->
    is_ascii name2 = true ->
    String.length name1 = 8 ->
    ToLower name1 = ToLower name2 ->
    let r1 := Fileparse.walk titles guiEnabled sha1 directory (Join parent name1)
                name1 n in
    let r2 := Fileparse.walk titles guiEnabled sha1 directory (Join parent name2)
                name2 n in
    outcome_of r1 = outcome_of r2 /\
    (forall entries titleData,
        n = Dir true entries ->
        titles !! ToLower name1 = Some titleData ->
        In (Header (TitleName titleData)) (printed (fst r1)) /\
        In (Header (TitleName titleData)) (printed (fst r2))) /\
    (forall entries,
        n = Dir true entries ->
        titles !! ToLower name1 = None ->
        snd r1 = Some SkipDir /\ snd r2 = Some SkipDir).
Proof.
  intros directory parent name1 name2 n _ _ Hlen Hlow r1 r2. subst r1 r2.
  assert (Hlen2 : String.length name2 = 8)
    by (rewrite <- (ToLower_length name2), <- Hlow, ToLower_length; exact Hlen).
  split; [now apply walk_pathless|]. split.
  - intros entries titleData -> Hsome. split.
    + now apply walk_known_title_header.
    + apply walk_known_title_header; [exact Hlen2|now rewrite <- Hlow].
  - intros entries -> Hnone. split.
    + now rewrite walk_unrecognized.
    + rewrite walk_unrecognized; [reflexivity|exact Hlen2|now rewrite <- Hlow].
Qed.

End CaseOfNamesWalk.

Lemma title_lookup_ignores_case_witness :
  let r1 := Fileparse.walk Demo.catalog false Demo.sha1 "dump" "dump/4D530064"
              "4D530064" Demo.titleDir in
  let r2 := Fileparse.walk Demo.catalog false Demo.sha1 "dump" "dump/4d530064"
              "4d530064" Demo.titleDir in
  outcome_of r1 = outcome_of r2 /\
  In (Header "Game A") (printed (fst r1)) /\
  In (Header "Game A") (printed (fst r2)).
Proof.
  destruct (title_lookup_ignores_case Demo.catalog false Demo.sha1 "dump" "dump"
              "4D530064" "4d530064" Demo.titleDir eq_refl eq_refl eq_refl eq_refl)
    as (Hsame & Hknown & _).
  split; [exact Hsame|].
  exact (Hknown [ ("$c", Demo.dlcDir) ] Demo.gameA eq_refl eq_refl).
Defined.

(** ** What ends a scan *)

Section Abort.
Variable titles : Catalog.
Variable guiEnabled : bool.
Variable sha1 : string -> string.

Lemma updLoop_hash_error subDirUpdates titleData titleID directory before name n after :
  Ext name = ".xbe" ->
  unhashable n = true ->
  forall found,
    In (HashError name (ErrIO (Join subDirUpdates name)))
       (printed (Fileparse.updLoop guiEnabled sha1 subDirUpdates titleData titleID
                   directory (before ++ (name, n) :: after) found)).
Proof.
  intros Hext Hun. induction before as [|f rest IH]; intros found.
  - cbn [app Fileparse.updLoop].
    pose proof (proj2 (updBody_hash_errors guiEnabled sha1 subDirUpdates titleData
                         titleID directory name n found name
                         (ErrIO (Join subDirUpdates name)))) as Hb.
    destruct (Fileparse.updBody _ _ _ _ _ _ _ _) as [t fnd]. cbn [fst] in Hb.
    rewrite printed_app, in_app_iff. left. apply Hb.
    unfold is_xbe. cbn [fst]. rewrite Hext. auto.
  - cbn [app Fileparse.updLoop].
    destruct (Fileparse.updBody _ _ _ _ _ _ f found) as [t fnd].
    rewrite printed_app, in_app_iff. right. apply IH.
Qed.

(** C8: what ends a scan and what does not.  When the scan root does not
    exist, [checkForContent] prints that the directory was not found and
    returns that error after the one [os.Stat]: the walk function is never
    called and nothing is listed or hashed.  When [os.Stat] fails in
    another way, nothing is printed and the scan returns the error that
    [filepath.Walk] hands to the walk function for the root.  When the
    root exists, a listing that fails ends the scan, which returns the
    error of that listing, and the scan returns an error in no other
    case.  A file of [$u] with extension [.xbe] whose hash cannot be
    computed does not end anything: [processUpdates] prints a hash error
    with the name of the file, goes on to hash every later [.xbe] entry
    of the listing, and returns [nil]. *)
Theorem only_structural_failures_abort :
  forall directory,
    (let r := Fileparse.checkForContentAt titles guiEnabled sha1 directory
                StatNotExist in
     snd r = Some (ErrNotFound directory) /\
     fst r = [OpStat directory; Print (RootNotFound directory)] /\
     visited (fst r) = [] /\ listed (fst r) = [] /\ hashed (fst r) = []) /\
    (forall err,
        err <> SkipDir ->
        let r := Fileparse.checkForContentAt titles guiEnabled sha1 directory
                   (StatFails err) in
        snd r = Some err /\
        emitted (fst r) = [] /\ visited (fst r) = [directory] /\
        listed (fst r) = [] /\ hashed (fst r) = []) /\
    (forall root,
        is_clean directory = true ->
        let r := Fileparse.checkForContentAt titles guiEnabled sha1 directory
                   (StatFound root) in
        (forall p, In p (failed_listings (fst r)) ->
                   snd r = Some (ErrIO p) /\ ends_with_failed_listing p (fst r)) /\
        (forall e, snd r = Some e ->
                   exists p, e = ErrIO p /\ In p (failed_listings (fst r)))) /\
    (forall subDirUpdates before name n after titleData titleID,
        is_clean subDirUpdates = true ->
        entry_name name = true ->
        Ext name = ".xbe" ->
        unhashable n = true ->
        let r := Fileparse.processUpdates guiEnabled sha1 subDirUpdates
                   (Dir true (before ++ (name, n) :: after)) titleData titleID
                   directory in
        snd r = None /\
        In (HashError name (ErrIO (Join subDirUpdates name))) (printed (fst r)) /\
        hashed (fst r) =
          map (fun f => Join subDirUpdates (fst f))
            (List.filter is_xbe (before ++ (name, n) :: after))).
Proof.
  intros directory. split; [|split; [|split]].
  - repeat split.
  - intros err Hne r. subst r. cbn [Fileparse.checkForContentAt Fileparse.walkFn].
    cbn [fst snd emitted visited listed hashed].
    repeat split. destruct err; [now destruct Hne|reflexivity|reflexivity].
  - intros root _ r. subst r.
    cbn [Fileparse.checkForContentAt]. unfold Fileparse.checkForContent.
    pose proof (walk_stops titles guiEnabled sha1 directory root directory
                  (Base directory)) as Hs.
    destruct (Fileparse.walk _ _ _ _ _ _ _) as [t err].
    unfold stops_at_failed_listing in Hs. cbn [fst snd] in *.
    change (failed_listings (OpStat directory :: t)) with (failed_listings t).
    destruct err as [[|d|q]|]; try (rewrite Hs); try tauto.
    + split; [intros p []|discriminate].
    + pose proof (ends_with_failed_listing_only _ _ Hs) as Hq. rewrite Hq. split.
      * intros p [<-|[]]. split; [reflexivity|].
        destruct Hs as (t1 & t2 & -> & H1 & H2).
        exists (OpStat directory :: t1), t2. auto.
      * intros e [= <-]. exists q. split; [reflexivity|now left].
    + split; [intros p []|discriminate].
  - intros subDirUpdates before name n after titleData titleID _ _ Hext Hun r.
    subst r. unfold Fileparse.processUpdates. cbn [ReadDir act fst snd].
    split; [reflexivity|]. split.
    + cbn [printed]. now apply updLoop_hash_error.
    + cbn [hashed]. apply updLoop_hashed.
Qed.

End Abort.

Lemma only_structural_failures_abort_witness :
  (let r := Fileparse.checkForContentAt Demo.catalog false Demo.sha1 "dump"
              (StatFails (ErrIO "dump")) in
   snd r = Some (ErrIO "dump") /\ emitted (fst r) = []) /\
  (let r := Fileparse.checkForContentAt Demo.catalog false Demo.sha1 "dump"
              (StatFound Demo.dumpUnlistable) in
   snd r = Some (ErrIO "dump/4d530064/$c") /\
   ends_with_failed_listing "dump/4d530064/$c" (fst r)) /\
  (let r := Fileparse.processUpdates false Demo.sha1 "dump/4d530064/$u"
              Demo.unreadableBetween Demo.gameA "4d530064" "dump" in
   snd r = None /\
   In (HashError "1.xbe" (ErrIO "dump/4d530064/$u/1.xbe")) (printed (fst r)) /\
   hashed (fst r) =
     ["dump/4d530064/$u/0.xbe"; "dump/4d530064/$u/1.xbe"; "dump/4d530064/$u/2.xbe"]).
Proof.
  destruct (only_structural_failures_abort Demo.catalog false Demo.sha1 "dump")
    as (_ & Hstat & Hlist & Hhash).
  split; [|split].
  - destruct (Hstat (ErrIO "dump")) as (H1 & H2 & _); [discriminate|].
    split; assumption.
  - destruct (Hlist Demo.dumpUnlistable eq_refl) as [Hfail _].
    apply (Hfail "dump/4d530064/$c"). vm_compute. left. reflexivity.
  - apply (Hhash "dump/4d530064/$u" [ ("0.xbe", File true "") ] "1.xbe"
             (File false "") [ ("2.xbe", File true "abc") ] Demo.gameA "4d530064");
      reflexivity.
Defined.

(** ** Cleanly written paths *)

Lemma elements_from_nonempty element s : elements_from element s <> [].
Proof.
  revert element. induction s as [|c s IH]; intros element; cbn [elements_from];
    [discriminate|]. destruct (Ascii.eqb c "/"); [discriminate|apply IH].
Qed.

Lemma last_element s :
  forall element,
    last (elements_from element s) =
    Some (if has_byte "/"%char s then after_last_sep s else element +:+ s).
Proof.
  induction s as [|c s IH]; intros element.
  - cbn [elements_from has_byte last]. f_equal. clear.
    induction element as [|a e IHe]; push_app; [reflexivity|now rewrite <- IHe].
  - cbn [elements_from]. rewrite (Ascii.eqb_sym c).
    destruct (Ascii.eqb "/" c) eqn:E.
    + destruct (elements_from "" s) as [|e es] eqn:Ees;
        [now apply elements_from_nonempty in Ees|].
      rewrite last_cons_cons, <- Ees, IH.
      cbn [has_byte after_last_sep]. rewrite E. cbn [orb]. reflexivity.
    + rewrite IH. cbn [has_byte after_last_sep]. rewrite E. cbn [orb].
      destruct (has_byte "/"%char s); [reflexivity|].
      now rewrite string_app_assoc.
Qed.

(** The name that [Base] gives for a cleanly written path is its last
    element, a plain one. *)
Lemma Base_of_clean_path path :
  is_clean path = true ->
  last (elements (if HasPrefix path "/" then drop_bytes 1 path else path)) =
    Some (Base path) /\
  plain_element (Base path) = true.
Proof.
  intros Hclean.
  assert (Hlast : last (elements (if HasPrefix path "/" then drop_bytes 1 path
                                  else path)) = Some (Base path)).
  { unfold elements, Base. rewrite last_element.
    destruct path as [|c rest]; [reflexivity|].
    cbn [HasPrefix]. destruct (Ascii.eqb "/" c) eqn:E; cbn [andb drop_bytes].
    - cbn [after_last_sep has_byte]. rewrite E. cbn [orb].
      destruct (has_byte "/"%char rest); reflexivity.
    - destruct (has_byte "/"%char (String c rest)) eqn:Hb; [reflexivity|].
      cbn [after_last_sep]. now rewrite Hb. }
  split; [exact Hlast|].
  unfold is_clean, clean_relative in Hclean. rewrite forallb_forall in Hclean.
  apply Hclean. apply list_elem_of_In. eapply last_Some_elem_of. exact Hlast.
Qed.
